(** * RSS ingestion job: a shallow embedding of the ingestion pipeline

    The development follows the Python sources file by file:
    [main.py] (run coordinator and per-feed orchestrator), [rss_fetcher.py]
    (feed transport, parsing, new-item detection), [gcs_utils.py] (bucket
    adapter), [html_cleaner.py] (whitespace and metadata header around the
    text extraction), [rag_ingest.py] (corpus import and its poll loop) and
    [vector_search_ingest.py] (embedding and vector upsert).

    Python [str] values are sequences of Unicode code points, remote
    services are oracles indexed by a logical tick that every remote attempt
    advances, and every function that performs I/O is a computation in a
    state-and-exception monad over the [world] (tick, bucket contents and
    the trace of observable events, newest first). *)

From Stdlib Require Import NArith Ascii String.
From stdpp Require Import strings gmap list.

Local Open Scope N_scope.

(** ** Python strings *)

(** A [str] is its list of code points. *)
Definition pystr : Type := list N.

(** String literals of the sources, written as Rocq strings. *)
Definition str (s : string) : pystr := map N_of_ascii (list_ascii_of_string s).

(** [str.strip()] removes the code points Python classifies as whitespace
    ([Py_UNICODE_ISSPACE]). *)
Definition py_isspace (c : N) : bool :=
  ((9 <=? c) && (c <=? 13)) || ((28 <=? c) && (c <=? 32))
  || (c =? 133) || (c =? 160) || (c =? 5760)
  || ((8192 <=? c) && (c <=? 8202))
  || (c =? 8232) || (c =? 8233) || (c =? 8239) || (c =? 8287) || (c =? 12288).

Fixpoint lstrip (s : pystr) : pystr :=
  match s with
  | c :: s' => if py_isspace c then lstrip s' else s
  | [] => []
  end.

Definition strip (s : pystr) : pystr := rev (lstrip (rev (lstrip s))).

(** Truthiness of a [str]: the empty string is falsy. *)
Definition truthy (s : pystr) : bool :=
  match s with [] => false | _ => true end.

(** [a or b] on strings. *)
Definition py_or (a b : pystr) : pystr := if truthy a then a else b.

Definition pystr_eqb (a b : pystr) : bool := bool_decide (a = b).

(** Decimal rendering of a non-negative [int], as an f-string prints it. *)
Fixpoint digits_of_uint (u : Decimal.uint) : pystr :=
  match u with
  | Decimal.Nil => []
  | Decimal.D0 u => 48 :: digits_of_uint u
  | Decimal.D1 u => 49 :: digits_of_uint u
  | Decimal.D2 u => 50 :: digits_of_uint u
  | Decimal.D3 u => 51 :: digits_of_uint u
  | Decimal.D4 u => 52 :: digits_of_uint u
  | Decimal.D5 u => 53 :: digits_of_uint u
  | Decimal.D6 u => 54 :: digits_of_uint u
  | Decimal.D7 u => 55 :: digits_of_uint u
  | Decimal.D8 u => 56 :: digits_of_uint u
  | Decimal.D9 u => 57 :: digits_of_uint u
  end.

Definition str_of_int (n : N) : pystr := digits_of_uint (N.to_uint n).

(** ASCII letters and digits; every Unicode-conformant [isalnum] table agrees
    with this one below code point 128. *)
Definition ascii_isalnum (c : N) : bool :=
  ((48 <=? c) && (c <=? 57)) || ((65 <=? c) && (c <=? 90))
  || ((97 <=? c) && (c <=? 122)).

(** ** Exceptions *)

(** The failures [rag_ingest.py] raises as plain [Exception(error_msg)]. *)
Inductive rag_failure :=
| ConcurrentOperation
| ImportRejected (status : N)
| NoOperationName
| PollFailed (status : N)
| OperationFailed
| PollTimeout.

(** Exception values.  Every constructor is an instance of [Exception]. *)
Inductive exn :=
| RequestException                 (* requests.RequestException and subclasses *)
| HTTPError (status : N)           (* raised by raise_for_status, a RequestException *)
| ConnectionError                  (* the builtin *)
| RetryError (last : exn)          (* tenacity, attempts exhausted *)
| NotFound                         (* google.api_core.exceptions.NotFound *)
| KeyError
| ValueError
| AttributeError
| RagException (f : rag_failure)
| OtherException (tag : N).        (* any other Exception of a collaborator *)

Inductive result (A : Type) :=
| Ok (a : A)
| Raise (e : exn).
Arguments Ok {A} a.
Arguments Raise {A} e.

(** [retry_if_exception_type((requests.RequestException, ConnectionError))] *)
Definition is_request_error (e : exn) : bool :=
  match e with
  | RequestException | HTTPError _ | ConnectionError => true
  | _ => false
  end.

(** [retry_if_exception_type((Exception,))] *)
Definition is_exception (e : exn) : bool := true.

(** ** Data model *)

(** One entry as [feedparser] yields it; an absent key is [None]. *)
Record entry := {
  e_title : option pystr;
  e_link : option pystr;
  e_id : option pystr;
  e_published : option pystr;
  e_updated : option pystr;
  e_description : option pystr
}.

(** The item dictionary built by [parse_rss]: all five keys are present. *)
Record item := {
  title : pystr;
  link : pystr;
  guid : pystr;
  pubDate : pystr;
  description : pystr
}.

(** One value of [RSS_FEEDS]. *)
Record feed_config := { folder : pystr; url : pystr }.

(** The metadata dictionary built per item in [process_feed]. *)
Record metadata := {
  m_title : pystr;
  m_link : pystr;
  m_pubDate : pystr;
  m_feed : pystr;
  m_item_id : pystr;
  m_processed_at : pystr
}.

(** The JSON object stored at [<folder>/processed_ids.json]: the value of its
    ["ids"] key when present, and its other members (key, serialized value). *)
Record ids_doc := {
  doc_ids : option (list pystr);
  doc_rest : list (pystr * pystr)
}.

(** Truthiness of the dictionary: [{}] is falsy. *)
Definition doc_truthy (d : ids_doc) : bool :=
  match doc_ids d, doc_rest d with
  | None, [] => false
  | _, _ => true
  end.

(** Bucket contents: a JSON object or any other payload (text or bytes, which
    [json.loads] rejects). *)
Inductive blob :=
| Json (d : ids_doc)
| Payload (content : pystr).

(** Embedding components are carried as opaque binary64 bit patterns; the
    pipeline performs no arithmetic on them. *)
Definition pyfloat : Type := N.

(** Values of the datapoint dictionary handed to the vector index. *)
Inductive dp_value :=
| DStr (s : pystr)
| DVector (v : list pyfloat).

(** A Python dict literal, in insertion order. *)
Definition datapoint : Type := list (pystr * dp_value).

Record datetime := { epoch_seconds : N; isoformat : pystr }.

(** A response of [requests]: [content] is the body as received, [text] the
    body decoded under the encoding set on the response. *)
Record http_response := { status_code : N; content : pystr; text : pystr }.

(** Response of the [ragFiles:import] POST.  [concurrent_body] is the outcome
    of [_should_retry_on_concurrent_operation]'s test on the error body
    (the lower-cased message contains "other operations running");
    [operation_name] is [result.get("name")]: [None] when [json()] raises,
    the empty string when the key is absent. *)
Record post_response := {
  post_status : N;
  post_text : pystr;
  concurrent_body : bool;
  operation_name : option pystr
}.

(** The JSON body of an operation status response. *)
Record op_result := {
  done : bool;
  op_error : option (pystr * pystr);      (* message, code *)
  imported_rag_files_count : N;
  skipped_rag_files_count : N
}.

Record poll_response := {
  poll_status : N;
  poll_text : pystr;
  poll_json : option op_result            (* [None] when [json()] fails *)
}.

(** ** Observable events *)

Inductive severity := INFO | WARNING | ERROR.

(** The messages of [log_structured], with the structured fields the
    properties below refer to. *)
Inductive log_msg :=
| ProcessingFeed (feed : pystr)
| FetchingRssFeed
| ParsedItems (count : nat)
| LoadedProcessedIds (count : nat)
| FoundNewItems (count : nat)
| NoNewItems
| ProcessingItem (item_id : pystr)
| SavedRawXml (item_id path : pystr)
| ItemMissingLink (item_id : pystr)
| FetchingArticleHtml (item_id : pystr)
| SavedRawHtml (item_id path : pystr)
| CleanedTextTooShort (item_id : pystr) (length : nat)
| SavedCleanedText (item_id path : pystr)
| IngestingToRag (item_id : pystr)
| RagIngestionComplete (item_id : pystr)
| EmbeddingText (item_id : pystr)
| UpsertingVector (item_id : pystr) (embedding_dim : nat)
| VectorUpsertComplete (item_id : pystr)
| ItemProcessingComplete (item_id : pystr)
| ErrorProcessingItem (item_id : pystr) (e : exn)
| UpdatedProcessedIds (new_count total_count : nat)
| FeedProcessingComplete (processed errors : nat)
| ErrorProcessingFeed (feed : pystr) (e : exn)
| StartingJob
| JobCompleted
| JobFailed (e : exn).

(** Remote calls and pauses. *)
Inductive call :=
| HttpGet (url : pystr)
| BlobExists (path : pystr)
| BlobDownload (path : pystr)
| BlobUpload (path : pystr) (b : blob)
| GetAccessToken
| ImportPost (gcs_uri : pystr)
| OperationGet (operation : pystr)
| GetEmbeddings (text : pystr)
| UpsertDatapoints (datapoints : list datapoint)
| Initialize
| Sleep (seconds : N)
| Backoff (attempt_number : nat).          (* tenacity's wait between attempts *)

(** [Called c ok]: the call was issued and returned ([ok]) or raised. *)
Inductive event :=
| Log (s : severity) (m : log_msg)
| Called (c : call) (ok : bool).

(** ** The environment: everything outside the repository *)

Record env := {
  (** Unicode database: [Py_UNICODE_ISALNUM], behind the regex class [\w]. *)
  unicode_isalnum : N -> bool;
  (** [mcp.config] *)
  BUCKET_NAME : pystr;
  REGION : pystr;
  MIN_TEXT_LENGTH : nat;
  RSS_FEEDS : list (pystr * feed_config);
  (** [datetime.utcnow()] *)
  utcnow : nat -> datetime;
  (** construction of the five components in [main] *)
  initialize : nat -> option exn;
  (** [requests.Session.get] *)
  session_get : nat -> pystr -> result http_response;
  (** [feedparser.parse] *)
  feedparser_parse : pystr -> result (list entry);
  (** [HTMLCleaner.clean_html] up to [get_text]: the BeautifulSoup parse, the
      removal of unwanted elements and the text of the article container *)
  extract_text : pystr -> result pystr;
  (** the substitutions of [_remove_footer_header_patterns] *)
  remove_footer_header_patterns : pystr -> pystr;
  (** a fault of the storage client at a given tick *)
  storage_fault : nat -> option exn;
  (** credential refresh *)
  token_fault : nat -> option exn;
  (** the import endpoint and the operation status endpoint *)
  requests_post : nat -> pystr -> result post_response;
  requests_get : nat -> pystr -> result poll_response;
  (** the embedding model and the vector index *)
  get_embeddings : nat -> pystr -> result (list (list pyfloat));
  upsert_datapoints : nat -> list datapoint -> option exn
}.

(** ** The world and the monad of effects *)

Record world := {
  tick : nat;
  bucket : gmap pystr blob;
  trace : list event                       (* newest first *)
}.

Definition M (A : Type) : Type := world -> result A * world.

Definition ret {A} (a : A) : M A := fun w => (Ok a, w).

Definition raise {A} (e : exn) : M A := fun w => (Raise e, w).

Definition bind {A B} (m : M A) (k : A -> M B) : M B :=
  fun w => match m w with
           | (Ok a, w') => k a w'
           | (Raise e, w') => (Raise e, w')
           end.

(** [try: m except Exception as e: ...], the handler being the caller's
    match on the result. *)
Definition try_ {A} (m : M A) : M (result A) :=
  fun w => match m w with (r, w') => (Ok r, w') end.

Declare Scope py_scope.
Delimit Scope py_scope with py.
Notation "'let*' x ':=' m 'in' k" := (bind m (fun x => k))
  (at level 10, x pattern, m at level 100, k at level 200) : py_scope.
Notation "m1 ';;;' m2" := (bind m1 (fun _ => m2))
  (at level 100, m2 at level 200, right associativity) : py_scope.
Local Open Scope py_scope.

Definition emit (e : event) : M unit :=
  fun w => (Ok tt, {| tick := tick w; bucket := bucket w; trace := e :: trace w |}).

(** Reads the logical time of the next remote attempt and advances it. *)
Definition next_tick : M nat :=
  fun w => (Ok (tick w), {| tick := S (tick w); bucket := bucket w; trace := trace w |}).

Definition get_blob (path : pystr) : M (option blob) :=
  fun w => (Ok (bucket w !! path), w).

Definition put_blob (path : pystr) (b : blob) : M unit :=
  fun w => (Ok tt, {| tick := tick w; bucket := <[path := b]> (bucket w); trace := trace w |}).

Definition log_structured (s : severity) (m : log_msg) : M unit := emit (Log s m).

Definition sleep (seconds : N) : M unit := emit (Called (Sleep seconds) true).

(** A call that a fault oracle may make raise. *)
Definition faulty (fault : nat -> option exn) (c : call) : M unit :=
  let* t := next_tick in
  match fault t with
  | Some e => emit (Called c false) ;;; raise e
  | None => emit (Called c true)
  end.

(** A call answered by an oracle. *)
Definition remote {A} (oracle : nat -> result A) (c : call) : M A :=
  let* t := next_tick in
  match oracle t with
  | Raise e => emit (Called c false) ;;; raise e
  | Ok a => emit (Called c true) ;;; ret a
  end.

(** ** tenacity's [@retry]

    [retry_ retryable n 1 f] runs [f] at most [n] times
    ([stop_after_attempt(n)]): an exception the predicate rejects
    propagates at once, a retryable one is followed by a backoff and
    another attempt, and after the [n]-th failed attempt [RetryError]
    is raised ([reraise] is left at its default). *)
Fixpoint retry_ {A} (retryable : exn -> bool) (attempts_left : nat)
    (attempt_number : nat) (f : M A) : M A :=
  let* r := try_ f in
  match r with
  | Ok a => ret a
  | Raise e =>
      if retryable e then
        match attempts_left with
        | 0%nat | 1%nat => raise (RetryError e)
        | S n => emit (Called (Backoff attempt_number) true) ;;;
                 retry_ retryable n (S attempt_number) f
        end
      else raise e
  end.

(** ** html_cleaner.py: whitespace and the metadata header *)

Definition nl : pystr := [10].

(** [re.sub] of the pattern [c{k,}] by [r] copies of [c]: every maximal run
    of at least [k] copies of [c] becomes [r] copies, a shorter run stays;
    [run] is the length of the run being read. *)
Fixpoint collapse_runs (c : N) (k r : nat) (run : nat) (text : pystr) : pystr :=
  match text with
  | [] => replicate (if (k <=? run)%nat then r else run) c
  | x :: text' =>
      if x =? c then collapse_runs c k r (S run) text'
      else replicate (if (k <=? run)%nat then r else run) c
           ++ x :: collapse_runs c k r 0 text'
  end.

Definition _clean_whitespace (text : pystr) : pystr :=
  let text := collapse_runs 10 3 2 0 text in      (* \n{3,} -> \n\n *)
  let text := collapse_runs 32 2 1 0 text in      (* " {2,}" -> " " *)
  strip text.

(** [sep.join(parts)] *)
Fixpoint join (sep : pystr) (parts : list pystr) : pystr :=
  match parts with
  | [] => []
  | [part] => part
  | part :: rest => part ++ sep ++ join sep rest
  end.

(** The "Source:" line of the header. *)
Definition source_line (feed_name : pystr) : pystr :=
  if pystr_eqb feed_name (str "dev") then str "Source: NVIDIA Developer Blog"
  else if pystr_eqb feed_name (str "official") then str "Source: NVIDIA Official Blog"
  else str "Source: " ++ feed_name.

(** [header_parts] at the end of [clean_html]: one line per non-empty field
    among the publication date, the title and the feed. *)
Definition header_parts (meta : metadata) : list pystr :=
  (if truthy (m_pubDate meta) then [str "Publication Date: " ++ m_pubDate meta] else [])
  ++ (if truthy (m_title meta) then [str "Title: " ++ m_title meta] else [])
  ++ (if truthy (m_feed meta) then [source_line (m_feed meta)] else []).

(** The last step of [clean_html]: the header, when it has a line, goes
    before the text. *)
Definition prepend_header (meta : metadata) (text : pystr) : pystr :=
  match header_parts meta with
  | [] => text
  | parts => join nl parts ++ nl ++ nl ++ str "---" ++ nl ++ nl ++ text
  end.

Section Pipeline.

Variable E : env.

(** ** rss_fetcher.py *)

Definition raise_for_status (r : http_response) : M unit :=
  if (400 <=? status_code r) && (status_code r <? 600)
  then raise (HTTPError (status_code r)) else ret tt.

Definition fetch_rss (url : pystr) : M pystr :=
  retry_ is_request_error 3 1
    (let* response := remote (fun t => session_get E t url) (HttpGet url) in
     raise_for_status response ;;;
     ret (content response)).

Definition get_or (o : option pystr) (default : pystr) : pystr :=
  match o with Some v => v | None => default end.

Definition item_of_entry (en : entry) : item :=
  {| title := strip (get_or (e_title en) []);
     link := strip (get_or (e_link en) []);
     guid := strip (get_or (e_id en) (get_or (e_link en) []));
     pubDate := strip (get_or (e_published en) (get_or (e_updated en) []));
     description := strip (get_or (e_description en) []) |}.

Definition parse_rss (xml_content : pystr) : M (list item) :=
  match feedparser_parse E xml_content with
  | Raise e => raise e
  | Ok entries => ret (map item_of_entry entries)
  end.

(** [item.get("guid") or item.get("link", "")] *)
Definition identity_of (it : item) : pystr := py_or (guid it) (link it).

Definition get_new_items (items : list item) (processed_ids : gset pystr) : list item :=
  filter (fun it => truthy (identity_of it) = true /\ identity_of it ∉ processed_ids) items.

Definition fetch_html (url : pystr) : M pystr :=
  retry_ is_request_error 3 1
    (let* response := remote (fun t => session_get E t url) (HttpGet url) in
     raise_for_status response ;;;
     ret (text response)).

Definition get_item_xml (it : item) : pystr :=
  str "<item>" ++ nl ++
  str "    <title><![CDATA[" ++ title it ++ str "]]></title>" ++ nl ++
  str "    <link>" ++ link it ++ str "</link>" ++ nl ++
  str "    <guid>" ++ guid it ++ str "</guid>" ++ nl ++
  str "    <pubDate>" ++ pubDate it ++ str "</pubDate>" ++ nl ++
  str "    <description><![CDATA[" ++ description it ++ str "]]></description>" ++ nl ++
  str "</item>".

(** ** gcs_utils.py *)

(** The body of [read_json].  The class of its first handler,
    [storage.exceptions.NotFound], is looked up when an exception arrives;
    [google.cloud.storage] has no such attribute, so the lookup raises
    [AttributeError] in place of the exception and the second handler is
    not reached. *)
Definition read_json_attempt (blob_path : pystr) : M (option ids_doc) :=
  let* r := try_
    (faulty (storage_fault E) (BlobExists blob_path) ;;;
     let* b := get_blob blob_path in
     match b with
     | None => ret None
     | Some b =>
         faulty (storage_fault E) (BlobDownload blob_path) ;;;
         match b with
         | Json data => ret (Some data)
         | Payload _ => raise ValueError       (* json.loads *)
         end
     end) in
  match r with
  | Ok data => ret data
  | Raise _ => raise AttributeError
  end.

Definition read_json (blob_path : pystr) : M (option ids_doc) :=
  retry_ is_exception 3 1 (read_json_attempt blob_path).

Definition write_json (blob_path : pystr) (data : ids_doc) : M unit :=
  retry_ is_exception 3 1
    (faulty (storage_fault E) (BlobUpload blob_path (Json data)) ;;;
     put_blob blob_path (Json data)).

Definition upload_file (blob_path : pystr) (content : pystr) : M unit :=
  retry_ is_exception 3 1
    (faulty (storage_fault E) (BlobUpload blob_path (Payload content)) ;;;
     put_blob blob_path (Payload content)).

(** ** html_cleaner.py *)

(** [clean_html] with the metadata dictionary that [process_feed] passes
    (never empty). *)
Definition clean_html (html : pystr) (meta : metadata) : M pystr :=
  if truthy html then
    match extract_text E html with
    | Raise e => raise e
    | Ok text =>
        let text := _clean_whitespace text in
        let text := remove_footer_header_patterns E text in
        ret (prepend_header meta text)
    end
  else ret [].

(** ** rag_ingest.py *)

Definition max_poll_attempts : nat := 120.

(** The [while poll_attempt < max_poll_attempts] loop; [remaining] is
    [max_poll_attempts - poll_attempt].  A normal return is the [break],
    with the counts read from the response; running out of attempts is the
    loop's [else] clause. *)
Fixpoint poll_loop (operation_url : pystr) (remaining : nat) : M (N * N) :=
  match remaining with
  | O => raise (RagException PollTimeout)
  | S remaining =>
      let* op_response :=
        remote (fun t => requests_get E t operation_url) (OperationGet operation_url) in
      if negb (poll_status op_response =? 200) then
        raise (RagException (PollFailed (poll_status op_response)))
      else
        match poll_json op_response with
        | None => raise ValueError
        | Some op_result =>
            if done op_result then
              match op_error op_result with
              | Some _ => raise (RagException OperationFailed)
              | None => ret (imported_rag_files_count op_result,
                             skipped_rag_files_count op_result)
              end
            else
              sleep 5 ;;;
              poll_loop operation_url remaining
        end
  end.

Definition status_accepted (s : N) : bool := (s =? 200) || (s =? 201).

(** The body of [ingest_to_rag]; its [except Exception: ... raise] re-raises
    what it caught. *)
Definition base_url : pystr :=
  str "https://" ++ REGION E ++ str "-aiplatform.googleapis.com/v1beta1".

Definition ingest_attempt (text : pystr) (meta : metadata) : M unit :=
  let gcs_uri := str "gs://" ++ BUCKET_NAME E ++ str "/" ++ m_feed meta
                 ++ str "/clean/" ++ m_item_id meta ++ str ".txt" in
  faulty (token_fault E) GetAccessToken ;;;
  let* response := remote (fun t => requests_post E t gcs_uri) (ImportPost gcs_uri) in
  if (post_status response =? 400) && concurrent_body response then
    raise (RagException ConcurrentOperation)
  else if negb (status_accepted (post_status response)) then
    raise (RagException (ImportRejected (post_status response)))
  else
    match operation_name response with
    | None => raise ValueError
    | Some name =>
        if negb (truthy name) then raise (RagException NoOperationName)
        else
          let* _ := poll_loop (base_url ++ str "/" ++ name) max_poll_attempts in
          ret tt
    end.

Definition ingest_to_rag (text : pystr) (meta : metadata) : M unit :=
  retry_ is_exception 5 1 (ingest_attempt text meta).

(** ** vector_search_ingest.py *)

Definition embed_text (text : pystr) : M (list pyfloat) :=
  retry_ is_exception 3 1
    (let* embeddings := remote (fun t => get_embeddings E t text) (GetEmbeddings text) in
     match embeddings with
     | [] => raise ValueError
     | values :: _ => ret values
     end).

Definition upsert_vector (vector : list pyfloat) (doc_id : pystr) (meta : metadata) : M unit :=
  retry_ is_exception 3 1
    (let datapoint := [(str "datapoint_id", DStr doc_id);
                       (str "feature_vector", DVector vector)] in
     faulty (fun t => upsert_datapoints E t [datapoint]) (UpsertDatapoints [datapoint])).

(** ** main.py *)

(** The regex class [\w] on [str] patterns. *)
Definition is_word (c : N) : bool := unicode_isalnum E c || (c =? 95).

(** One replacement step of [re.sub(r'[^\w\-_\.]', '_', raw_id)]. *)
Definition sanitize_char (c : N) : N :=
  if is_word c || (c =? 45) || (c =? 95) || (c =? 46) then c else 95.

Definition sanitize (raw_id : pystr) : pystr := take 200 (map sanitize_char raw_id).

Definition fallback_id (now : datetime) : pystr :=
  str "item_" ++ str_of_int (epoch_seconds now).

(** The item id as a function of the raw identity and of the value of the
    clock ([make_item_id] below reads the clock on the fallback branches). *)
Definition item_id_at (raw_id : pystr) (now : datetime) : pystr :=
  if truthy raw_id then
    let item_id := sanitize raw_id in
    if negb (truthy item_id) || pystr_eqb item_id (str "_")
    then fallback_id now
    else item_id
  else fallback_id now.

Definition now : M datetime :=
  let* t := next_tick in ret (utcnow E t).

(** Lines 111-118 of [process_feed]: the clock is read only on the fallback
    branches. *)
Definition make_item_id (it : item) : M pystr :=
  let raw_id := identity_of it in
  if truthy raw_id then
    let item_id := sanitize raw_id in
    if negb (truthy item_id) || pystr_eqb item_id (str "_") then
      let* t := now in ret (fallback_id t)
    else ret item_id
  else
    let* t := now in ret (fallback_id t).

(** How the body of the per-item [try] block ends when it does not raise. *)
Inductive body_exit :=
| Completed                 (* fell through to "Mark as processed" *)
| SkippedMissingLink        (* [continue] at the missing-link check *)
| SkippedTooShort.          (* [continue] at the text-length check *)

(** The per-item [try] block from "Fetch full HTML" up to "Vector upsert
    complete". *)
Definition article_steps (feed_name : pystr) (folder : pystr) (it : item)
    (item_id : pystr) : M body_exit :=
  let article_url := link it in
  if negb (truthy article_url) then
    log_structured WARNING (ItemMissingLink item_id) ;;;
    ret SkippedMissingLink
  else
    log_structured INFO (FetchingArticleHtml item_id) ;;;
    let* html_content := fetch_html article_url in
    let html_path := folder ++ str "/raw_html/" ++ item_id ++ str ".html" in
    upload_file html_path html_content ;;;
    log_structured INFO (SavedRawHtml item_id html_path) ;;;
    let* t := now in
    let meta := {| m_title := title it;
                   m_link := article_url;
                   m_pubDate := pubDate it;
                   m_feed := feed_name;
                   m_item_id := item_id;
                   m_processed_at := isoformat t ++ str "Z" |} in
    let* clean_text := clean_html html_content meta in
    if negb (truthy clean_text)
       || (length (strip clean_text) <? MIN_TEXT_LENGTH E)%nat then
      log_structured WARNING (CleanedTextTooShort item_id (length clean_text)) ;;;
      ret SkippedTooShort
    else
      let text_path := folder ++ str "/clean/" ++ item_id ++ str ".txt" in
      upload_file text_path clean_text ;;;
      log_structured INFO (SavedCleanedText item_id text_path) ;;;
      log_structured INFO (IngestingToRag item_id) ;;;
      ingest_to_rag clean_text meta ;;;
      log_structured INFO (RagIngestionComplete item_id) ;;;
      sleep 2 ;;;
      log_structured INFO (EmbeddingText item_id) ;;;
      let* embedding := embed_text clean_text in
      log_structured INFO (UpsertingVector item_id (length embedding)) ;;;
      upsert_vector embedding item_id meta ;;;
      log_structured INFO (VectorUpsertComplete item_id) ;;;
      ret Completed.

Definition raw_xml_path (folder item_id : pystr) : pystr :=
  folder ++ str "/raw_xml/" ++ item_id ++ str ".xml".

(** The per-item [try] block: "Save raw XML", then the steps above. *)
Definition item_body (feed_name : pystr) (folder : pystr) (it : item) (item_id : pystr)
    : M body_exit :=
  log_structured INFO (ProcessingItem item_id) ;;;
  let xml_path := raw_xml_path folder item_id in
  upload_file xml_path (get_item_xml it) ;;;
  log_structured INFO (SavedRawXml item_id xml_path) ;;;
  article_steps feed_name folder it item_id.

(** The locals the item loop updates. *)
Record loop_state := {
  new_processed_ids : list pystr;
  processed_count : nat;
  error_count : nat
}.

Definition loop_init : loop_state :=
  {| new_processed_ids := []; processed_count := 0; error_count := 0 |}.

(** One iteration of [for item in new_items].  The list and the counters
    change only in the last statements of the [try] block, which cannot
    raise, so the handler sees them as they were at the loop head. *)
Definition loop_step (feed_name folder : pystr) (ls : loop_state) (it : item)
    : M loop_state :=
  let* item_id := make_item_id it in
  let* r := try_ (item_body feed_name folder it item_id) in
  match r with
  | Ok Completed =>
      let ls' := {| new_processed_ids := new_processed_ids ls ++ [item_id];
                    processed_count := S (processed_count ls);
                    error_count := error_count ls |} in
      log_structured INFO (ItemProcessingComplete item_id) ;;;
      ret ls'
  | Ok _ => ret ls
  | Raise e =>
      log_structured ERROR (ErrorProcessingItem item_id e) ;;;
      ret {| new_processed_ids := new_processed_ids ls;
             processed_count := processed_count ls;
             error_count := S (error_count ls) |}
  end.

Fixpoint for_items (feed_name folder : pystr) (new_items : list item) (ls : loop_state)
    : M loop_state :=
  match new_items with
  | [] => ret ls
  | it :: rest =>
      let* ls' := loop_step feed_name folder ls it in
      for_items feed_name folder rest ls'
  end.

Definition empty_doc : ids_doc := {| doc_ids := Some []; doc_rest := [] |}.

(** [gcs.read_json(path) or {"ids": []}] *)
Definition loaded_or_empty (loaded : option ids_doc) : ids_doc :=
  match loaded with
  | Some d => if doc_truthy d then d else empty_doc
  | None => empty_doc
  end.

(** [processed_ids.get("ids", [])] *)
Definition ids_of (d : ids_doc) : list pystr :=
  match doc_ids d with Some ids => ids | None => [] end.

Definition processed_ids_path (folder : pystr) : pystr :=
  folder ++ str "/processed_ids.json".

(** "Update processed_ids.json": [processed_ids["ids"]] raises [KeyError]
    when the loaded object has no such key. *)
Definition update_processed_ids (folder : pystr) (processed_ids : ids_doc)
    (new_ids : list pystr) : M unit :=
  if bool_decide (new_ids = []) then ret tt
  else
    match doc_ids processed_ids with
    | None => raise KeyError
    | Some ids =>
        let processed_ids' := {| doc_ids := Some (ids ++ new_ids);
                                 doc_rest := doc_rest processed_ids |} in
        write_json (processed_ids_path folder) processed_ids' ;;;
        log_structured INFO
          (UpdatedProcessedIds (length new_ids) (length (ids ++ new_ids)))
    end.

(** [process_feed], in the blocks its comments delimit.  "Fetch and parse
    RSS", "Load processed IDs" and "Detect new items": *)
Definition detect_new_items (feed_name : pystr) (feed_config : feed_config)
    : M (ids_doc * list item) :=
  log_structured INFO FetchingRssFeed ;;;
  let* rss_xml := fetch_rss (url feed_config) in
  let* items := parse_rss rss_xml in
  log_structured INFO (ParsedItems (length items)) ;;;
  let* loaded := read_json (processed_ids_path (folder feed_config)) in
  let processed_ids := loaded_or_empty loaded in
  let existing_ids : gset pystr := list_to_set (ids_of processed_ids) in
  log_structured INFO (LoadedProcessedIds (size existing_ids)) ;;;
  let new_items := get_new_items items existing_ids in
  log_structured INFO (FoundNewItems (length new_items)) ;;;
  ret (processed_ids, new_items).

(** "Process each new item" and "Update processed_ids.json": *)
Definition process_new_items (feed_name folder : pystr) (processed_ids : ids_doc)
    (new_items : list item) : M unit :=
  let* ls := for_items feed_name folder new_items loop_init in
  update_processed_ids folder processed_ids (new_processed_ids ls) ;;;
  log_structured INFO (FeedProcessingComplete (processed_count ls) (error_count ls)).

(** The body of the outer [try]. *)
Definition feed_pass (feed_name : pystr) (feed_config : feed_config) : M unit :=
  let* detected := detect_new_items feed_name feed_config in
  let '(processed_ids, new_items) := detected in
  match new_items with
  | [] => log_structured INFO NoNewItems          (* return *)
  | _ => process_new_items feed_name (folder feed_config) processed_ids new_items
  end.

Definition process_feed (feed_name : pystr) (feed_config : feed_config) : M unit :=
  log_structured INFO (ProcessingFeed feed_name) ;;;
  let* r := try_ (feed_pass feed_name feed_config) in
  match r with
  | Ok _ => ret tt
  | Raise e =>
      log_structured ERROR (ErrorProcessingFeed feed_name e) ;;;
      raise e
  end.

Fixpoint for_feeds (feeds : list (pystr * feed_config)) : M unit :=
  match feeds with
  | [] => ret tt
  | (feed_name, feed_config) :: rest =>
      process_feed feed_name feed_config ;;;
      for_feeds rest
  end.

(** [main] returns the status passed to [sys.exit]; [sys.exit(0)] raises
    [SystemExit], which [except Exception] does not catch. *)
Definition main : M N :=
  log_structured INFO StartingJob ;;;
  let* r := try_
    (faulty (initialize E) Initialize ;;;
     for_feeds (RSS_FEEDS E) ;;;
     log_structured INFO JobCompleted) in
  match r with
  | Ok _ => ret 0
  | Raise e =>
      log_structured ERROR (JobFailed e) ;;;
      ret 1
  end.

End Pipeline.

(** ** Observations on runs *)

(** The world after the given events (newest first) have been recorded. *)
Definition logged (evs : list event) (w : world) : world :=
  {| tick := tick w; bucket := bucket w; trace := evs ++ trace w |}.

Definition is_status_check (e : event) : bool :=
  match e with Called (OperationGet _) _ => true | _ => false end.

Definition is_import_post (e : event) : bool :=
  match e with Called (ImportPost _) _ => true | _ => false end.

(** A write of a JSON object to the bucket that went through. *)
Definition is_json_write (e : event) : bool :=
  match e with Called (BlobUpload _ (Json _)) true => true | _ => false end.

Definition is_feed_start (feed_name : pystr) (e : event) : bool :=
  match e with
  | Log _ (ProcessingFeed n) => bool_decide (n = feed_name)
  | _ => false
  end.

Definition is_feed_error (e : event) : bool :=
  match e with Log ERROR (ErrorProcessingFeed _ _) => true | _ => false end.

Definition is_item_complete (e : event) : bool :=
  match e with Log _ (ItemProcessingComplete _) => true | _ => false end.

(** A write of a JSON object to the bucket that raised. *)
Definition is_failed_json_write (e : event) : bool :=
  match e with Called (BlobUpload _ (Json _)) false => true | _ => false end.

Definition is_missing_link (e : event) : bool :=
  match e with Log WARNING (ItemMissingLink _) => true | _ => false end.

Definition is_found_new (n : nat) (e : event) : bool :=
  match e with Log _ (FoundNewItems k) => (k =? n)%nat | _ => false end.

Definition count (p : event -> bool) (tr : list event) : nat :=
  length (List.filter p tr).

(** A status response: the operation is still running. *)
Definition in_progress (r : result poll_response) : bool :=
  match r with
  | Ok p => (poll_status p =? 200) &&
            match poll_json p with Some o => negb (done o) | None => false end
  | Raise _ => false
  end.

(** A status response: terminal success, with its counts. *)
Definition terminal_success (r : result poll_response) : option (N * N) :=
  match r with
  | Ok p =>
      if poll_status p =? 200 then
        match poll_json p with
        | Some o =>
            if done o then
              match op_error o with
              | None => Some (imported_rag_files_count o, skipped_rag_files_count o)
              | Some _ => None
              end
            else None
        | None => None
        end
      else None
  | Raise _ => None
  end.

(** A status response: terminal error. *)
Definition terminal_error (r : result poll_response) : bool :=
  match r with
  | Ok p => (poll_status p =? 200) &&
            match poll_json p with
            | Some o => done o && bool_decide (is_Some (op_error o))
            | None => false
            end
  | Raise _ => false
  end.

(** An identity is degenerate when it is empty or sanitizes to the empty
    string or to a lone underscore: the cases in which [make_item_id] reads
    the clock. *)
Definition degenerate (E : env) (raw_id : pystr) : bool :=
  if truthy raw_id then
    negb (truthy (sanitize E raw_id)) || pystr_eqb (sanitize E raw_id) (str "_")
  else true.

(** The characters the sanitizing regex keeps: word characters, hyphen,
    underscore and full stop. *)
Definition path_safe (E : env) (c : N) : bool :=
  is_word E c || (c =? 45) || (c =? 95) || (c =? 46).

(** One iteration of the item loop, as it ran: the item, its id, the world
    at the start of the [try] block, how the block ended and the world
    then. *)
Record item_run := {
  run_item : item;
  run_id : pystr;
  run_start : world;
  run_exit : result body_exit;
  run_end : world
}.

Fixpoint item_runs (E : env) (feed_name folder : pystr) (new_items : list item)
    (w : world) : list item_run :=
  match new_items with
  | [] => []
  | it :: rest =>
      match make_item_id E it w with
      | (Ok item_id, w1) =>
          let '(r, w2) := item_body E feed_name folder it item_id w1 in
          {| run_item := it; run_id := item_id; run_start := w1;
             run_exit := r; run_end := w2 |}
          :: item_runs E feed_name folder rest
               (snd (loop_step E feed_name folder loop_init it w))
      | (Raise _, _) => []
      end
  end.

Definition completed (r : item_run) : bool :=
  match run_exit r with Ok Completed => true | _ => false end.

Definition raised (r : item_run) : bool :=
  match run_exit r with Raise _ => true | _ => false end.

Definition abandoned (r : item_run) : bool :=
  match run_exit r with
  | Ok SkippedMissingLink | Ok SkippedTooShort => true
  | _ => false
  end.

(** The locals after an iteration whose [try] block ended as [r]. *)
Definition after_exit (ls : loop_state) (item_id : pystr) (r : result body_exit)
    : loop_state :=
  match r with
  | Ok Completed =>
      {| new_processed_ids := new_processed_ids ls ++ [item_id];
         processed_count := S (processed_count ls);
         error_count := error_count ls |}
  | Ok _ => ls
  | Raise _ =>
      {| new_processed_ids := new_processed_ids ls;
         processed_count := processed_count ls;
         error_count := S (error_count ls) |}
  end.

(** What an iteration logs after its [try] block. *)
Definition exit_log (item_id : pystr) (r : result body_exit) : list event :=
  match r with
  | Ok Completed => [Log INFO (ItemProcessingComplete item_id)]
  | Ok _ => []
  | Raise e => [Log ERROR (ErrorProcessingItem item_id e)]
  end.

(** The run went through the three downstream steps: the corpus import,
    the embedding and the vector upsert each returned, one after the other,
    and the block ended right after the upsert. *)
Definition downstream_succeeded (E : env) (r : item_run) : Prop :=
  exists clean_text meta wa wa' embedding wb' wc',
    m_item_id meta = run_id r
    /\ ingest_to_rag E clean_text meta wa = (Ok tt, wa')
    /\ embed_text E clean_text
         (logged [Log INFO (EmbeddingText (run_id r));
                  Called (Sleep 2) true;
                  Log INFO (RagIngestionComplete (run_id r))] wa')
       = (Ok embedding, wb')
    /\ upsert_vector E embedding (run_id r) meta
         (logged [Log INFO (UpsertingVector (run_id r) (length embedding))] wb')
       = (Ok tt, wc')
    /\ run_end r = logged [Log INFO (VectorUpsertComplete (run_id r))] wc'.

(** The ids the pass marks processed, in order. *)
Definition marked_ids (runs : list item_run) : list pystr :=
  map run_id (List.filter completed runs).

(** [emits P m]: whatever the world, running [m] only pushes events that
    satisfy [P] onto the trace. *)
Definition emits {A} (P : event -> Prop) (m : M A) : Prop :=
  forall w, exists tr, trace (snd (m w)) = tr ++ trace w /\ Forall P tr.

(** What an upsert event must carry for the event to deliver exactly
    [dps]. *)
Definition delivers (dps : list datapoint) (e : event) : Prop :=
  match e with
  | Called (UpsertDatapoints d) _ => d = dps
  | _ => True
  end.

(** What the failed attempts of a store leave in the trace. *)
Definition store_noise (blob_path : pystr) (b : blob) (e : event) : Prop :=
  e = Called (BlobUpload blob_path b) false \/ exists k, e = Called (Backoff k) true.

(** ** Scenarios *)

Definition operation_done : result poll_response :=
  Ok {| poll_status := 200; poll_text := [];
        poll_json := Some {| done := true; op_error := None;
                             imported_rag_files_count := 1;
                             skipped_rag_files_count := 0 |} |}.

Definition operation_running : result poll_response :=
  Ok {| poll_status := 200; poll_text := [];
        poll_json := Some {| done := false; op_error := None;
                             imported_rag_files_count := 0;
                             skipped_rag_files_count := 0 |} |}.

Definition operation_failed : result poll_response :=
  Ok {| poll_status := 200; poll_text := [];
        poll_json := Some {| done := true;
                             op_error := Some (str "quota exceeded", str "8");
                             imported_rag_files_count := 0;
                             skipped_rag_files_count := 0 |} |}.

(** A deployment in which every service answers unless told otherwise:
    the feeds, the parsed entries, the article transport, the storage
    faults and the operation status source are the parameters. *)
Definition deployment (feeds : list (pystr * feed_config)) (entries : list entry)
    (get : nat -> pystr -> result http_response)
    (fault : nat -> option exn)
    (status : nat -> pystr -> result poll_response) : env :=
  {| unicode_isalnum := ascii_isalnum;
     BUCKET_NAME := str "nvidia-blog";
     REGION := str "europe-west3";
     MIN_TEXT_LENGTH := 10;
     RSS_FEEDS := feeds;
     utcnow := fun t => {| epoch_seconds := 1700000000 + N.of_nat t;
                           isoformat := str "2023-11-14T22:13:20" |};
     initialize := fun _ => None;
     session_get := get;
     feedparser_parse := fun _ => Ok entries;
     extract_text := fun _ => Ok (str "A long enough article body.");
     remove_footer_header_patterns := fun text => text;
     storage_fault := fault;
     token_fault := fun _ => None;
     requests_post := fun _ _ =>
       Ok {| post_status := 200; post_text := []; concurrent_body := false;
             operation_name := Some (str "operations/1") |};
     requests_get := status;
     get_embeddings := fun _ _ => Ok [[1; 2; 3]];
     upsert_datapoints := fun _ _ => None |}.

Definition page (_ : nat) (_ : pystr) : result http_response :=
  Ok {| status_code := 200;
        content := str "<html><body>article</body></html>";
        text := str "<html><body>article</body></html>" |}.

Definition unreachable (_ : nat) (_ : pystr) : result http_response :=
  Raise RequestException.

Definition no_fault (_ : nat) : option exn := None.

Definition dev_feed : pystr * feed_config :=
  (str "dev", {| folder := str "dev"; url := str "https://developer.nvidia.com/blog/feed" |}).

Definition official_feed : pystr * feed_config :=
  (str "official", {| folder := str "official"; url := str "https://blogs.nvidia.com/feed" |}).

(** An entry whose guid is a URL, as WordPress feeds publish them. *)
Definition post_entry : entry :=
  {| e_title := Some (str "CUDA news");
     e_link := Some (str "https://blogs.nvidia.com/cuda-news");
     e_id := Some (str "https://blogs.nvidia.com/?p=1");
     e_published := Some (str "Tue, 14 Nov 2023 22:13:20 +0000");
     e_updated := None;
     e_description := Some (str "News") |}.

(** Two entries with the same path-safe guid; the first has no link. *)
Definition linkless_entry : entry :=
  {| e_title := Some (str "Teaser"); e_link := None; e_id := Some (str "post-7");
     e_published := None; e_updated := None; e_description := None |}.

Definition linked_entry : entry :=
  {| e_title := Some (str "Post 7"); e_link := Some (str "https://blogs.nvidia.com/post-7");
     e_id := Some (str "post-7");
     e_published := None; e_updated := None; e_description := None |}.

(** The items [parse_rss] makes of the entries of [teaser_and_post]. *)
Definition teaser_and_post_items : list item :=
  map item_of_entry [linkless_entry; post_entry].

Definition start : world := {| tick := 0; bucket := ∅; trace := [] |}.

(** The same bucket and trace one tick later. *)
Definition later : world := {| tick := 1; bucket := ∅; trace := [] |}.

(** An item whose only identity is the site-relative link "/". *)
Definition root_link_item : item :=
  {| title := str "Home"; link := str "/"; guid := str "/";
     pubDate := []; description := [] |}.

(** Everything works; one feed with one entry. *)
Definition healthy : env :=
  deployment [dev_feed] [post_entry] page no_fault (fun _ _ => operation_done).

(** The transport is down; two feeds are configured. *)
Definition offline : env :=
  deployment [dev_feed; official_feed] [post_entry] unreachable no_fault
    (fun _ _ => operation_done).

(** Every import operation ends in a terminal error at its first poll. *)
Definition rejecting : env :=
  deployment [dev_feed] [post_entry] page no_fault (fun _ _ => operation_failed).

(** The storage client fails from tick 13 on: in the run of [healthy] that
    is the write of processed_ids.json, the last remote call. *)
Definition save_fails : env :=
  deployment [dev_feed] [post_entry] page
    (fun t => if (13 <=? t)%nat then Some (OtherException 503) else None)
    (fun _ _ => operation_done).

(** One entry without a link, then a healthy one with another guid. *)
Definition teaser_and_post : env :=
  deployment [dev_feed] [linkless_entry; post_entry] page no_fault
    (fun _ _ => operation_done).

(** One entry without a link, then a healthy one with the same guid. *)
Definition duplicate_guid : env :=
  deployment [dev_feed] [linkless_entry; linked_entry] page no_fault
    (fun _ _ => operation_done).

(** The operation is reported running twice, then done. *)
Definition done_at_third_poll : env :=
  deployment [dev_feed] [post_entry] page no_fault
    (fun t _ => if (t <? 2)%nat then operation_running else operation_done).

(** The operation never leaves the running state. *)
Definition never_done : env :=
  deployment [dev_feed] [post_entry] page no_fault (fun _ _ => operation_running).

Definition sample_metadata : metadata :=
  {| m_title := str "CUDA news";
     m_link := str "https://blogs.nvidia.com/cuda-news";
     m_pubDate := str "Tue, 14 Nov 2023 22:13:20 +0000";
     m_feed := str "dev";
     m_item_id := str "post-7";
     m_processed_at := str "2023-11-14T22:13:20Z" |}.

Definition blank_metadata : metadata :=
  {| m_title := []; m_link := []; m_pubDate := []; m_feed := [];
     m_item_id := []; m_processed_at := [] |}.


(** ** Further observations *)

(** A string without leading or trailing whitespace. *)
Definition stripped (s : pystr) : Prop :=
  match s with
  | [] => True
  | c :: _ => py_isspace c = false /\ forall d, last s = Some d -> py_isspace d = false
  end.

(** Two characters the sanitizer does not tell apart: equal, or both
    replaced. *)
Definition same_after_sanitize (E : env) (c c' : N) : Prop :=
  c = c' \/ (path_safe E c = false /\ path_safe E c' = false).

(** Everything works; one feed with one entry whose guid is path-safe. *)
Definition safe_guid : env :=
  deployment [dev_feed] [linked_entry] page no_fault (fun _ _ => operation_done).

Definition is_http_get (e : event) : bool :=
  match e with Called (HttpGet _) _ => true | _ => false end.

Definition is_upload (e : event) : bool :=
  match e with Called (BlobUpload _ _) _ => true | _ => false end.

Definition is_store_read (e : event) : bool :=
  match e with Called (BlobExists _) _ | Called (BlobDownload _) _ => true | _ => false end.

Definition is_embedding_call (e : event) : bool :=
  match e with Called (GetEmbeddings _) _ => true | _ => false end.

Definition is_upsert_call (e : event) : bool :=
  match e with Called (UpsertDatapoints _) _ => true | _ => false end.

(** An event that is neither a log line, nor a pause, nor a backoff: a call
    to a remote service. *)
Definition is_remote_call (e : event) : bool :=
  match e with
  | Log _ _ | Called (Sleep _) _ | Called (Backoff _) _ => false
  | Called _ _ => true
  end.

(** [at_most p n m]: whatever the world, running [m] records at most [n] new
    events that [p] recognises. *)
Definition at_most {A} (p : event -> bool) (n : nat) (m : M A) : Prop :=
  forall w, (count p (trace (snd (m w))) <= count p (trace w) + n)%nat.

(** What a call can add to the count of [p], whether it returns or raises. *)
Definition weight (p : event -> bool) (c : call) : nat :=
  if p (Called c true) || p (Called c false) then 1 else 0.

(** The calls one item can make: three uploads, the article fetch, the
    import and its status checks, the embedding and the upsert, each under
    its retry policy. *)
Definition item_budget (get upload token post status embed upsert : nat) : nat :=
  3 * upload
  + (3 * get
     + (3 * upload
        + (3 * upload
           + (5 * (token + post + max_poll_attempts * status)
              + (3 * embed + 3 * upsert))))).

(** [steps R m]: whatever the world, the world after [m] is related to it
    by [R]. *)
Definition steps {A} (R : world -> world -> Prop) (m : M A) : Prop :=
  forall w, R w (snd (m w)).

(** The artifact paths of an item, as [process_feed] builds them. *)
Definition raw_html_path (folder item_id : pystr) : pystr :=
  folder ++ str "/raw_html/" ++ item_id ++ str ".html".

Definition clean_text_path (folder item_id : pystr) : pystr :=
  folder ++ str "/clean/" ++ item_id ++ str ".txt".

(** The paths a pass over a feed can write. *)
Definition feed_paths (folder : pystr) (path : pystr) : Prop :=
  path = processed_ids_path folder
  \/ exists item_id,
       path = raw_xml_path folder item_id
       \/ path = raw_html_path folder item_id
       \/ path = clean_text_path folder item_id.

(** A path below the folder of a feed. *)
Definition under (folder : pystr) (path : pystr) : Prop :=
  exists rest, path = folder ++ str "/" ++ rest.

(** The bucket is the same in both worlds. *)
Definition same_bucket (w w' : world) : Prop := bucket w' = bucket w.

(** The bucket holds the same at [path] in both worlds. *)
Definition same_at (path : pystr) (w w' : world) : Prop :=
  bucket w' !! path = bucket w !! path.

(** A status response that ends the poll loop with an exception other than
    the operation's own failure: the request raised, the status code is not
    200, or the body is not JSON. *)
Definition failed_check (r : result poll_response) : option exn :=
  match r with
  | Raise e => Some e
  | Ok p =>
      if negb (poll_status p =? 200) then
        Some (RagException (PollFailed (poll_status p)))
      else
        match poll_json p with
        | None => Some ValueError
        | Some _ => None
        end
  end.

(** The GCS URI [ingest_to_rag] submits for an item. *)
Definition gcs_uri_of (E : env) (meta : metadata) : pystr :=
  str "gs://" ++ BUCKET_NAME E ++ str "/" ++ m_feed meta
  ++ str "/clean/" ++ m_item_id meta ++ str ".txt".

(** Any two worlds. *)
Definition any_world (w w' : world) : Prop := True.

(** The status endpoint answers once, then is unavailable. *)
Definition status_unavailable : env :=
  deployment [dev_feed] [post_entry] page no_fault
    (fun t _ => if (t <? 1)%nat then operation_running
                else Ok {| poll_status := 503; poll_text := []; poll_json := None |}).

(** The submission endpoint of [E] replaced. *)
Definition with_submission (E : env)
    (post : nat -> pystr -> result post_response) : env :=
  {| unicode_isalnum := unicode_isalnum E;
     BUCKET_NAME := BUCKET_NAME E;
     REGION := REGION E;
     MIN_TEXT_LENGTH := MIN_TEXT_LENGTH E;
     RSS_FEEDS := RSS_FEEDS E;
     utcnow := utcnow E;
     initialize := initialize E;
     session_get := session_get E;
     feedparser_parse := feedparser_parse E;
     extract_text := extract_text E;
     remove_footer_header_patterns := remove_footer_header_patterns E;
     storage_fault := storage_fault E;
     token_fault := token_fault E;
     requests_post := post;
     requests_get := requests_get E;
     get_embeddings := get_embeddings E;
     upsert_datapoints := upsert_datapoints E |}.

(** Another import is running on the corpus: every submission is answered
    with a 400 that says so. *)
Definition busy_corpus : env :=
  with_submission healthy
    (fun _ _ => Ok {| post_status := 400; post_text := []; concurrent_body := true;
                      operation_name := None |}).

(** The messages logged by [process_feed] itself and by [main], as opposed to
    those of the steps inside a feed's pass. *)
Definition feed_level (m : log_msg) : bool :=
  match m with
  | ProcessingFeed _ | ErrorProcessingFeed _ _
  | StartingJob | JobCompleted | JobFailed _ => true
  | _ => false
  end.

(** The embedding model of [E] replaced. *)
Definition with_embeddings (E : env)
    (model : nat -> pystr -> result (list (list pyfloat))) : env :=
  {| unicode_isalnum := unicode_isalnum E;
     BUCKET_NAME := BUCKET_NAME E;
     REGION := REGION E;
     MIN_TEXT_LENGTH := MIN_TEXT_LENGTH E;
     RSS_FEEDS := RSS_FEEDS E;
     utcnow := utcnow E;
     initialize := initialize E;
     session_get := session_get E;
     feedparser_parse := feedparser_parse E;
     extract_text := extract_text E;
     remove_footer_header_patterns := remove_footer_header_patterns E;
     storage_fault := storage_fault E;
     token_fault := token_fault E;
     requests_post := requests_post E;
     requests_get := requests_get E;
     get_embeddings := model;
     upsert_datapoints := upsert_datapoints E |}.

(** The embedding model answers every request with an empty list. *)
Definition silent_model : env := with_embeddings healthy (fun _ _ => Ok []).

(** A stored object that has members but no ["ids"] key. *)
Definition keyless_doc : ids_doc :=
  {| doc_ids := None; doc_rest := [(str "version", str "1")] |}.

(** The calls that carry a destination chosen by the pipeline: a bucket path
    or the URI of an import. *)
Definition routed (c : call) : bool :=
  match c with
  | BlobUpload _ _ | ImportPost _ => true
  | _ => false
  end.

(** Where the block of one item may send data: uploads to the item's three
    artifact paths in the feed's folder, imports of the URI built from the
    feed's name. *)
Definition item_traffic (E : env) (feed_name folder item_id : pystr) (e : event) : Prop :=
  match e with
  | Called (BlobUpload path _) _ =>
      path = raw_xml_path folder item_id
      \/ path = raw_html_path folder item_id
      \/ path = clean_text_path folder item_id
  | Called (ImportPost uri) _ =>
      uri = str "gs://" ++ BUCKET_NAME E ++ str "/" ++ clean_text_path feed_name item_id
  | _ => True
  end.

(** ** gcs_utils.py: the content type of an upload *)

(** [s.endswith(ending)] *)
Definition endswith (s ending : pystr) : bool := bool_decide (ending `suffix_of` s).

(** The auto-detection in [upload_file], which the pipeline always relies
    on: it never passes [content_type]. *)
Definition detect_content_type (blob_path : pystr) : pystr :=
  if endswith blob_path (str ".xml") then str "application/xml"
  else if endswith blob_path (str ".html") then str "text/html"
  else if endswith blob_path (str ".txt") then str "text/plain"
  else if endswith blob_path (str ".json") then str "application/json"
  else str "application/octet-stream".

(** ** rag_ingest.py: the constructor *)

(** [s.split(sep)] for a one-character separator. *)
Fixpoint split (sep : N) (s : pystr) : list pystr :=
  match s with
  | [] => [[]]
  | c :: s' =>
      if c =? sep then [] :: split sep s'
      else match split sep s' with
           | part :: parts => (c :: part) :: parts
           | [] => [[c]]
           end
  end.

(** What [RAGIngester.__init__] reads from the corpus name: [parts[1]] and
    [parts[5]] of the name split at '/'; [None] stands for the [IndexError]
    of a name with fewer parts. *)
Definition corpus_name_ids (rag_corpus_name : pystr) : option (pystr * pystr) :=
  let parts := split 47 rag_corpus_name in
  match parts !! 1%nat with
  | None => None
  | Some project_id =>
      match parts !! 5%nat with
      | None => None
      | Some corpus_id => Some (project_id, corpus_id)
      end
  end.

(** ** html_cleaner.py: observations *)

(** The length of the longest run of [c] in [text], read after [run] copies
    of [c]. *)
Fixpoint longest_run_from (c : N) (run : nat) (text : pystr) : nat :=
  match text with
  | [] => run
  | x :: text' =>
      if x =? c then longest_run_from c (S run) text'
      else Nat.max run (longest_run_from c 0 text')
  end.

Definition longest_run (c : N) (text : pystr) : nat := longest_run_from c 0 text.

(** The check of [process_feed] on the cleaned text: [not clean_text or
    len(clean_text.strip()) < MIN_TEXT_LENGTH]. *)
Definition too_short (E : env) (clean_text : pystr) : bool :=
  negb (truthy clean_text) || (length (strip clean_text) <? MIN_TEXT_LENGTH E)%nat.

(** Every page answers 404. *)
Definition missing_page : env :=
  deployment [dev_feed] [post_entry]
    (fun _ _ => Ok {| status_code := 404; content := []; text := [] |})
    no_fault (fun _ _ => operation_done).

(** A call of the steps that follow the detection of new items: an upload,
    an import or its status check, an embedding or an upsert. *)
Definition is_downstream_call (e : event) : bool :=
  is_upload e || is_import_post e || is_status_check e
  || is_embedding_call e || is_upsert_call e.

(** The object of a feed whose only entry was processed under its raw guid. *)
Definition seen_doc : ids_doc :=
  {| doc_ids := Some [str "https://blogs.nvidia.com/?p=1"]; doc_rest := [] |}.

Definition seen_before : world :=
  {| tick := 0;
     bucket := {[ processed_ids_path (str "dev") := Json seen_doc ]};
     trace := [] |}.

(** ** Retries, the stored ids and later runs *)

(** The world in which a retried body starts again after [j] failed
    attempts, the first of them numbered [k] and started in [w]: every
    failed attempt is followed by a backoff. *)
Fixpoint after_failures {A} (f : M A) (j k : nat) (w : world) : world :=
  match j with
  | O => w
  | S j => after_failures f j (S k) (logged [Called (Backoff k) true] (snd (f w)))
  end.

(** The ids of the JSON object stored at [path]; none when nothing is
    stored there or the object has no "ids" member. *)
Definition stored_ids (w : world) (path : pystr) : list pystr :=
  match bucket w !! path with
  | Some (Json d) => match doc_ids d with Some ids => ids | None => [] end
  | _ => []
  end.

(** The other members of that object. *)
Definition stored_rest (w : world) (path : pystr) : list (pystr * pystr) :=
  match bucket w !! path with
  | Some (Json d) => doc_rest d
  | _ => []
  end.

(** The transport answers a GET of [url] in the same way at all times. *)
Definition unchanged_feed (E : env) (url : pystr) : Prop :=
  forall t t', session_get E t url = session_get E t' url.

(** The metadata dictionary that [process_feed] builds for an item. *)
Definition metadata_of (feed_name : pystr) (it : item) (item_id : pystr)
    (now : datetime) : metadata :=
  {| m_title := title it;
     m_link := link it;
     m_pubDate := pubDate it;
     m_feed := feed_name;
     m_item_id := item_id;
     m_processed_at := isoformat now ++ str "Z" |}.

(** A bucket in which the feed "dev" has one processed id. *)
Definition one_stored : world :=
  {| tick := 0;
     bucket := {[ processed_ids_path (str "dev")
                  := Json {| doc_ids := Some [str "a"]; doc_rest := [] |} ]};
     trace := [] |}.

(** Two items whose guids differ in a character the sanitizer replaces. *)
Definition slash_item : item :=
  {| title := []; link := []; guid := str "a/b"; pubDate := []; description := [] |}.

Definition query_item : item :=
  {| title := []; link := []; guid := str "a?b"; pubDate := []; description := [] |}.
(** * Properties *)

(** ** The monad *)

Lemma bind_ok {A B} (m : M A) (k : A -> M B) w a w1 :
  m w = (Ok a, w1) -> bind m k w = k a w1.
Proof. intros H. unfold bind. now rewrite H. Qed.

Lemma bind_raise {A B} (m : M A) (k : A -> M B) w e w1 :
  m w = (Raise e, w1) -> bind m k w = (Raise e, w1).
Proof. intros H. unfold bind. now rewrite H. Qed.

Lemma bind_ok_inv {A B} (m : M A) (k : A -> M B) w b w2 :
  bind m k w = (Ok b, w2) ->
  exists a w1, m w = (Ok a, w1) /\ k a w1 = (Ok b, w2).
Proof.
  unfold bind. destruct (m w) as [[a|e] w1]; intros H.
  - now exists a, w1.
  - discriminate.
Qed.

Lemma try_run {A} (m : M A) w : try_ m w = (Ok (fst (m w)), snd (m w)).
Proof. unfold try_. now destruct (m w). Qed.

Lemma logged_app evs evs' w : logged evs (logged evs' w) = logged (evs ++ evs') w.
Proof. unfold logged. simpl. now rewrite app_assoc. Qed.

Lemma emit_run e w : emit e w = (Ok tt, logged [e] w).
Proof. reflexivity. Qed.

(** ** What a computation can add to the trace *)

Section Emits.

Context (P : event -> Prop).

Lemma emits_ret {A} (a : A) : emits P (ret a).
Proof. intros w. now exists []. Qed.

Lemma emits_raise {A} e : emits P (@raise A e).
Proof. intros w. now exists []. Qed.

Lemma emits_emit e : P e -> emits P (emit e).
Proof. intros H w. exists [e]. split; [reflexivity | now constructor]. Qed.

Lemma emits_next_tick : emits P next_tick.
Proof. intros w. now exists []. Qed.

Lemma emits_get_blob path : emits P (get_blob path).
Proof. intros w. now exists []. Qed.

Lemma emits_put_blob path b : emits P (put_blob path b).
Proof. intros w. now exists []. Qed.

Lemma emits_bind {A B} (m : M A) (k : A -> M B) :
  emits P m -> (forall a, emits P (k a)) -> emits P (bind m k).
Proof.
  intros Hm Hk w. unfold bind.
  destruct (Hm w) as (tr1 & E1 & F1).
  destruct (m w) as [[a|e] w1]; simpl in E1.
  - destruct (Hk a w1) as (tr2 & E2 & F2).
    exists (tr2 ++ tr1). split.
    + now rewrite E2, E1, app_assoc.
    + now apply Forall_app.
  - now exists tr1.
Qed.

Lemma emits_try {A} (m : M A) : emits P m -> emits P (try_ m).
Proof.
  intros Hm w. destruct (Hm w) as (tr & E1 & F1).
  exists tr. now rewrite try_run.
Qed.

Lemma emits_retry {A} retryable n k (f : M A) :
  (forall i, P (Called (Backoff i) true)) ->
  emits P f -> emits P (retry_ retryable n k f).
Proof.
  intros HB Hf. revert k.
  induction n as [|n IH]; intros k; simpl.
  - apply emits_bind; [now apply emits_try|].
    intros [a|e]; [apply emits_ret|].
    destruct (retryable e); apply emits_raise.
  - apply emits_bind; [now apply emits_try|].
    intros [a|e]; [apply emits_ret|].
    destruct (retryable e); [|apply emits_raise].
    destruct n; [apply emits_raise|].
    apply emits_bind; [now apply emits_emit|]. intros _. apply IH.
Qed.

Lemma emits_faulty fault c :
  P (Called c true) -> P (Called c false) -> emits P (faulty fault c).
Proof.
  intros Ht Hf. unfold faulty. apply emits_bind; [apply emits_next_tick|].
  intros t. destruct (fault t).
  - apply emits_bind; [now apply emits_emit | intros; apply emits_raise].
  - now apply emits_emit.
Qed.

Lemma emits_remote {A} (oracle : nat -> result A) c :
  P (Called c true) -> P (Called c false) -> emits P (remote oracle c).
Proof.
  intros Ht Hf. unfold remote. apply emits_bind; [apply emits_next_tick|].
  intros t. destruct (oracle t).
  - apply emits_bind; [now apply emits_emit | intros; apply emits_ret].
  - apply emits_bind; [now apply emits_emit | intros; apply emits_raise].
Qed.

End Emits.

(** ** Vector upsert *)

(** C5 (as the code has it): the datapoint handed to the vector index
    consists of the vector id and the embedding vector only; the metadata
    envelope passed to [upsert_vector] has no influence on what is delivered,
    on the outcome or on the world afterwards. *)
Theorem upsert_vector_drops_metadata E vector doc_id meta w :
  upsert_vector E vector doc_id meta w
  = upsert_vector E vector doc_id blank_metadata w
  /\ exists tr,
       trace (snd (upsert_vector E vector doc_id meta w)) = tr ++ trace w
       /\ Forall (delivers [[(str "datapoint_id", DStr doc_id);
                             (str "feature_vector", DVector vector)]]) tr.
Proof.
  split; [reflexivity|].
  apply (emits_retry _ is_exception 3 1); [intros; exact I|].
  apply emits_faulty; reflexivity.
Qed.

(** The upsert of the healthy deployment, evaluated: one call, which carries
    two keys and none of the six metadata fields. *)
Example upsert_vector_sample :
  upsert_vector healthy [1; 2; 3] (str "post-7") sample_metadata start
  = (Ok tt,
     {| tick := 1; bucket := ∅;
        trace := [Called (UpsertDatapoints
                            [[(str "datapoint_id", DStr (str "post-7"));
                              (str "feature_vector", DVector [1; 2; 3])]]) true] |}).
Proof. reflexivity. Qed.

(** ** Item ids *)

Lemma fallback_id_nonempty now : fallback_id now <> [].
Proof. unfold fallback_id. simpl. discriminate. Qed.

Lemma truthy_nonempty s : truthy s = true <-> s <> [].
Proof. destruct s; simpl; split; congruence. Qed.

Lemma sanitize_char_path_safe E c : path_safe E (sanitize_char E c) = true.
Proof.
  unfold sanitize_char, path_safe.
  destruct (is_word E c || (c =? 45) || (c =? 95) || (c =? 46)) eqn:Hc.
  - exact Hc.
  - simpl. now rewrite orb_true_r.
Qed.

Lemma sanitize_path_safe E raw_id :
  Forall (fun c => path_safe E c = true) (sanitize E raw_id).
Proof.
  unfold sanitize. apply Forall_take, Forall_map, Forall_forall.
  intros c _. apply sanitize_char_path_safe.
Qed.

Lemma sanitize_length E raw_id : (length (sanitize E raw_id) <= 200)%nat.
Proof. unfold sanitize. rewrite length_take. lia. Qed.

Lemma item_id_at_regular E raw_id now :
  degenerate E raw_id = false -> item_id_at E raw_id now = sanitize E raw_id.
Proof.
  unfold degenerate, item_id_at. destruct (truthy raw_id); [|discriminate].
  now intros ->.
Qed.

Lemma item_id_at_degenerate E raw_id now :
  degenerate E raw_id = true -> item_id_at E raw_id now = fallback_id now.
Proof.
  unfold degenerate, item_id_at. destruct (truthy raw_id); [|reflexivity].
  now intros ->.
Qed.

Lemma item_id_at_nonempty E raw_id now : item_id_at E raw_id now <> [].
Proof.
  destruct (degenerate E raw_id) eqn:Hd.
  - rewrite item_id_at_degenerate by assumption. apply fallback_id_nonempty.
  - rewrite item_id_at_regular by assumption.
    unfold degenerate in Hd. destruct (truthy raw_id); [|discriminate].
    apply orb_false_elim in Hd as [Hd _].
    apply truthy_nonempty. now destruct (truthy (sanitize E raw_id)).
Qed.

(** [make_item_id] never raises; it reads the clock exactly on the degenerate
    identities. *)
Lemma make_item_id_run E it w :
  make_item_id E it w
  = (Ok (item_id_at E (identity_of it) (utcnow E (tick w))),
     if degenerate E (identity_of it)
     then {| tick := S (tick w); bucket := bucket w; trace := trace w |}
     else w).
Proof.
  unfold make_item_id, item_id_at, degenerate.
  destruct (truthy (identity_of it)); [|reflexivity].
  destruct (negb (truthy (sanitize E (identity_of it)))
            || pystr_eqb (sanitize E (identity_of it)) (str "_"));
    reflexivity.
Qed.

(** C9 (amended): the id of an item is never empty.  For an identity that is
    not degenerate it is the sanitized identity (characters outside the
    word class, hyphen, underscore and full stop replaced by an underscore,
    cut to 200 characters), whatever the clock and the world, so two
    computations from the same string agree.  For an empty or degenerate
    identity it is the fallback ["item_<seconds>"], read from the clock. *)
Theorem item_id_normalization E it w :
  exists item_id w',
    make_item_id E it w = (Ok item_id, w')
    /\ item_id <> []
    /\ (degenerate E (identity_of it) = false ->
        item_id = sanitize E (identity_of it)
        /\ Forall (fun c => path_safe E c = true) item_id
        /\ (length item_id <= 200)%nat
        /\ w' = w
        /\ forall it2 w2, identity_of it2 = identity_of it ->
             fst (make_item_id E it2 w2) = Ok item_id)
    /\ (degenerate E (identity_of it) = true ->
        item_id = fallback_id (utcnow E (tick w))).
Proof.
  rewrite make_item_id_run. eexists _, _. split; [reflexivity|].
  split; [apply item_id_at_nonempty|]. split.
  - intros Hd. rewrite Hd, (item_id_at_regular _ _ _ Hd).
    repeat split.
    + apply sanitize_path_safe.
    + apply sanitize_length.
    + intros it2 w2 Heq. rewrite make_item_id_run, Heq. simpl.
      now rewrite (item_id_at_regular _ _ _ Hd).
  - intros Hd. now apply item_id_at_degenerate.
Qed.

(** C9, the regular and the degenerate case on concrete identities: the URL
    guid of [post_entry] is sanitized without reading the clock, the
    identity "/" gets the timestamp fallback. *)
Lemma item_id_normalization_witness :
  fst (make_item_id healthy (item_of_entry post_entry) later)
  = Ok (str "https___blogs.nvidia.com__p_1")
  /\ fst (make_item_id healthy root_link_item start) = Ok (str "item_1700000000").
Proof.
  destruct (item_id_normalization healthy (item_of_entry post_entry) start)
    as (id1 & w1 & H1 & _ & Hreg & _).
  destruct (item_id_normalization healthy root_link_item start)
    as (id2 & w2 & H2 & _ & _ & Hdeg).
  split.
  - destruct (Hreg eq_refl) as (Hid & _ & _ & _ & Hsame).
    rewrite (Hsame (item_of_entry post_entry) later eq_refl), Hid.
    reflexivity.
  - rewrite H2, (Hdeg eq_refl). reflexivity.
Defined.

(** C9 (as stated) fails on a degenerate identity: two computations of the id
    of the same item, one tick apart, give different ids. *)
Lemma item_id_depends_on_clock :
  fst (make_item_id healthy root_link_item start)
  <> fst (make_item_id healthy root_link_item later).
Proof. vm_compute. discriminate. Qed.

(** ** The operation poll loop *)

Lemma count_cons p e tr :
  count p (e :: tr) = ((if p e then 1 else 0) + count p tr)%nat.
Proof. unfold count. simpl. now destruct (p e). Qed.

Lemma count_app p tr1 tr2 : count p (tr1 ++ tr2) = (count p tr1 + count p tr2)%nat.
Proof. unfold count. now rewrite List.filter_app, length_app. Qed.

(** One status check that finds the operation running: the loop records the
    check and the pause and goes round again. *)
Lemma poll_loop_running E operation_url remaining w :
  in_progress (requests_get E (tick w) operation_url) = true ->
  poll_loop E operation_url (S remaining) w
  = poll_loop E operation_url remaining
      {| tick := S (tick w); bucket := bucket w;
         trace := Called (Sleep 5) true
                  :: Called (OperationGet operation_url) true :: trace w |}.
Proof.
  intros H. simpl. unfold bind at 1. unfold remote, bind at 1, next_tick. simpl.
  unfold in_progress in H.
  destruct (requests_get E (tick w) operation_url) as [p|]; [|discriminate].
  apply andb_true_iff in H as [Hs Hj]. simpl. unfold bind at 1. simpl.
  rewrite Hs. simpl.
  destruct (poll_json p) as [o|]; [|discriminate].
  apply negb_true_iff in Hj. rewrite Hj. reflexivity.
Qed.

(** One status check that finds terminal success ends the loop. *)
Lemma poll_loop_done E operation_url remaining w counts :
  terminal_success (requests_get E (tick w) operation_url) = Some counts ->
  poll_loop E operation_url (S remaining) w
  = (Ok counts,
     {| tick := S (tick w); bucket := bucket w;
        trace := Called (OperationGet operation_url) true :: trace w |}).
Proof.
  intros H. simpl. unfold bind at 1. unfold remote, bind at 1, next_tick. simpl.
  unfold terminal_success in H.
  destruct (requests_get E (tick w) operation_url) as [p|]; [|discriminate].
  simpl. unfold bind at 1. simpl.
  destruct (poll_status p =? 200); [|discriminate]. simpl.
  destruct (poll_json p) as [o|]; [|discriminate].
  destruct (done o); [|discriminate].
  destruct (op_error o); [discriminate|].
  now injection H as <-.
Qed.

(** One status check that finds a terminal error ends the loop with the
    operation failure. *)
Lemma poll_loop_error E operation_url remaining w :
  terminal_error (requests_get E (tick w) operation_url) = true ->
  poll_loop E operation_url (S remaining) w
  = (Raise (RagException OperationFailed),
     {| tick := S (tick w); bucket := bucket w;
        trace := Called (OperationGet operation_url) true :: trace w |}).
Proof.
  intros H. simpl. unfold bind at 1. unfold remote, bind at 1, next_tick. simpl.
  unfold terminal_error in H.
  destruct (requests_get E (tick w) operation_url) as [p|]; [|discriminate].
  apply andb_true_iff in H as [Hs Hj]. simpl. unfold bind at 1. simpl.
  rewrite Hs. simpl.
  destruct (poll_json p) as [o|]; [|discriminate].
  apply andb_true_iff in Hj as [Hd He]. rewrite Hd.
  apply bool_decide_eq_true in He. destruct He as [x ->]. reflexivity.
Qed.

(** [j] checks that find the operation running, then a check [final] ends
    the loop: the loop as a whole ends as that check does, after [j + 1]
    status checks. *)
Lemma poll_loop_after_running E operation_url (final : result (N * N)) :
  forall j remaining w,
    (j < remaining)%nat ->
    (forall i, (i < j)%nat ->
       in_progress (requests_get E (tick w + i) operation_url) = true) ->
    (forall w1, tick w1 = (tick w + j)%nat ->
       poll_loop E operation_url (remaining - j) w1
       = (final, {| tick := S (tick w1); bucket := bucket w1;
                    trace := Called (OperationGet operation_url) true :: trace w1 |})) ->
    exists w',
      poll_loop E operation_url remaining w = (final, w')
      /\ count is_status_check (trace w')
         = (count is_status_check (trace w) + S j)%nat
      /\ tick w' = (tick w + S j)%nat.
Proof.
  induction j as [|j IH]; intros remaining w Hlt Hrun Hfinal.
  - rewrite Nat.sub_0_r in Hfinal. rewrite (Hfinal w) by lia.
    eexists. split; [reflexivity|]. cbn [trace tick].
    rewrite count_cons. cbn [is_status_check]. lia.
  - destruct remaining as [|remaining]; [lia|].
    rewrite poll_loop_running
      by (specialize (Hrun 0%nat); rewrite Nat.add_0_r in Hrun; apply Hrun; lia).
    edestruct (IH remaining) as (w' & Hw' & Hc & Ht); cycle 3.
    + exists w'. split; [exact Hw'|]. rewrite Hc, Ht. cbn [trace tick].
      rewrite !count_cons. cbn [is_status_check]. lia.
    + lia.
    + intros i Hi. simpl. replace (S (tick w + i)) with (tick w + S i)%nat by lia.
      apply Hrun. lia.
    + intros w1 Hw1. simpl in Hw1. apply Hfinal. lia.
Qed.

Lemma poll_loop_never_done E operation_url :
  forall remaining w,
    (forall i, (i < remaining)%nat ->
       in_progress (requests_get E (tick w + i) operation_url) = true) ->
    exists w',
      poll_loop E operation_url remaining w = (Raise (RagException PollTimeout), w')
      /\ count is_status_check (trace w')
         = (count is_status_check (trace w) + remaining)%nat.
Proof.
  induction remaining as [|remaining IH]; intros w Hrun.
  - exists w. split; [reflexivity | lia].
  - rewrite poll_loop_running
      by (specialize (Hrun 0%nat); rewrite Nat.add_0_r in Hrun; apply Hrun; lia).
    edestruct IH as (w' & Hw' & Hc).
    2: { exists w'. split; [exact Hw'|]. rewrite Hc. cbn [trace tick].
         rewrite !count_cons. cbn [is_status_check]. lia. }
    intros i Hi. simpl. replace (S (tick w + i)) with (tick w + S i)%nat by lia.
    apply Hrun. lia.
Qed.

(** C8: if the status source reports the operation running on the first
    [k - 1] checks and terminal success on check [k], with [k] at most
    [max_poll_attempts], the loop makes exactly [k] status checks and yields
    the counts of the result payload; if it reports the operation running on
    all of the first [max_poll_attempts] (120) checks, the loop makes exactly
    120 status checks and fails with the timeout error. *)
Theorem poll_loop_status_checks E operation_url w :
  (forall k counts,
     (1 <= k <= max_poll_attempts)%nat ->
     (forall i, (i < k - 1)%nat ->
        in_progress (requests_get E (tick w + i) operation_url) = true) ->
     terminal_success (requests_get E (tick w + (k - 1)) operation_url) = Some counts ->
     exists w',
       poll_loop E operation_url max_poll_attempts w = (Ok counts, w')
       /\ count is_status_check (trace w') = (count is_status_check (trace w) + k)%nat)
  /\ ((forall i, (i < max_poll_attempts)%nat ->
         in_progress (requests_get E (tick w + i) operation_url) = true) ->
      exists w',
        poll_loop E operation_url max_poll_attempts w
        = (Raise (RagException PollTimeout), w')
        /\ count is_status_check (trace w')
           = (count is_status_check (trace w) + max_poll_attempts)%nat).
Proof.
  split.
  - intros k counts Hk Hrun Hdone.
    destruct (poll_loop_after_running E operation_url (Ok counts)
                (k - 1) max_poll_attempts w) as (w' & Hw' & Hc & _).
    + lia.
    + exact Hrun.
    + intros w1 Hw1.
      destruct (max_poll_attempts - (k - 1))%nat as [|r] eqn:Hr; [lia|].
      apply poll_loop_done. now rewrite Hw1.
    + exists w'. split; [exact Hw'|]. rewrite Hc. lia.
  - apply poll_loop_never_done.
Qed.

(** C8 on the two status sources of the scenarios: success on the third
    poll after exactly 3 checks, timeout after exactly 120. *)
Lemma poll_loop_status_checks_witness :
  (exists w',
     poll_loop done_at_third_poll (str "operations/1") max_poll_attempts start
     = (Ok (1, 0), w')
     /\ count is_status_check (trace w') = 3%nat)
  /\ (exists w',
        poll_loop never_done (str "operations/1") max_poll_attempts start
        = (Raise (RagException PollTimeout), w')
        /\ count is_status_check (trace w') = 120%nat).
Proof.
  split.
  - destruct (poll_loop_status_checks done_at_third_poll (str "operations/1") start)
      as [H _].
    apply (H 3%nat (1, 0)).
    + unfold max_poll_attempts. lia.
    + intros i Hi. destruct i as [|[|i]]; [reflexivity | reflexivity | lia].
    + reflexivity.
  - destruct (poll_loop_status_checks never_done (str "operations/1") start)
      as [_ H].
    apply H. intros i _. reflexivity.
Defined.

(** ** The retry wrapper around the corpus import *)

(** Under [retry_if_exception_type((Exception,))] nothing but [RetryError]
    comes out of the wrapper. *)
Lemma retry_all_result {A} (f : M A) :
  forall n k w,
    match fst (retry_ is_exception n k f w) with
    | Ok _ | Raise (RetryError _) => True
    | Raise _ => False
    end.
Proof.
  induction n as [|n IH]; intros k w; simpl; unfold bind at 1; rewrite try_run.
  - now destruct (fst (f w)).
  - destruct (fst (f w)); simpl; [exact I|].
    destruct n; simpl; [exact I|].
    unfold bind at 1. rewrite emit_run. apply IH.
Qed.

(** A failed attempt that is not the last one is followed by a backoff and
    another run of the whole body. *)
Lemma retry_again {A} (f : M A) retryable n k w e w1 :
  f w = (Raise e, w1) -> retryable e = true ->
  retry_ retryable (S (S n)) k f w
  = retry_ retryable (S n) (S k) f (logged [Called (Backoff k) true] w1).
Proof.
  intros Hf Hr. simpl. unfold bind at 1. rewrite try_run, Hf. simpl.
  rewrite Hr. reflexivity.
Qed.

(** C3 (as stated) fails: with a status source that reports a terminal error
    on every first poll, the import is submitted five times, and what the
    caller gets is [RetryError], not the operation failure. *)
Lemma terminal_error_resubmitted :
  terminal_error operation_failed = true
  /\ fst (ingest_to_rag rejecting (str "text") sample_metadata start)
     = Raise (RetryError (RagException OperationFailed))
  /\ count is_import_post
       (trace (snd (ingest_to_rag rejecting (str "text") sample_metadata start)))
     = 5%nat.
Proof. vm_compute. repeat split. Qed.

(** ** The run coordinator *)

Lemma process_feed_run E feed_name feed_config w :
  process_feed E feed_name feed_config w
  = match feed_pass E feed_name feed_config
            (logged [Log INFO (ProcessingFeed feed_name)] w) with
    | (Ok _, w1) => (Ok tt, w1)
    | (Raise e, w1) =>
        (Raise e, logged [Log ERROR (ErrorProcessingFeed feed_name e)] w1)
    end.
Proof.
  unfold process_feed, log_structured. unfold bind at 1. rewrite emit_run.
  unfold bind at 1. rewrite try_run.
  destruct (feed_pass _ _ _ _) as [[[]|e] w1]; reflexivity.
Qed.

Lemma for_feeds_app E before after w w1 :
  for_feeds E before w = (Ok tt, w1) ->
  for_feeds E (before ++ after) w = for_feeds E after w1.
Proof.
  revert w. induction before as [|[n c] before IH]; intros w H; simpl in *.
  - now injection H as ->.
  - unfold bind in *. destruct (process_feed E n c w) as [[[]|e] w']; [|discriminate].
    now apply IH.
Qed.

(** A feed whose pass raises ends the iteration over the feeds. *)
Lemma for_feeds_abort E before feed_name feed_config after w w1 e w2 :
  for_feeds E before w = (Ok tt, w1) ->
  process_feed E feed_name feed_config w1 = (Raise e, w2) ->
  for_feeds E (before ++ (feed_name, feed_config) :: after) w = (Raise e, w2).
Proof.
  intros Hb Hf. rewrite (for_feeds_app _ _ _ _ _ Hb). simpl.
  now rewrite (bind_raise _ _ _ _ _ Hf).
Qed.

Lemma main_feed_failure E w w0 before feed_name feed_config after w1 e w2 :
  RSS_FEEDS E = before ++ (feed_name, feed_config) :: after ->
  faulty (initialize E) Initialize (logged [Log INFO StartingJob] w) = (Ok tt, w0) ->
  for_feeds E before w0 = (Ok tt, w1) ->
  process_feed E feed_name feed_config w1 = (Raise e, w2) ->
  main E w = (Ok 1, logged [Log ERROR (JobFailed e)] w2).
Proof.
  intros HF Hi Hb Hf. unfold main, log_structured.
  unfold bind at 1. rewrite emit_run. unfold bind at 1. rewrite try_run.
  rewrite (bind_ok _ _ _ _ _ Hi), HF.
  rewrite (bind_raise _ _ _ _ _ (for_feeds_abort _ _ _ _ after _ _ _ _ Hb Hf)).
  reflexivity.
Qed.

(** C2 (amended): a feed-level failure ends the run.  The feeds before the
    failing one have been processed; the failure is logged for the feed and
    re-raised; the iteration over the feeds stops there, so that no event of
    a later feed is recorded; the job logs the failure and exits with
    status 1. *)
Theorem feed_failure_aborts_run E w w0 before feed_name feed_config after w1 e w2 :
  RSS_FEEDS E = before ++ (feed_name, feed_config) :: after ->
  faulty (initialize E) Initialize (logged [Log INFO StartingJob] w) = (Ok tt, w0) ->
  for_feeds E before w0 = (Ok tt, w1) ->
  process_feed E feed_name feed_config w1 = (Raise e, w2) ->
  for_feeds E (RSS_FEEDS E) w0 = (Raise e, w2)
  /\ (exists tr, trace w2 = Log ERROR (ErrorProcessingFeed feed_name e) :: tr)
  /\ main E w = (Ok 1, logged [Log ERROR (JobFailed e)] w2).
Proof.
  intros HF Hi Hb Hf. split; [|split].
  - rewrite HF. now apply for_feeds_abort with (w1 := w1).
  - rewrite process_feed_run in Hf.
    destruct (feed_pass _ _ _ _) as [[[]|e'] w']; [discriminate|].
    injection Hf as -> <-. now eexists.
  - exact (main_feed_failure _ _ _ _ _ _ _ _ _ _ HF Hi Hb Hf).
Qed.

(** C2 on the deployment without transport: the first of the two feeds
    fails, and the run ends there with status 1. *)
Lemma feed_failure_aborts_run_witness :
  exists w2,
    for_feeds offline (RSS_FEEDS offline)
      (snd (faulty (initialize offline) Initialize (logged [Log INFO StartingJob] start)))
    = (Raise (RetryError RequestException), w2)
    /\ main offline start
       = (Ok 1, logged [Log ERROR (JobFailed (RetryError RequestException))] w2).
Proof.
  eexists.
  destruct (feed_failure_aborts_run offline start
              (snd (faulty (initialize offline) Initialize
                      (logged [Log INFO StartingJob] start)))
              [] (fst dev_feed) (snd dev_feed) [official_feed]
              (snd (faulty (initialize offline) Initialize
                      (logged [Log INFO StartingJob] start)))
              (RetryError RequestException)
              (snd (process_feed offline (fst dev_feed) (snd dev_feed)
                      (snd (faulty (initialize offline) Initialize
                              (logged [Log INFO StartingJob] start))))))
    as (H1 & _ & H3); [reflexivity..|].
  split; [exact H1 | exact H3].
Defined.

(** C2 (as stated) fails: with two feeds configured and the first one
    failing, the second feed is never attempted. *)
Lemma later_feed_not_attempted :
  RSS_FEEDS offline = [dev_feed; official_feed]
  /\ fst (main offline start) = Ok 1
  /\ count (is_feed_start (str "dev")) (trace (snd (main offline start))) = 1%nat
  /\ count (is_feed_start (str "official")) (trace (snd (main offline start))) = 0%nat.
Proof. vm_compute. repeat split. Qed.

(** ** Saving the processed ids *)

(** One attempt of a store: the upload, then the new bucket contents. *)
Lemma store_attempt_run E blob_path b w :
  (faulty (storage_fault E) (BlobUpload blob_path b) ;;; put_blob blob_path b) w
  = match storage_fault E (tick w) with
    | Some e =>
        (Raise e,
         {| tick := S (tick w); bucket := bucket w;
            trace := Called (BlobUpload blob_path b) false :: trace w |})
    | None =>
        (Ok tt,
         {| tick := S (tick w); bucket := <[blob_path := b]> (bucket w);
            trace := Called (BlobUpload blob_path b) true :: trace w |})
    end.
Proof.
  unfold faulty, bind, next_tick. simpl.
  destruct (storage_fault E (tick w)); reflexivity.
Qed.

(** A store under [@retry]: either one attempt goes through, and the blob is
    in the bucket, or the three attempts fail, [RetryError] is raised and
    the bucket is as it was. *)
Lemma store_retry_run E blob_path b w r w' :
  retry_ is_exception 3 1
    (faulty (storage_fault E) (BlobUpload blob_path b) ;;; put_blob blob_path b) w
  = (r, w') ->
  (r = Ok tt
   /\ bucket w' = <[blob_path := b]> (bucket w)
   /\ exists tr, trace w' = Called (BlobUpload blob_path b) true :: tr ++ trace w
                 /\ Forall (store_noise blob_path b) tr)
  \/ ((exists e, r = Raise (RetryError e))
      /\ bucket w' = bucket w
      /\ exists tr, trace w' = tr ++ trace w /\ Forall (store_noise blob_path b) tr).
Proof.
  assert (Hg : forall k tr, Forall (store_noise blob_path b) tr ->
               Forall (store_noise blob_path b)
                 (Called (Backoff k) true :: Called (BlobUpload blob_path b) false :: tr)).
  { intros k tr H. constructor; [right; now eexists|].
    constructor; [now left | exact H]. }
  simpl. unfold bind at 1. rewrite try_run, store_attempt_run.
  destruct (storage_fault E (tick w)) as [e1|]; simpl.
  2: { intros H. injection H as <- <-. left. repeat split.
       exists []. now split. }
  unfold bind at 1. rewrite emit_run.
  unfold bind at 1. rewrite try_run, store_attempt_run. simpl.
  destruct (storage_fault E (S (tick w))) as [e2|]; simpl.
  2: { intros H. injection H as <- <-. left. repeat split.
       eexists [_; _]. split; [reflexivity|]. now apply Hg. }
  unfold bind at 1. rewrite emit_run.
  unfold bind at 1. rewrite try_run, store_attempt_run. simpl.
  destruct (storage_fault E (S (S (tick w)))) as [e3|]; simpl.
  2: { intros H. injection H as <- <-. left. repeat split.
       eexists [_; _; _; _]. split; [reflexivity|]. now apply Hg, Hg. }
  intros H. injection H as <- <-. right. repeat split.
  - now eexists.
  - eexists [_; _; _; _; _]. split; [reflexivity|].
    constructor; [now left|]. now apply Hg, Hg.
Qed.

Lemma store_noise_count blob_path b tr :
  Forall (store_noise blob_path b) tr -> count is_json_write tr = 0%nat.
Proof.
  induction 1 as [|e tr He _ IH]; [reflexivity|].
  rewrite count_cons, IH. destruct He as [->|[k ->]]; [destruct b|]; reflexivity.
Qed.

(** A [write_json] that raises has exhausted its three attempts on storage
    faults: it raises [RetryError], no attempt went through, and the bucket
    is as it was. *)
Lemma write_json_failed E blob_path data w e w' :
  write_json E blob_path data w = (Raise e, w') ->
  (exists e', e = RetryError e')
  /\ bucket w' = bucket w
  /\ count is_json_write (trace w') = count is_json_write (trace w)
  /\ exists tr, trace w' = tr ++ trace w.
Proof.
  intros H. apply store_retry_run in H as [(H & _)|((e' & H) & Hb & tr & Ht & Hn)];
    [discriminate|].
  injection H as ->. repeat split.
  - now eexists.
  - exact Hb.
  - rewrite Ht, count_app, (store_noise_count _ _ _ Hn). reflexivity.
  - exists tr. exact Ht.
Qed.

(** A [write_json] that returns has written the object, once. *)
Lemma write_json_ok E blob_path data w w' :
  write_json E blob_path data w = (Ok tt, w') ->
  bucket w' !! blob_path = Some (Json data)
  /\ count is_json_write (trace w') = S (count is_json_write (trace w)).
Proof.
  intros H. apply store_retry_run in H as [(_ & Hb & tr & Ht & Hn)|((e' & H) & _)];
    [|discriminate].
  split.
  - rewrite Hb. apply lookup_insert_eq.
  - rewrite Ht, count_cons, count_app, (store_noise_count _ _ _ Hn). reflexivity.
Qed.

(** An [upload_file] that returns has stored the payload, and the upload is
    the newest event. *)
Lemma upload_file_ok E blob_path content w w' :
  upload_file E blob_path content w = (Ok tt, w') ->
  bucket w' !! blob_path = Some (Payload content)
  /\ exists tr, trace w' = Called (BlobUpload blob_path (Payload content)) true
                           :: tr ++ trace w.
Proof.
  intros H. apply store_retry_run in H as [(_ & Hb & tr & Ht & Hn)|((e' & H) & _)];
    [|discriminate].
  split.
  - rewrite Hb. apply lookup_insert_eq.
  - now exists tr.
Qed.

Lemma feed_pass_items E feed_name feed_config w processed_ids new_items w1 :
  detect_new_items E feed_name feed_config w = (Ok (processed_ids, new_items), w1) ->
  new_items <> [] ->
  feed_pass E feed_name feed_config w
  = process_new_items E feed_name (folder feed_config) processed_ids new_items w1.
Proof.
  intros Hd Hn. unfold feed_pass. rewrite (bind_ok _ _ _ _ _ Hd).
  now destruct new_items.
Qed.

Lemma update_processed_ids_write E folder processed_ids new_ids ids w :
  new_ids <> [] -> doc_ids processed_ids = Some ids ->
  update_processed_ids E folder processed_ids new_ids w
  = (write_json E (processed_ids_path folder)
       {| doc_ids := Some (ids ++ new_ids); doc_rest := doc_rest processed_ids |} ;;;
     log_structured INFO
       (UpdatedProcessedIds (length new_ids) (length (ids ++ new_ids)))) w.
Proof.
  intros Hn Hi. unfold update_processed_ids.
  rewrite bool_decide_eq_false_2 by assumption. now rewrite Hi.
Qed.

(** C4 (amended): if the retries of the final save of the processed ids are
    exhausted, [write_json] raises [RetryError]; nothing between the save
    and the outer handler of [process_feed] catches it, so the feed's pass
    fails (the error is logged and re-raised), the iteration over the feeds
    ends and the job exits with status 1.  Nothing is rolled back: the
    bucket and the trace as they were at the end of the item loop are
    kept. *)
Theorem save_failure_fails_feed E feed_name feed_config w processed_ids new_items w1
    ls w2 ids e w3 :
  detect_new_items E feed_name feed_config (logged [Log INFO (ProcessingFeed feed_name)] w)
  = (Ok (processed_ids, new_items), w1) ->
  new_items <> [] ->
  for_items E feed_name (folder feed_config) new_items loop_init w1 = (Ok ls, w2) ->
  new_processed_ids ls <> [] ->
  doc_ids processed_ids = Some ids ->
  write_json E (processed_ids_path (folder feed_config))
    {| doc_ids := Some (ids ++ new_processed_ids ls);
       doc_rest := doc_rest processed_ids |} w2
  = (Raise e, w3) ->
  let failed := logged [Log ERROR (ErrorProcessingFeed feed_name e)] w3 in
  (exists e', e = RetryError e')
  /\ process_feed E feed_name feed_config w = (Raise e, failed)
  /\ (forall rest, for_feeds E ((feed_name, feed_config) :: rest) w = (Raise e, failed))
  /\ (forall w0 rest,
        RSS_FEEDS E = (feed_name, feed_config) :: rest ->
        faulty (initialize E) Initialize (logged [Log INFO StartingJob] w0) = (Ok tt, w) ->
        main E w0 = (Ok 1, logged [Log ERROR (JobFailed e)] failed))
  /\ bucket w3 = bucket w2
  /\ exists tr, trace w3 = tr ++ trace w2.
Proof.
  intros Hd Hn Hl Hm Hi Hw failed.
  destruct (write_json_failed _ _ _ _ _ _ Hw) as (He & Hb & _ & Ht).
  assert (Hp : process_feed E feed_name feed_config w = (Raise e, failed)).
  { rewrite process_feed_run, (feed_pass_items _ _ _ _ _ _ _ Hd Hn).
    unfold process_new_items. rewrite (bind_ok _ _ _ _ _ Hl).
    unfold bind at 1.
    rewrite (update_processed_ids_write _ _ _ _ _ _ Hm Hi).
    now rewrite (bind_raise _ _ _ _ _ Hw). }
  repeat split; try assumption.
  - intros rest. simpl. now rewrite (bind_raise _ _ _ _ _ Hp).
  - intros w0 rest HF Hinit.
    exact (main_feed_failure E w0 w [] _ _ rest w e failed HF Hinit eq_refl Hp).
Qed.

(** C4 on the deployment whose storage fails at the final save: the item has
    been ingested, the save raises, and the job exits with status 1. *)
Lemma save_failure_fails_feed_witness :
  fst (main save_fails start) = Ok 1.
Proof.
  pose (w := snd (faulty (initialize save_fails) Initialize
                    (logged [Log INFO StartingJob] start))).
  pose (w1 := snd (detect_new_items save_fails (str "dev") (snd dev_feed)
                     (logged [Log INFO (ProcessingFeed (str "dev"))] w))).
  pose (new_items := [item_of_entry post_entry]).
  pose (ls := {| new_processed_ids := [str "https___blogs.nvidia.com__p_1"];
                 processed_count := 1; error_count := 0 |}).
  pose (w2 := snd (for_items save_fails (str "dev") (str "dev") new_items loop_init w1)).
  pose (data := {| doc_ids := Some ([] ++ new_processed_ids ls);
                   doc_rest := doc_rest empty_doc |}).
  pose (w3 := snd (write_json save_fails (processed_ids_path (str "dev")) data w2)).
  assert (Hd : detect_new_items save_fails (str "dev") (snd dev_feed)
                 (logged [Log INFO (ProcessingFeed (str "dev"))] w)
               = (Ok (empty_doc, new_items), w1)) by (vm_compute; reflexivity).
  assert (Hl : for_items save_fails (str "dev") (folder (snd dev_feed)) new_items
                 loop_init w1 = (Ok ls, w2)) by (vm_compute; reflexivity).
  assert (Hw : write_json save_fails (processed_ids_path (folder (snd dev_feed))) data w2
               = (Raise (RetryError (OtherException 503)), w3))
    by (vm_compute; reflexivity).
  destruct (save_failure_fails_feed save_fails (str "dev") (snd dev_feed) w
              empty_doc new_items w1 ls w2 [] (RetryError (OtherException 503)) w3
              Hd ltac:(discriminate) Hl ltac:(discriminate) eq_refl Hw)
    as (_ & _ & _ & Hmain & _).
  rewrite (Hmain start [] eq_refl eq_refl). reflexivity.
Defined.

(** C4 (as stated) fails: the item is ingested and marked, the three
    attempts of the save fail, and the failure is logged as a feed-level
    error and ends the job with status 1. *)
Lemma save_failure_escalates :
  count is_item_complete (trace (snd (main save_fails start))) = 1%nat
  /\ count is_failed_json_write (trace (snd (main save_fails start))) = 3%nat
  /\ count is_feed_error (trace (snd (main save_fails start))) = 1%nat
  /\ fst (main save_fails start) = Ok 1.
Proof. vm_compute. repeat split. Qed.

(** ** The item loop *)

Lemma logged_nil w : logged [] w = w.
Proof. now destruct w. Qed.

(** One iteration: the id is made, the [try] block runs, and the locals and
    the log follow from how the block ended.  The iteration itself never
    raises. *)
Lemma loop_step_run E feed_name folder ls it w :
  loop_step E feed_name folder ls it w
  = let item_id := item_id_at E (identity_of it) (utcnow E (tick w)) in
    let w1 := snd (make_item_id E it w) in
    let '(r, w2) := item_body E feed_name folder it item_id w1 in
    (Ok (after_exit ls item_id r), logged (exit_log item_id r) w2).
Proof.
  unfold loop_step. unfold bind at 1. rewrite make_item_id_run. cbn [snd].
  unfold bind at 1. rewrite try_run.
  destruct (item_body _ _ _ _ _ _) as [[[]|e] w2]; cbn [fst snd];
    unfold log_structured, bind; rewrite ?emit_run, ?logged_nil; reflexivity.
Qed.

(** What one exit adds to the locals. *)
Lemma after_exit_marked ls item_id r :
  new_processed_ids (after_exit ls item_id r)
  = new_processed_ids ls
    ++ (if match r with Ok Completed => true | _ => false end then [item_id] else [])
  /\ processed_count (after_exit ls item_id r)
     = (processed_count ls
        + if match r with Ok Completed => true | _ => false end then 1 else 0)%nat
  /\ error_count (after_exit ls item_id r)
     = (error_count ls
        + if match r with Raise _ => true | _ => false end then 1 else 0)%nat.
Proof.
  destruct r as [[]|e]; simpl; rewrite ?app_nil_r; repeat split; lia.
Qed.

(** The loop never raises, and its locals are determined by how the [try]
    blocks of its iterations ended. *)
Lemma for_items_runs E feed_name folder :
  forall new_items ls w,
    let runs := item_runs E feed_name folder new_items w in
    exists ls' w',
      for_items E feed_name folder new_items ls w = (Ok ls', w')
      /\ new_processed_ids ls' = new_processed_ids ls ++ marked_ids runs
      /\ processed_count ls' = (processed_count ls + length (List.filter completed runs))%nat
      /\ error_count ls' = (error_count ls + length (List.filter raised runs))%nat
      /\ map run_item runs = new_items
      /\ Forall (fun r => item_body E feed_name folder (run_item r) (run_id r) (run_start r)
                          = (run_exit r, run_end r)) runs.
Proof.
  induction new_items as [|it rest IH]; intros ls w runs.
  - exists ls, w. subst runs. simpl. rewrite app_nil_r.
    repeat split; try lia. constructor.
  - subst runs. cbn [for_items item_runs].
    rewrite make_item_id_run.
    unfold bind at 1.
    rewrite !loop_step_run. cbn zeta.
    rewrite make_item_id_run. cbn [snd].
    destruct (item_body _ _ _ _ _ _) as [r w2] eqn:Hbody. cbn [snd].
    destruct (IH (after_exit ls (item_id_at E (identity_of it) (utcnow E (tick w))) r)
                 (logged (exit_log (item_id_at E (identity_of it) (utcnow E (tick w))) r) w2))
      as (ls' & w' & Hfor & Hids & Hpc & Hec & Hmap & Hall).
    exists ls', w'. split; [exact Hfor|].
    destruct (after_exit_marked ls
                (item_id_at E (identity_of it) (utcnow E (tick w))) r)
      as (Ha & Hb & Hc).
    rewrite Hids, Hpc, Hec, Ha, Hb, Hc.
    unfold marked_ids, completed, raised. cbn [List.filter run_exit map].
    repeat split.
    + destruct r as [[]|e]; cbn; rewrite <- ?app_assoc; reflexivity.
    + destruct r as [[]|e]; cbn; lia.
    + destruct r as [[]|e]; cbn; lia.
    + cbn. now rewrite Hmap.
    + constructor; [exact Hbody | exact Hall].
Qed.

(** C7 (amended): the item loop never raises, whatever the [try] blocks of
    its items do.  Every item's block ends in exactly one of three ways: it
    raises, and is counted as an error; it is abandoned at the missing-link or
    text-length check, and is neither counted nor marked; or it completes
    all steps, and is counted and marked processed.  The error count equals
    the number of raising items, and every item that neither raises nor is
    abandoned is marked processed. *)
Theorem item_failures_isolated E feed_name folder new_items w :
  let runs := item_runs E feed_name folder new_items w in
  exists ls w',
    for_items E feed_name folder new_items loop_init w = (Ok ls, w')
    /\ map run_item runs = new_items
    /\ Forall (fun r => item_body E feed_name folder (run_item r) (run_id r) (run_start r)
                        = (run_exit r, run_end r)) runs
    /\ error_count ls = length (List.filter raised runs)
    /\ processed_count ls = length (List.filter completed runs)
    /\ new_processed_ids ls = marked_ids runs
    /\ Forall (fun r => raised r = false -> abandoned r = false ->
                        completed r = true /\ In (run_id r) (new_processed_ids ls)) runs.
Proof.
  intros runs.
  destruct (for_items_runs E feed_name folder new_items loop_init w)
    as (ls & w' & Hfor & Hids & Hpc & Hec & Hmap & Hall).
  fold runs in Hids, Hpc, Hec, Hmap, Hall.
  exists ls, w'. simpl in Hids, Hpc, Hec.
  repeat split; try assumption.
  apply Forall_forall. intros r Hr Hraised Habandoned.
  assert (Hc : completed r = true).
  { unfold raised, abandoned, completed in *.
    destruct (run_exit r) as [[]|e]; congruence. }
  split; [exact Hc|].
  rewrite Hids. unfold marked_ids. apply in_map, List.filter_In.
  split; [|exact Hc]. now apply list_elem_of_In.
Qed.

(** C7 (as stated) fails: of the two items below none raises, yet only one
    is marked processed; the item without a link is abandoned, which is
    neither an error nor a completion. *)
Lemma abandoned_item_not_marked :
  forallb (fun r => negb (raised r))
    (item_runs teaser_and_post (str "dev") (str "dev") teaser_and_post_items start)
  = true
  /\ fst (for_items teaser_and_post (str "dev") (str "dev") teaser_and_post_items
            loop_init start)
     = Ok {| new_processed_ids := [str "https___blogs.nvidia.com__p_1"];
             processed_count := 1;
             error_count := 0 |}.
Proof. vm_compute. split; reflexivity. Qed.

(** ** Events of the adapters and of the item loop *)

Section EmitsPipeline.

Context (E : env) (P : event -> Prop).

(** Every event but a JSON write that went through is allowed. *)
Hypothesis allowed : forall e, is_json_write e = false -> P e.

Ltac emits_step :=
  first
    [ apply emits_ret | apply emits_raise | apply emits_next_tick
    | apply emits_get_blob | apply emits_put_blob
    | apply emits_emit; apply allowed; reflexivity
    | apply emits_faulty; apply allowed; reflexivity
    | apply emits_remote; apply allowed; reflexivity
    | apply emits_try
    | apply emits_retry; [intros; apply allowed; reflexivity|]
    | apply emits_bind; [|intros]
    | match goal with
      | |- emits _ (match ?x with _ => _ end) => destruct x
      | |- emits _ (if ?b then _ else _) => destruct b
      end ].

Ltac emits_auto := repeat emits_step.

Lemma emits_fetch_rss url : emits P (fetch_rss E url).
Proof. unfold fetch_rss, raise_for_status. emits_auto. Qed.

Lemma emits_fetch_html url : emits P (fetch_html E url).
Proof. unfold fetch_html, raise_for_status. emits_auto. Qed.

Lemma emits_parse_rss xml : emits P (parse_rss E xml).
Proof. unfold parse_rss. emits_auto. Qed.

Lemma emits_read_json path : emits P (read_json E path).
Proof. unfold read_json, read_json_attempt. emits_auto. Qed.

Lemma emits_upload_file path content : emits P (upload_file E path content).
Proof. unfold upload_file. emits_auto. Qed.

Lemma emits_clean_html html meta : emits P (clean_html E html meta).
Proof. unfold clean_html. emits_auto. Qed.

Lemma emits_poll_loop operation_url remaining :
  emits P (poll_loop E operation_url remaining).
Proof.
  induction remaining as [|remaining IH]; simpl; [apply emits_raise|].
  unfold sleep. emits_auto. exact IH.
Qed.

Lemma emits_ingest_to_rag text meta : emits P (ingest_to_rag E text meta).
Proof.
  unfold ingest_to_rag, ingest_attempt.
  repeat first [ apply emits_poll_loop | emits_step ].
Qed.

Lemma emits_embed_text text : emits P (embed_text E text).
Proof. unfold embed_text. emits_auto. Qed.

Lemma emits_upsert_vector vector doc_id meta :
  emits P (upsert_vector E vector doc_id meta).
Proof. unfold upsert_vector. emits_auto. Qed.

Lemma emits_make_item_id it : emits P (make_item_id E it).
Proof. unfold make_item_id, now. emits_auto. Qed.

Lemma emits_article_steps feed_name folder it item_id :
  emits P (article_steps E feed_name folder it item_id).
Proof.
  unfold article_steps, log_structured, sleep, now.
  repeat first
    [ apply emits_upload_file | apply emits_fetch_html | apply emits_clean_html
    | apply emits_ingest_to_rag | apply emits_embed_text | apply emits_upsert_vector
    | emits_step ].
Qed.

Lemma emits_item_body feed_name folder it item_id :
  emits P (item_body E feed_name folder it item_id).
Proof.
  unfold item_body, log_structured.
  repeat first [ apply emits_upload_file | apply emits_article_steps | emits_step ].
Qed.

Lemma emits_loop_step feed_name folder ls it :
  emits P (loop_step E feed_name folder ls it).
Proof.
  unfold loop_step, log_structured.
  repeat first [ apply emits_make_item_id | apply emits_item_body | emits_step ].
Qed.

Lemma emits_for_items feed_name folder new_items :
  forall ls, emits P (for_items E feed_name folder new_items ls).
Proof.
  induction new_items as [|it rest IH]; intros ls; simpl.
  - apply emits_ret.
  - apply emits_bind; [apply emits_loop_step | intros; apply IH].
Qed.

Lemma emits_detect_new_items feed_name feed_config :
  emits P (detect_new_items E feed_name feed_config).
Proof.
  unfold detect_new_items, log_structured.
  repeat first
    [ apply emits_fetch_rss | apply emits_parse_rss | apply emits_read_json
    | emits_step ].
Qed.

End EmitsPipeline.

(** ** The per-item block, read backwards from its exit *)

Lemma log_run s m w : log_structured s m w = (Ok tt, logged [Log s m] w).
Proof. reflexivity. Qed.

Lemma sleep_run n w : sleep n w = (Ok tt, logged [Called (Sleep n) true] w).
Proof. reflexivity. Qed.

Lemma ok_inj {A} (a b : A) (w1 w2 : world) :
  (Ok a, w1) = (Ok b, w2) -> a = b /\ w1 = w2.
Proof. intros H. now injection H. Qed.

Ltac bind_inv H :=
  let a := fresh "a" in
  let w := fresh "w" in
  let Hs := fresh "Hs" in
  apply bind_ok_inv in H as (a & w & Hs & H);
  try (rewrite log_run in Hs; apply ok_inj in Hs as [<- <-]);
  try (rewrite sleep_run in Hs; apply ok_inj in Hs as [<- <-]).

(** The block from "Fetch full HTML" on returns in one of three ways: at the
    missing-link check, right after its warning; at the text-length check;
    or after the import, the embedding and the upsert have each returned. *)
Lemma article_steps_inv E feed_name folder it item_id w ex w' :
  article_steps E feed_name folder it item_id w = (Ok ex, w') ->
  (truthy (link it) = false /\ ex = SkippedMissingLink
   /\ w' = logged [Log WARNING (ItemMissingLink item_id)] w)
  \/ (truthy (link it) = true /\ ex = SkippedTooShort)
  \/ (truthy (link it) = true /\ ex = Completed
      /\ exists clean_text meta wa wa' embedding wb' wc',
           m_item_id meta = item_id
           /\ ingest_to_rag E clean_text meta wa = (Ok tt, wa')
           /\ embed_text E clean_text
                (logged [Log INFO (EmbeddingText item_id);
                         Called (Sleep 2) true;
                         Log INFO (RagIngestionComplete item_id)] wa')
              = (Ok embedding, wb')
           /\ upsert_vector E embedding item_id meta
                (logged [Log INFO (UpsertingVector item_id (length embedding))] wb')
              = (Ok tt, wc')
           /\ w' = logged [Log INFO (VectorUpsertComplete item_id)] wc').
Proof.
  unfold article_steps. destruct (truthy (link it)) eqn:Hl; cbn [negb]; intros H.
  - right. bind_inv H. bind_inv H. bind_inv H. bind_inv H. bind_inv H. bind_inv H.
    match type of H with
    | (if ?c then _ else _) _ = _ => destruct c
    end.
    + left. bind_inv H. apply ok_inj in H as [<- <-]. now split.
    + right. do 11 bind_inv H. apply ok_inj in H as [<- <-].
      repeat match goal with u : () |- _ => destruct u end.
      rewrite !logged_app in *. cbn [app] in *.
      split; [reflexivity|]. split; [reflexivity|].
      eexists _, _, _, _, _, _, _.
      split; [|split; [eassumption|split; [eassumption|split; [eassumption|]]]];
        reflexivity.
  - left. bind_inv H. apply ok_inj in H as [<- <-]. now repeat split.
Qed.

(** The whole block returns only if the raw XML was stored first. *)
Lemma item_body_inv E feed_name folder it item_id w ex w' :
  item_body E feed_name folder it item_id w = (Ok ex, w') ->
  exists w_up,
    upload_file E (raw_xml_path folder item_id) (get_item_xml it)
      (logged [Log INFO (ProcessingItem item_id)] w) = (Ok tt, w_up)
    /\ article_steps E feed_name folder it item_id
         (logged [Log INFO (SavedRawXml item_id (raw_xml_path folder item_id))] w_up)
       = (Ok ex, w').
Proof.
  unfold item_body. intros H. do 3 bind_inv H.
  repeat match goal with u : () |- _ => destruct u end.
  eexists. split; eassumption.
Qed.

(** ** Abandoned items *)

(** An item of the delta that no marked id names is in the delta again once
    the marked ids have been added to the processed set. *)
Lemma get_new_items_again (it : item) (items : list item) (loaded marked : list pystr) :
  it ∈ get_new_items items (list_to_set loaded) ->
  identity_of it ∉ marked ->
  it ∈ get_new_items items (list_to_set (loaded ++ marked)).
Proof.
  unfold get_new_items. rewrite !list_elem_of_filter.
  intros [[Ht Hn] Hin] Hm. split; [|exact Hin]. split; [exact Ht|].
  rewrite elem_of_list_to_set in *. rewrite elem_of_app. tauto.
Qed.

(** C10 (as stated) fails: the first of two items with the same guid is
    abandoned for its missing link, the second completes, and the id they
    share is persisted; on the next run over the unchanged feed no item is
    new, so the abandoned item does not come back. *)
Lemma abandoned_item_suppressed :
  let first_run := snd (main duplicate_guid start) in
  let second_run := snd (main duplicate_guid first_run) in
  count is_missing_link (trace first_run) = 1%nat
  /\ bucket first_run !! processed_ids_path (str "dev")
     = Some (Json {| doc_ids := Some [str "post-7"]; doc_rest := [] |})
  /\ count (is_found_new 0) (trace first_run) = 0%nat
  /\ count (is_found_new 0) (trace second_run) = 1%nat
  /\ count is_missing_link (trace second_run) = 1%nat.
Proof. vm_compute. repeat split. Qed.

(** ** The commit of the processed ids *)

Lemma json_free_count {A} (m : M A) :
  emits (fun e => is_json_write e = false) m ->
  forall w, count is_json_write (trace (snd (m w))) = count is_json_write (trace w).
Proof.
  intros Hm w. destruct (Hm w) as (tr & -> & Hall).
  rewrite count_app. enough (count is_json_write tr = 0%nat) by lia.
  clear -Hall. induction Hall as [|e tr He _ IH]; [reflexivity|].
  now rewrite count_cons, He, IH.
Qed.

Lemma count_logged p evs w :
  count p (trace (logged evs w)) = (count p evs + count p (trace w))%nat.
Proof. unfold logged. cbn [trace]. apply count_app. Qed.

(** A run that is marked completed went through the import, the embedding
    and the upsert. *)
Lemma completed_downstream E feed_name folder r :
  item_body E feed_name folder (run_item r) (run_id r) (run_start r)
  = (run_exit r, run_end r) ->
  completed r = true -> downstream_succeeded E r.
Proof.
  unfold completed. intros Hbody Hc.
  destruct (run_exit r) as [[]|e]; try discriminate.
  apply item_body_inv in Hbody as (w_up & _ & Hsteps).
  apply article_steps_inv in Hsteps
    as [(_ & H & _)|[(_ & H)|(_ & _ & H)]]; try discriminate.
  exact H.
Qed.

(** The item loop only appends: the new ids after the loop are those before
    it followed by the ids of the runs that completed, each of which went
    through the three downstream steps; and the loop writes no JSON
    object. *)
Lemma for_items_commit E feed_name folder new_items ls w1 :
  let runs := item_runs E feed_name folder new_items w1 in
  exists ls' w2,
    for_items E feed_name folder new_items ls w1 = (Ok ls', w2)
    /\ new_processed_ids ls' = new_processed_ids ls ++ marked_ids runs
    /\ Forall (fun r => completed r = true -> downstream_succeeded E r) runs
    /\ count is_json_write (trace w2) = count is_json_write (trace w1).
Proof.
  intros runs.
  destruct (for_items_runs E feed_name folder new_items ls w1)
    as (ls' & w2 & Hfor & Hids & _ & _ & _ & Hall).
  fold runs in Hids, Hall. exists ls', w2.
  split; [exact Hfor|]. split; [exact Hids|]. split.
  - eapply Forall_impl; [exact Hall|]. intros r Hr.
    now apply completed_downstream with (feed_name := feed_name) (folder := folder).
  - pose proof (json_free_count _
                  (emits_for_items E _ (fun _ H => H) feed_name folder new_items ls)
                  w1) as Hc.
    now rewrite Hfor in Hc.
Qed.

(** The "Update processed_ids.json" block writes at most one JSON object; if
    it writes one, the object is the loaded one with the new ids appended,
    and it is in the bucket afterwards. *)
Lemma update_processed_ids_commit E folder processed_ids new_ids w r w' :
  update_processed_ids E folder processed_ids new_ids w = (r, w') ->
  (count is_json_write (trace w') = count is_json_write (trace w)
   /\ bucket w' = bucket w)
  \/ (count is_json_write (trace w') = S (count is_json_write (trace w))
      /\ r = Ok tt
      /\ new_ids <> []
      /\ bucket w' !! processed_ids_path folder
         = Some (Json {| doc_ids := Some (ids_of processed_ids ++ new_ids);
                         doc_rest := doc_rest processed_ids |})).
Proof.
  unfold update_processed_ids, ids_of. case_bool_decide as Hn.
  - unfold ret. intros H. injection H as <- <-. now left.
  - destruct (doc_ids processed_ids) as [ids|].
    + unfold bind. destruct (write_json _ _ _ _) as [[[]|e] w1] eqn:Hw.
      * rewrite log_run. intros H. injection H as <- <-.
        apply write_json_ok in Hw as (Hb & Hc). right.
        rewrite count_logged. cbn. now rewrite Hc.
      * intros H. injection H as <- <-.
        apply write_json_failed in Hw as (_ & Hb & Hc & _). now left.
    + intros H. injection H as <- <-. now left.
Qed.

(** The body of the outer [try]: at most one JSON object is written, after
    the item loop, and it is the loaded list extended with the new ids. *)
Lemma feed_pass_commit E feed_name feed_config w0 r wf :
  feed_pass E feed_name feed_config w0 = (r, wf) ->
  (count is_json_write (trace wf) <= count is_json_write (trace w0) + 1)%nat
  /\ (count is_json_write (trace wf) = (count is_json_write (trace w0) + 1)%nat ->
      exists processed_ids new_items w1 ls w2,
        detect_new_items E feed_name feed_config w0 = (Ok (processed_ids, new_items), w1)
        /\ for_items E feed_name (folder feed_config) new_items loop_init w1 = (Ok ls, w2)
        /\ count is_json_write (trace w2) = count is_json_write (trace w0)
        /\ r = Ok tt
        /\ bucket wf !! processed_ids_path (folder feed_config)
           = Some (Json {| doc_ids := Some (ids_of processed_ids ++ new_processed_ids ls);
                           doc_rest := doc_rest processed_ids |})).
Proof.
  unfold feed_pass.
  pose proof (json_free_count _
                (emits_detect_new_items E _ (fun _ H => H) feed_name feed_config) w0)
    as Hc1.
  unfold bind at 1.
  destruct (detect_new_items E feed_name feed_config w0)
    as [[[processed_ids new_items]|e] w1] eqn:Hd; cbn [snd] in Hc1.
  2: { intros H. injection H as <- <-. split; lia. }
  destruct new_items as [|it rest].
  { rewrite log_run. intros H. injection H as <- <-.
    rewrite count_logged. cbn. split; lia. }
  remember (it :: rest) as new_items eqn:Hnew.
  destruct (for_items_commit E feed_name (folder feed_config) new_items loop_init w1)
    as (ls & w2 & Hfor & _ & _ & Hc2).
  unfold process_new_items. rewrite (bind_ok _ _ _ _ _ Hfor).
  unfold bind at 1.
  destruct (update_processed_ids E (folder feed_config) processed_ids
              (new_processed_ids ls) w2) as [ru w3] eqn:Hu.
  apply update_processed_ids_commit in Hu as [(Hc3 & Hb)|(Hc3 & -> & Hne & Hb)].
  - intros H.
    assert (count is_json_write (trace wf) = count is_json_write (trace w3)).
    { destruct ru; [rewrite log_run in H|]; injection H as <- <-;
        [rewrite count_logged|]; reflexivity. }
    split; lia.
  - rewrite log_run. intros H. injection H as <- <-.
    rewrite count_logged. cbn [count List.filter is_json_write length Nat.add].
    split; [lia|]. intros _.
    exists processed_ids, new_items, w1, ls, w2.
    repeat split; try assumption. lia.
Qed.

(** ** Two runs over an unchanged feed *)

(** The processed set stores sanitized ids, the delta looks up raw
    identities: an item whose identity the sanitizer alters stays in the
    delta after it has been marked. *)
Lemma marked_item_is_new_again E (it : item) (items : list item) (loaded : list pystr) :
  it ∈ get_new_items items (list_to_set loaded) ->
  sanitize E (identity_of it) <> identity_of it ->
  it ∈ get_new_items items (list_to_set (loaded ++ [sanitize E (identity_of it)])).
Proof.
  intros Hin Hne. apply get_new_items_again; [exact Hin|].
  intros H. apply list_elem_of_singleton in H. congruence.
Qed.

(** An item whose identity is stored as it is leaves the delta. *)
Lemma marked_item_suppressed (it : item) (items : list item) (loaded : list pystr) :
  it ∉ get_new_items items (list_to_set (loaded ++ [identity_of it])).
Proof.
  unfold get_new_items. rewrite list_elem_of_filter.
  intros [[_ Hn] _]. apply Hn.
  rewrite elem_of_list_to_set, elem_of_app, list_elem_of_singleton. now right.
Qed.

(** C1 (as the code has it): two consecutive runs of the healthy deployment
    over its unchanged feed, whose one entry has a URL as guid.  The first
    run ingests the item and persists its sanitized id; the second run looks
    the raw guid up in the processed set, finds the item new again, submits
    a second import and appends the id a second time. *)
Theorem second_run_reprocesses :
  let first_run := snd (main healthy start) in
  let second_run := snd (main healthy first_run) in
  fst (main healthy start) = Ok 0
  /\ count is_import_post (trace first_run) = 1%nat
  /\ bucket first_run !! processed_ids_path (str "dev")
     = Some (Json {| doc_ids := Some [str "https___blogs.nvidia.com__p_1"];
                     doc_rest := [] |})
  /\ fst (main healthy first_run) = Ok 0
  /\ count (is_found_new 1) (trace second_run) = 2%nat
  /\ count is_import_post (trace second_run) = 2%nat
  /\ bucket second_run !! processed_ids_path (str "dev")
     = Some (Json {| doc_ids := Some [str "https___blogs.nvidia.com__p_1";
                                      str "https___blogs.nvidia.com__p_1"];
                     doc_rest := [] |}).
Proof. vm_compute. repeat split. Qed.

(** * Further properties of the pipeline *)

(** ** New-item detection *)

Lemma get_new_items_spec (it : item) (items : list item) (s : gset pystr) :
  it ∈ get_new_items items s
  <-> it ∈ items /\ identity_of it <> [] /\ identity_of it ∉ s.
Proof.
  unfold get_new_items. rewrite list_elem_of_filter, truthy_nonempty. tauto.
Qed.

(** The delta keeps the feed's order, holds exactly the items with a
    non-empty identity that is not in the processed set, never holds an item
    that has neither guid nor link, shrinks when the processed set grows, and
    is its own delta. *)
Theorem get_new_items_delta (items : list item) (s s' : gset pystr) :
  get_new_items items s `sublist_of` items
  /\ (forall it, it ∈ get_new_items items s
                 <-> it ∈ items /\ identity_of it <> [] /\ identity_of it ∉ s)
  /\ (forall it, guid it = [] -> link it = [] -> it ∉ get_new_items items s)
  /\ (s ⊆ s' -> get_new_items items s' `sublist_of` get_new_items items s)
  /\ get_new_items (get_new_items items s) s = get_new_items items s.
Proof.
  split; [apply sublist_filter|]. split; [intros; apply get_new_items_spec|].
  split; [|split].
  - intros it Hg Hl. rewrite get_new_items_spec. intros (_ & H & _).
    apply H. unfold identity_of, py_or. now rewrite Hg, Hl.
  - intros Hs. unfold get_new_items.
    induction items as [|it items IH]; [constructor|].
    rewrite !filter_cons.
    destruct (decide (truthy (identity_of it) = true ∧ identity_of it ∉ s'))
      as [[Ht Hn]|Hno].
    + rewrite decide_True by (split; [exact Ht | set_solver]).
      now constructor.
    + destruct (decide (truthy (identity_of it) = true ∧ identity_of it ∉ s));
        [constructor|]; exact IH.
  - unfold get_new_items. induction items as [|it items IH]; [reflexivity|].
    rewrite filter_cons. destruct (decide _) as [H|H]; [|exact IH].
    rewrite filter_cons, decide_True by exact H. now rewrite IH.
Qed.

(** ** Parsing: stripped fields and the identity of an item *)

Lemma lstrip_head s : match lstrip s with [] => True | c :: _ => py_isspace c = false end.
Proof.
  induction s as [|c s IH]; simpl; [exact I|].
  destruct (py_isspace c) eqn:Hc; [exact IH | exact Hc].
Qed.

Lemma lstrip_fixed s :
  match s with [] => True | c :: _ => py_isspace c = false end -> lstrip s = s.
Proof. destruct s as [|c s]; simpl; [reflexivity|]. now intros ->. Qed.

Lemma lstrip_suffix s : exists pre, s = pre ++ lstrip s.
Proof.
  induction s as [|c s [pre IH]]; simpl; [now exists []|].
  destruct (py_isspace c); [|now exists []].
  exists (c :: pre). simpl. now rewrite <- IH.
Qed.

(** The head of the stripped string is the head of what [lstrip] left. *)
Lemma strip_shape s :
  let a := lstrip s in
  let b := lstrip (rev a) in
  strip s = rev b
  /\ match rev b with [] => True | c :: _ => py_isspace c = false end
  /\ match b with [] => True | c :: _ => py_isspace c = false end.
Proof.
  intros a b. split; [reflexivity|]. split; [|apply lstrip_head].
  destruct (lstrip_suffix (rev a)) as [pre Hpre]. fold b in Hpre.
  assert (Ha : a = rev b ++ rev pre).
  { rewrite <- (rev_involutive a), Hpre, rev_app_distr. reflexivity. }
  pose proof (lstrip_head s) as Hh. fold a in Hh. rewrite Ha in Hh.
  destruct (rev b) as [|c r]; [exact I | exact Hh].
Qed.

Lemma strip_idempotent s : strip (strip s) = strip s.
Proof.
  destruct (strip_shape s) as (Hs & Hh & Hl). cbn zeta in *.
  rewrite Hs. unfold strip at 1.
  rewrite (lstrip_fixed _ Hh), rev_involutive, (lstrip_fixed _ Hl).
  reflexivity.
Qed.

Lemma strip_stripped s : stripped (strip s).
Proof.
  destruct (strip_shape s) as (Hs & Hh & Hl). cbn zeta in *.
  rewrite Hs. remember (lstrip (rev (lstrip s))) as b eqn:Hb. clear Hb Hs s.
  unfold stripped. destruct (rev b) as [|c r] eqn:Hr; [exact I|].
  split; [exact Hh|]. intros d Hd.
  rewrite <- Hr in Hd.
  destruct b as [|x b]; [discriminate|]. simpl in Hd.
  rewrite last_snoc in Hd. injection Hd as <-. exact Hl.
Qed.

(** Every field of a parsed item is stripped and unchanged by a further
    strip; without an id the guid is the link; and the item's identity is
    empty exactly when both the id (or, without one, the link) and the link
    are blank. *)
Theorem parsed_item_fields (en : entry) :
  let it := item_of_entry en in
  Forall (fun f => stripped f /\ strip f = f)
    [title it; link it; guid it; pubDate it; description it]
  /\ (e_id en = None -> guid it = link it)
  /\ (identity_of it = []
      <-> strip (get_or (e_id en) (get_or (e_link en) [])) = []
          /\ strip (get_or (e_link en) []) = []).
Proof.
  intros it. split; [|split].
  - subst it. unfold item_of_entry. cbn [title link guid pubDate description].
    repeat constructor; try apply strip_stripped; apply strip_idempotent.
  - intros Hid. subst it. unfold item_of_entry. cbn [guid link]. now rewrite Hid.
  - subst it. unfold identity_of, py_or, item_of_entry. cbn [guid link].
    destruct (strip (get_or (e_id en) (get_or (e_link en) []))) as [|c g]; cbn [truthy].
    + tauto.
    + split; [discriminate | intros [H _]; discriminate].
Qed.

(** ** Sanitized ids *)

Lemma sanitize_char_fixed E c : path_safe E c = true -> sanitize_char E c = c.
Proof. unfold sanitize_char, path_safe. now intros ->. Qed.

Lemma sanitize_fixed E s :
  Forall (fun c => path_safe E c = true) s -> (length s <= 200)%nat ->
  sanitize E s = s.
Proof.
  intros Hs Hl. unfold sanitize. rewrite firstn_all2 by now rewrite length_map.
  induction Hs as [|c s Hc _ IH]; [reflexivity|]. simpl in *.
  rewrite (sanitize_char_fixed _ _ Hc), IH by lia. reflexivity.
Qed.

Lemma sanitize_idempotent E raw_id : sanitize E (sanitize E raw_id) = sanitize E raw_id.
Proof. apply sanitize_fixed; [apply sanitize_path_safe | apply sanitize_length]. Qed.

(** Normalizing an id again changes nothing: the sanitizer is idempotent, and
    the id of a non-degenerate identity is itself non-degenerate and is its
    own id, whatever the clock. *)
Theorem item_id_stable E raw_id now now' :
  sanitize E (sanitize E raw_id) = sanitize E raw_id
  /\ (degenerate E raw_id = false ->
      degenerate E (item_id_at E raw_id now) = false
      /\ item_id_at E (item_id_at E raw_id now) now' = item_id_at E raw_id now).
Proof.
  split; [apply sanitize_idempotent|]. intros Hd.
  rewrite (item_id_at_regular _ _ _ Hd).
  assert (Hd' : degenerate E (sanitize E raw_id) = false).
  { unfold degenerate in *. rewrite sanitize_idempotent.
    destruct (truthy raw_id); [|discriminate].
    apply orb_false_elim in Hd as [H1 H2]. rewrite H1, H2.
    apply negb_false_iff in H1. now rewrite H1. }
  split; [exact Hd'|].
  rewrite (item_id_at_regular _ _ _ Hd'). apply sanitize_idempotent.
Qed.

(** The regular case on the URL guid of [post_entry]. *)
Lemma item_id_stable_witness :
  item_id_at healthy (str "https___blogs.nvidia.com__p_1") (utcnow healthy 1)
  = str "https___blogs.nvidia.com__p_1".
Proof.
  destruct (item_id_stable healthy (str "https://blogs.nvidia.com/?p=1")
              (utcnow healthy 0) (utcnow healthy 1)) as [_ H].
  destruct (H eq_refl) as [_ H2]. exact H2.
Defined.

Lemma sanitize_char_same E c c' :
  same_after_sanitize E c c' -> sanitize_char E c = sanitize_char E c'.
Proof.
  intros [->|[H H']]; [reflexivity|].
  unfold sanitize_char, path_safe in *. now rewrite H, H'.
Qed.

(** The id normalization is not injective.  Identities that agree on their
    first 200 characters, up to characters the sanitizer replaces, have the
    same sanitized form and are degenerate together.  When they are not
    degenerate, items with these identities get the same item id whatever
    the clock reads, and so the same artifact paths; when they are, both
    get the clock's fallback id, the same one at the same reading. *)
Theorem sanitize_collisions E raw_id raw_id' :
  Forall2 (same_after_sanitize E) (take 200 raw_id) (take 200 raw_id') ->
  sanitize E raw_id = sanitize E raw_id'
  /\ degenerate E raw_id = degenerate E raw_id'
  /\ (forall now, item_id_at E raw_id now = item_id_at E raw_id' now)
  /\ (degenerate E raw_id = false ->
      forall it it' w w',
        identity_of it = raw_id -> identity_of it' = raw_id' ->
        fst (make_item_id E it w) = Ok (sanitize E raw_id)
        /\ fst (make_item_id E it' w') = Ok (sanitize E raw_id)
        /\ forall folder item_id,
             fst (make_item_id E it w) = Ok item_id ->
             fst (make_item_id E it' w') = Ok item_id
             /\ raw_xml_path folder item_id
                = raw_xml_path folder (sanitize E raw_id')).
Proof.
  intros H.
  assert (Hs : sanitize E raw_id = sanitize E raw_id').
  { unfold sanitize. rewrite <- !fmap_take.
    induction H as [|c c' l l' Hc _ IH]; [reflexivity|].
    cbn [fmap list_fmap]. now rewrite (sanitize_char_same _ _ _ Hc), IH. }
  assert (Ht : truthy raw_id = truthy raw_id').
  { destruct raw_id as [|c r], raw_id' as [|c' r']; try reflexivity;
      cbn in H; inversion H. }
  assert (Hd : degenerate E raw_id = degenerate E raw_id').
  { unfold degenerate. now rewrite Hs, Ht. }
  split; [exact Hs|]. split; [exact Hd|]. split.
  - intros now. unfold item_id_at. now rewrite Hs, Ht.
  - intros Hreg it it' w w' Hi Hi'.
    assert (H1 : fst (make_item_id E it w) = Ok (sanitize E raw_id)).
    { rewrite make_item_id_run. cbn [fst]. rewrite Hi.
      now rewrite item_id_at_regular. }
    assert (H2 : fst (make_item_id E it' w') = Ok (sanitize E raw_id)).
    { rewrite make_item_id_run. cbn [fst]. rewrite Hi'.
      rewrite item_id_at_regular by (now rewrite <- Hd). now rewrite Hs. }
    split; [exact H1|]. split; [exact H2|].
    intros folder item_id Hid. rewrite H1 in Hid. injection Hid as <-.
    split; [exact H2 | now rewrite Hs].
Qed.

(** Two items whose guids differ in a replaced character get the same id at
    different times. *)
Lemma sanitize_collisions_witness :
  fst (make_item_id healthy slash_item start) = Ok (str "a_b")
  /\ fst (make_item_id healthy query_item later) = Ok (str "a_b").
Proof.
  destruct (sanitize_collisions healthy (str "a/b") (str "a?b")) as (_ & _ & _ & H).
  - constructor; [now left|].
    constructor; [right; split; reflexivity|].
    constructor; [now left | constructor].
  - destruct (H eq_refl slash_item query_item start later eq_refl eq_refl)
      as (H1 & H2 & _).
    split; [exact H1 | exact H2].
Defined.

(** ** Idempotency for path-safe identities *)

Lemma item_runs_ids E feed_name folder new_items :
  forall w,
    Forall (fun r => exists now,
                run_id r = item_id_at E (identity_of (run_item r)) now)
      (item_runs E feed_name folder new_items w).
Proof.
  induction new_items as [|it rest IH]; intros w; cbn [item_runs]; [constructor|].
  rewrite make_item_id_run.
  destruct (item_body _ _ _ _ _ _) as [r w2].
  constructor; [cbn; now eexists | apply IH].
Qed.

Lemma filter_all {A} (p : A -> bool) (l : list A) :
  length (List.filter p l) = length l -> List.filter p l = l.
Proof.
  induction l as [|x l IH]; [reflexivity|]. simpl.
  pose proof (List.filter_length_le p l).
  destruct (p x); simpl; intros H'; [f_equal; apply IH; lia | lia].
Qed.

Lemma regular_fixed_id E raw_id now :
  raw_id <> [] -> sanitize E raw_id = raw_id -> raw_id <> str "_" ->
  item_id_at E raw_id now = raw_id.
Proof.
  intros Hne Hs Hu. rewrite item_id_at_regular; [exact Hs|].
  unfold degenerate. rewrite Hs.
  apply truthy_nonempty in Hne. rewrite Hne. simpl.
  unfold pystr_eqb. now rewrite bool_decide_eq_false_2.
Qed.

(** When the sanitizer leaves the identity of every new item as it is (and
    none is a lone underscore) and every new item completes, the ids the
    pass marks are those identities, and against the processed set extended
    with them the unchanged feed has no new item. *)
Theorem safe_identities_idempotent E feed_name folder (items : list item)
    (loaded : list pystr) w ls w' :
  let new_items := get_new_items items (list_to_set loaded) in
  (forall it, it ∈ new_items ->
     sanitize E (identity_of it) = identity_of it /\ identity_of it <> str "_") ->
  for_items E feed_name folder new_items loop_init w = (Ok ls, w') ->
  processed_count ls = length new_items ->
  new_processed_ids ls = map identity_of new_items
  /\ get_new_items items (list_to_set (loaded ++ new_processed_ids ls)) = [].
Proof.
  intros new_items Hsafe Hfor Hall.
  destruct (for_items_runs E feed_name folder new_items loop_init w)
    as (ls0 & w0 & Hfor0 & Hids & Hpc & _ & Hmap & _).
  rewrite Hfor in Hfor0. injection Hfor0 as <- <-.
  cbn [loop_init new_processed_ids processed_count app Nat.add] in Hids, Hpc.
  set (runs := item_runs E feed_name folder new_items w) in *.
  assert (Hlen : length runs = length new_items)
    by now rewrite <- Hmap, length_map.
  assert (Hcompleted : List.filter completed runs = runs)
    by (apply filter_all; lia).
  assert (Hmarked : new_processed_ids ls = map identity_of new_items).
  { rewrite Hids. unfold marked_ids. rewrite Hcompleted, <- Hmap.
    change (map identity_of (map run_item runs))
      with (identity_of <$> (run_item <$> runs)).
    rewrite <- list_fmap_compose. apply Forall_fmap_ext_1.
    pose proof (item_runs_ids E feed_name folder new_items w) as Hr.
    fold runs in Hr. rewrite Forall_forall in Hr |- *.
    intros r Hin. destruct (Hr r Hin) as [now Hnow]. rewrite Hnow. cbn.
    assert (Hit : run_item r ∈ new_items).
    { rewrite <- Hmap. now apply list_elem_of_fmap_2. }
    destruct (Hsafe _ Hit) as [Hs Hu].
    apply regular_fixed_id; [|exact Hs|exact Hu].
    now apply get_new_items_spec in Hit as (_ & H & _). }
  split; [exact Hmarked|].
  rewrite Hmarked. apply elem_of_nil_inv. intros it.
  rewrite get_new_items_spec. intros (Hin & Ht & Hn).
  apply Hn. rewrite elem_of_list_to_set, elem_of_app.
  destruct (decide (identity_of it ∈ loaded)) as [|Hl]; [now left|]. right.
  apply list_elem_of_fmap_2. apply get_new_items_spec.
  split; [exact Hin|]. split; [exact Ht|].
  now rewrite elem_of_list_to_set.
Qed.

(** The pass over the one entry of [safe_guid], whose guid "post-7" is
    path-safe: the id stored is the guid, and the entry is not new again. *)
Lemma safe_identities_idempotent_witness :
  get_new_items [item_of_entry linked_entry]
    (list_to_set ([] ++ [str "post-7"])) = [].
Proof.
  pose (items := [item_of_entry linked_entry]).
  pose (ls := {| new_processed_ids := [str "post-7"];
                 processed_count := 1; error_count := 0 |}).
  pose (w' := snd (for_items safe_guid (str "dev") (str "dev") items loop_init start)).
  assert (Hnew : get_new_items items (list_to_set []) = items)
    by (vm_compute; reflexivity).
  assert (Hfor : for_items safe_guid (str "dev") (str "dev")
                   (get_new_items items (list_to_set [])) loop_init start
                 = (Ok ls, w')) by (vm_compute; reflexivity).
  destruct (safe_identities_idempotent safe_guid (str "dev") (str "dev") items []
              start ls w') as [_ H].
  - rewrite Hnew. intros it Hin. apply list_elem_of_singleton in Hin as ->.
    split; [vm_compute; reflexivity | discriminate].
  - exact Hfor.
  - rewrite Hnew. reflexivity.
  - exact H.
Defined.

(** ** Call budgets *)

Section AtMost.

Context (p : event -> bool).

Lemma at_most_le {A} n n' (m : M A) : (n <= n')%nat -> at_most p n m -> at_most p n' m.
Proof. intros Hn Hm w. specialize (Hm w). lia. Qed.

Lemma at_most_ret {A} (a : A) : at_most p 0 (ret a).
Proof. intros w. simpl. lia. Qed.

Lemma at_most_raise {A} e : at_most p 0 (@raise A e).
Proof. intros w. simpl. lia. Qed.

Lemma at_most_next_tick : at_most p 0 next_tick.
Proof. intros w. simpl. lia. Qed.

Lemma at_most_get_blob path : at_most p 0 (get_blob path).
Proof. intros w. simpl. lia. Qed.

Lemma at_most_put_blob path b : at_most p 0 (put_blob path b).
Proof. intros w. simpl. lia. Qed.

Lemma at_most_emit e : at_most p (if p e then 1 else 0) (emit e).
Proof.
  intros w. rewrite emit_run. cbn [snd]. rewrite count_logged.
  unfold count at 1. cbn [List.filter]. destruct (p e); simpl; lia.
Qed.

Lemma at_most_quiet e : p e = false -> at_most p 0 (emit e).
Proof. intros H. pose proof (at_most_emit e) as H'. now rewrite H in H'. Qed.

Lemma at_most_bind {A B} n1 n2 n (m : M A) (k : A -> M B) :
  at_most p n1 m -> (forall a, at_most p n2 (k a)) -> (n1 + n2 <= n)%nat ->
  at_most p n (bind m k).
Proof.
  intros Hm Hk Hn w. unfold bind. specialize (Hm w).
  destruct (m w) as [[a|e] w1]; cbn [snd] in *.
  - specialize (Hk a w1). lia.
  - lia.
Qed.

Lemma at_most_try {A} n (m : M A) : at_most p n m -> at_most p n (try_ m).
Proof. intros Hm w. rewrite try_run. apply Hm. Qed.

Lemma at_most_call c n :
  (forall ok, ((if p (Called c ok) then 1 else 0) <= n)%nat) ->
  forall ok, at_most p n (emit (Called c ok)).
Proof. intros H ok. eapply at_most_le; [apply H | apply at_most_emit]. Qed.

Lemma at_most_faulty fault c n :
  (forall ok, ((if p (Called c ok) then 1 else 0) <= n)%nat) ->
  at_most p n (faulty fault c).
Proof.
  intros H. unfold faulty. apply (at_most_bind 0 n); [apply at_most_next_tick| |lia].
  intros t. destruct (fault t).
  - apply (at_most_bind n 0); [now apply at_most_call | intros; apply at_most_raise | lia].
  - now apply at_most_call.
Qed.

Lemma at_most_remote {A} (oracle : nat -> result A) c n :
  (forall ok, ((if p (Called c ok) then 1 else 0) <= n)%nat) ->
  at_most p n (remote oracle c).
Proof.
  intros H. unfold remote. apply (at_most_bind 0 n); [apply at_most_next_tick| |lia].
  intros t. destruct (oracle t).
  - apply (at_most_bind n 0); [now apply at_most_call | intros; apply at_most_ret | lia].
  - apply (at_most_bind n 0); [now apply at_most_call | intros; apply at_most_raise | lia].
Qed.

(** [n] attempts of a body that makes at most [k] calls make at most
    [n * k]. *)
Lemma at_most_retry {A} retryable n j k (f : M A) :
  (forall i, p (Called (Backoff i) true) = false) ->
  at_most p k f ->
  at_most p (S n * k) (retry_ retryable (S n) j f).
Proof.
  intros Hb Hf. revert j. induction n as [|n IH]; intros j.
  - cbn [retry_]. apply (at_most_bind k 0); [now apply at_most_try| |lia].
    intros [a|e]; [apply at_most_ret|].
    destruct (retryable e); apply at_most_raise.
  - cbn [retry_]. apply (at_most_bind k (S n * k)); [now apply at_most_try| |lia].
    intros [a|e]; [eapply at_most_le; [|apply at_most_ret]; lia|].
    destruct (retryable e); [|eapply at_most_le; [|apply at_most_raise]; lia].
    apply (at_most_bind 0 (S n * k)); [now apply at_most_quiet | intros; apply IH | lia].
Qed.

End AtMost.

Lemma poll_loop_budget E operation_url remaining :
  at_most is_status_check remaining (poll_loop E operation_url remaining).
Proof.
  induction remaining as [|remaining IH]; cbn [poll_loop]; [apply at_most_raise|].
  apply (at_most_bind _ 1 remaining).
  - apply at_most_remote. intros ok. reflexivity.
  - intros r. destruct (negb _); [eapply at_most_le; [|apply at_most_raise]; lia|].
    destruct (poll_json r) as [o|]; [|eapply at_most_le; [|apply at_most_raise]; lia].
    destruct (done o).
    + destruct (op_error o); eapply at_most_le;
        [|apply at_most_raise| |apply at_most_ret]; lia.
    + apply (at_most_bind _ 0 remaining); [now apply at_most_quiet | intros; exact IH | lia].
  - lia.
Qed.

Lemma poll_loop_quiet E p operation_url remaining :
  (forall c ok, p (Called (OperationGet c) ok) = false) ->
  (forall n ok, p (Called (Sleep n) ok) = false) ->
  at_most p 0 (poll_loop E operation_url remaining).
Proof.
  intros Hg Hs.
  induction remaining as [|remaining IH]; cbn [poll_loop]; [apply at_most_raise|].
  apply (at_most_bind _ 0 0); [| |lia].
  - apply at_most_remote. intros ok. now rewrite Hg.
  - intros r. destruct (negb _); [apply at_most_raise|].
    destruct (poll_json r) as [o|]; [|apply at_most_raise].
    destruct (done o).
    + destruct (op_error o); [apply at_most_raise | apply at_most_ret].
    + apply (at_most_bind _ 0 0); [apply at_most_quiet, Hs | intros; exact IH | lia].
Qed.

(** One attempt of the import: one token, one submission, and after it at
    most 120 status checks. *)
Lemma ingest_attempt_budget E text meta :
  at_most is_import_post 1 (ingest_attempt E text meta)
  /\ at_most is_status_check max_poll_attempts (ingest_attempt E text meta).
Proof.
  split; unfold ingest_attempt.
  - apply (at_most_bind _ 0 1); [apply at_most_faulty; now intros| |lia]. intros _.
    apply (at_most_bind _ 1 0); [apply at_most_remote; now intros| |lia]. intros r.
    destruct (_ && _); [apply at_most_raise|].
    destruct (negb _); [apply at_most_raise|].
    destruct (operation_name r) as [name|]; [|apply at_most_raise].
    destruct (negb _); [apply at_most_raise|].
    apply (at_most_bind _ 0 0); [|intros; apply at_most_ret|lia].
    apply poll_loop_quiet; reflexivity.
  - apply (at_most_bind _ 0 max_poll_attempts); [apply at_most_faulty; now intros| |lia].
    intros _.
    apply (at_most_bind _ 0 max_poll_attempts); [apply at_most_remote; now intros| |lia].
    intros r.
    destruct (_ && _); [eapply at_most_le; [|apply at_most_raise]; lia|].
    destruct (negb _); [eapply at_most_le; [|apply at_most_raise]; lia|].
    destruct (operation_name r) as [name|];
      [|eapply at_most_le; [|apply at_most_raise]; lia].
    destruct (negb _); [eapply at_most_le; [|apply at_most_raise]; lia|].
    apply (at_most_bind _ max_poll_attempts 0);
      [apply poll_loop_budget | intros; apply at_most_ret | lia].
Qed.

(** However the services answer, one call of [ingest_to_rag] submits the
    import at most 5 times and makes at most 600 status checks. *)
Theorem ingest_to_rag_budget E text meta w :
  (count is_import_post (trace (snd (ingest_to_rag E text meta w)))
   <= count is_import_post (trace w) + 5)%nat
  /\ (count is_status_check (trace (snd (ingest_to_rag E text meta w)))
      <= count is_status_check (trace w) + 600)%nat.
Proof.
  destruct (ingest_attempt_budget E text meta) as [Hp Hs].
  split.
  - apply (at_most_retry is_import_post is_exception 4 1 1); [reflexivity | exact Hp].
  - apply (at_most_retry is_status_check is_exception 4 1 max_poll_attempts);
      [reflexivity | exact Hs].
Qed.

Section Budgets.

Context (E : env) (p : event -> bool).

Hypothesis quiet_log : forall s m, p (Log s m) = false.
Hypothesis quiet_sleep : forall n ok, p (Called (Sleep n) ok) = false.
Hypothesis quiet_backoff : forall i ok, p (Called (Backoff i) ok) = false.

Lemma weight_bound c n :
  (weight p c <= n)%nat -> forall ok, ((if p (Called c ok) then 1 else 0) <= n)%nat.
Proof.
  unfold weight. intros H [|];
    destruct (p (Called c true)), (p (Called c false)); simpl in *; lia.
Qed.

Lemma fetch_budget b url :
  (weight p (HttpGet url) <= b)%nat ->
  at_most p (3 * b) (fetch_rss E url) /\ at_most p (3 * b) (fetch_html E url).
Proof.
  intros Hb.
  assert (H : forall body : http_response -> pystr,
            at_most p b
              (let* response := remote (fun t => session_get E t url) (HttpGet url) in
               raise_for_status response ;;; ret (body response))).
  { intros body.
    apply (at_most_bind _ b 0); [apply at_most_remote, weight_bound, Hb| |lia].
    intros r. apply (at_most_bind _ 0 0); [|intros; apply at_most_ret|lia].
    unfold raise_for_status. destruct (_ && _); [apply at_most_raise | apply at_most_ret]. }
  split; apply (at_most_retry p _ 2 1 b); auto; apply H.
Qed.

Lemma store_budget b blob_path blob :
  (weight p (BlobUpload blob_path blob) <= b)%nat ->
  at_most p (3 * b)
    (retry_ is_exception 3 1
       (faulty (storage_fault E) (BlobUpload blob_path blob) ;;;
        put_blob blob_path blob)).
Proof.
  intros Hb. apply (at_most_retry p _ 2 1 b); [auto|].
  apply (at_most_bind _ b 0); [apply at_most_faulty, weight_bound, Hb| |lia].
  intros _. apply at_most_put_blob.
Qed.

Lemma read_json_budget b blob_path :
  (weight p (BlobExists blob_path) <= b)%nat ->
  (weight p (BlobDownload blob_path) <= b)%nat ->
  at_most p (3 * (b + b)) (read_json E blob_path).
Proof.
  intros Hx Hd. apply (at_most_retry p _ 2 1 (b + b)); [auto|].
  unfold read_json_attempt.
  apply (at_most_bind _ (b + b) 0); [| |lia].
  - apply at_most_try.
    apply (at_most_bind _ b b); [apply at_most_faulty, weight_bound, Hx| |lia].
    intros _. apply (at_most_bind _ 0 b); [apply at_most_get_blob| |lia].
    intros [bl|]; [|eapply at_most_le; [|apply at_most_ret]; lia].
    apply (at_most_bind _ b 0); [apply at_most_faulty, weight_bound, Hd| |lia].
    intros _. destruct bl; [apply at_most_ret | apply at_most_raise].
  - intros [d|e]; [apply at_most_ret|].
    destruct e; first [apply at_most_ret | apply at_most_raise].
Qed.

Lemma embed_budget b text :
  (weight p (GetEmbeddings text) <= b)%nat -> at_most p (3 * b) (embed_text E text).
Proof.
  intros Hb. apply (at_most_retry p _ 2 1 b); [auto|].
  apply (at_most_bind _ b 0); [apply at_most_remote, weight_bound, Hb| |lia].
  intros [|v l]; [apply at_most_raise | apply at_most_ret].
Qed.

Lemma upsert_budget b vector doc_id meta :
  (forall dps, weight p (UpsertDatapoints dps) <= b)%nat ->
  at_most p (3 * b) (upsert_vector E vector doc_id meta).
Proof.
  intros Hb. apply (at_most_retry p _ 2 1 b); [auto|].
  apply at_most_faulty, weight_bound, Hb.
Qed.

Lemma poll_budget b operation_url remaining :
  (weight p (OperationGet operation_url) <= b)%nat ->
  at_most p (remaining * b) (poll_loop E operation_url remaining).
Proof.
  intros Hb.
  induction remaining as [|remaining IH]; cbn [poll_loop]; [apply at_most_raise|].
  apply (at_most_bind _ b (remaining * b)); [| |lia].
  - apply at_most_remote, weight_bound, Hb.
  - intros r. destruct (negb _); [eapply at_most_le; [|apply at_most_raise]; lia|].
    destruct (poll_json r) as [o|]; [|eapply at_most_le; [|apply at_most_raise]; lia].
    destruct (done o).
    + destruct (op_error o); eapply at_most_le;
        [|apply at_most_raise| |apply at_most_ret]; lia.
    + apply (at_most_bind _ 0 (remaining * b));
        [apply at_most_quiet, quiet_sleep | intros; exact IH | lia].
Qed.

Lemma ingest_budget bt bp bs text meta :
  (weight p GetAccessToken <= bt)%nat ->
  (forall uri, weight p (ImportPost uri) <= bp)%nat ->
  (forall u, weight p (OperationGet u) <= bs)%nat ->
  at_most p (5 * (bt + bp + max_poll_attempts * bs)) (ingest_to_rag E text meta).
Proof.
  intros Ht Hp Hs.
  apply (at_most_retry p _ 4 1 (bt + bp + max_poll_attempts * bs)); [auto|].
  unfold ingest_attempt.
  apply (at_most_bind _ bt (bp + max_poll_attempts * bs));
    [apply at_most_faulty, weight_bound, Ht| |lia].
  intros _.
  apply (at_most_bind _ bp (max_poll_attempts * bs));
    [apply at_most_remote, weight_bound, Hp| |lia].
  intros r.
  destruct (_ && _); [eapply at_most_le; [|apply at_most_raise]; lia|].
  destruct (negb _); [eapply at_most_le; [|apply at_most_raise]; lia|].
  destruct (operation_name r) as [name|];
    [|eapply at_most_le; [|apply at_most_raise]; lia].
  destruct (negb _); [eapply at_most_le; [|apply at_most_raise]; lia|].
  apply (at_most_bind _ (max_poll_attempts * bs) 0);
    [apply poll_budget, Hs | intros; apply at_most_ret | lia].
Qed.

Context (get upload token post status embed upsert : nat).

Hypothesis get_weight : forall u, (weight p (HttpGet u) <= get)%nat.
Hypothesis upload_weight : forall path b, (weight p (BlobUpload path b) <= upload)%nat.
Hypothesis token_weight : (weight p GetAccessToken <= token)%nat.
Hypothesis post_weight : forall uri, (weight p (ImportPost uri) <= post)%nat.
Hypothesis status_weight : forall u, (weight p (OperationGet u) <= status)%nat.
Hypothesis embed_weight : forall text, (weight p (GetEmbeddings text) <= embed)%nat.
Hypothesis upsert_weight : forall dps, (weight p (UpsertDatapoints dps) <= upsert)%nat.

Lemma upload_file_budget path content : at_most p (3 * upload) (upload_file E path content).
Proof. apply store_budget, upload_weight. Qed.

Lemma article_steps_budget feed_name folder it item_id :
  at_most p (3 * get
             + (3 * upload
                + (3 * upload
                   + (5 * (token + post + max_poll_attempts * status)
                      + (3 * embed + 3 * upsert)))))
    (article_steps E feed_name folder it item_id).
Proof.
  unfold article_steps, log_structured, sleep, now.
  destruct (negb (truthy (link it))).
  { apply (at_most_le _ 0); [lia|].
    apply (at_most_bind _ 0 0);
      [apply at_most_quiet, quiet_log | intros; apply at_most_ret | lia]. }
  eapply (at_most_bind _ 0); [apply at_most_quiet, quiet_log| |exact (le_n _)]. intros _.
  eapply (at_most_bind _ (3 * get));
    [apply (fetch_budget get), get_weight| |exact (le_n _)].
  intros html.
  eapply (at_most_bind _ (3 * upload)); [apply upload_file_budget| |exact (le_n _)]. intros _.
  eapply (at_most_bind _ 0); [apply at_most_quiet, quiet_log| |exact (le_n _)]. intros _.
  eapply (at_most_bind _ 0).
  { apply (at_most_bind _ 0 0); [apply at_most_next_tick | intros; apply at_most_ret | lia]. }
  2: exact (le_n _).
  intros t.
  eapply (at_most_bind _ 0).
  { unfold clean_html. destruct (truthy html); [|apply at_most_ret].
    destruct (extract_text E html); [apply at_most_ret | apply at_most_raise]. }
  2: exact (le_n _).
  intros clean_text.
  destruct (_ || _).
  { apply (at_most_le _ 0); [lia|].
    apply (at_most_bind _ 0 0);
      [apply at_most_quiet, quiet_log | intros; apply at_most_ret | lia]. }
  eapply (at_most_bind _ (3 * upload)); [apply upload_file_budget| |exact (le_n _)]. intros _.
  eapply (at_most_bind _ 0); [apply at_most_quiet, quiet_log| |exact (le_n _)]. intros _.
  eapply (at_most_bind _ 0); [apply at_most_quiet, quiet_log| |exact (le_n _)]. intros _.
  eapply (at_most_bind _ (5 * (token + post + max_poll_attempts * status)));
    [now apply ingest_budget| |exact (le_n _)].
  intros _.
  eapply (at_most_bind _ 0); [apply at_most_quiet, quiet_log| |exact (le_n _)]. intros _.
  eapply (at_most_bind _ 0); [apply at_most_quiet, quiet_sleep| |exact (le_n _)]. intros _.
  eapply (at_most_bind _ 0); [apply at_most_quiet, quiet_log| |exact (le_n _)]. intros _.
  eapply (at_most_bind _ (3 * embed)); [apply embed_budget, embed_weight| |exact (le_n _)].
  intros embedding.
  eapply (at_most_bind _ 0); [apply at_most_quiet, quiet_log| |exact (le_n _)]. intros _.
  apply (at_most_bind _ (3 * upsert) 0); [apply upsert_budget, upsert_weight| |lia].
  intros _.
  apply (at_most_bind _ 0 0); [apply at_most_quiet, quiet_log | intros; apply at_most_ret | lia].
Qed.

Lemma item_body_budget feed_name folder it item_id :
  at_most p (item_budget get upload token post status embed upsert)
    (item_body E feed_name folder it item_id).
Proof.
  unfold item_body, log_structured, item_budget.
  eapply (at_most_bind _ 0); [apply at_most_quiet, quiet_log| |exact (le_n _)]. intros _.
  eapply (at_most_bind _ (3 * upload)); [apply upload_file_budget| |exact (le_n _)]. intros _.
  eapply (at_most_bind _ 0); [apply at_most_quiet, quiet_log| |exact (le_n _)]. intros _.
  apply article_steps_budget.
Qed.

Lemma loop_step_budget feed_name folder ls it :
  at_most p (item_budget get upload token post status embed upsert)
    (loop_step E feed_name folder ls it).
Proof.
  intros w. rewrite loop_step_run. cbn zeta.
  pose proof (item_body_budget feed_name folder it
                (item_id_at E (identity_of it) (utcnow E (tick w)))
                (snd (make_item_id E it w))) as Hb.
  destruct (item_body _ _ _ _ _ _) as [r w2]. cbn [snd] in *.
  rewrite count_logged.
  assert (count p (exit_log (item_id_at E (identity_of it) (utcnow E (tick w))) r) = 0%nat)
    as ->.
  { destruct r as [[]|e]; unfold count; cbn; rewrite ?quiet_log; reflexivity. }
  assert (trace (snd (make_item_id E it w)) = trace w) as Ht.
  { rewrite make_item_id_run. cbn [snd]. now destruct (degenerate _ _). }
  rewrite Ht in Hb. lia.
Qed.

Lemma for_items_budget feed_name folder new_items :
  forall ls,
    at_most p (length new_items * item_budget get upload token post status embed upsert)
      (for_items E feed_name folder new_items ls).
Proof.
  induction new_items as [|it rest IH]; intros ls; cbn [for_items length].
  - apply at_most_ret.
  - apply (at_most_bind _ (item_budget get upload token post status embed upsert)
             (length rest * item_budget get upload token post status embed upsert));
      [apply loop_step_budget | intros; apply IH | lia].
Qed.

End Budgets.

(** Whatever the services do, one call of an adapter stays within its retry
    policy: at most 3 GETs for a feed or an article, 6 storage reads for
    [read_json], 3 uploads for [write_json] and for [upload_file], 3 calls of
    the embedding model and 3 upserts. *)
Theorem adapter_budgets E url blob_path data content text vector doc_id meta :
  at_most is_http_get 3 (fetch_rss E url)
  /\ at_most is_http_get 3 (fetch_html E url)
  /\ at_most is_store_read 6 (read_json E blob_path)
  /\ at_most is_upload 3 (write_json E blob_path data)
  /\ at_most is_upload 3 (upload_file E blob_path content)
  /\ at_most is_embedding_call 3 (embed_text E text)
  /\ at_most is_upsert_call 3 (upsert_vector E vector doc_id meta).
Proof.
  repeat split.
  - apply (fetch_budget E is_http_get ltac:(reflexivity) 1 url). cbv. lia.
  - apply (fetch_budget E is_http_get ltac:(reflexivity) 1 url). cbv. lia.
  - apply (read_json_budget E is_store_read ltac:(reflexivity) 1); cbv; lia.
  - apply (store_budget E is_upload ltac:(reflexivity) 1). cbv. lia.
  - apply (store_budget E is_upload ltac:(reflexivity) 1). cbv. lia.
  - apply (embed_budget E is_embedding_call ltac:(reflexivity) 1). cbv. lia.
  - apply (upsert_budget E is_upsert_call ltac:(reflexivity) 1). intros. cbv. lia.
Qed.

Ltac item_budget_for p g u t po s e v :=
  eapply at_most_le;
    [|apply (for_items_budget _ p ltac:(reflexivity) ltac:(reflexivity)
               ltac:(reflexivity) g u t po s e v);
        intros; cbv; lia];
    apply Nat.mul_le_mono_l; vm_compute; lia.

(** The work a pass can cause is linear in the number of new items: for each
    item at most 3 article GETs, 9 uploads, 5 import submissions, 600 status
    checks, 3 embedding calls and 3 upserts, and at most 628 remote calls in
    all. *)
Theorem item_loop_budget E feed_name folder new_items ls :
  let loop := for_items E feed_name folder new_items ls in
  let n := length new_items in
  at_most is_http_get (n * 3) loop
  /\ at_most is_upload (n * 9) loop
  /\ at_most is_import_post (n * 5) loop
  /\ at_most is_status_check (n * 600) loop
  /\ at_most is_embedding_call (n * 3) loop
  /\ at_most is_upsert_call (n * 3) loop
  /\ at_most is_remote_call (n * 628) loop.
Proof.
  intros loop n. subst loop n. repeat split.
  - item_budget_for is_http_get 1%nat 0%nat 0%nat 0%nat 0%nat 0%nat 0%nat.
  - item_budget_for is_upload 0%nat 1%nat 0%nat 0%nat 0%nat 0%nat 0%nat.
  - item_budget_for is_import_post 0%nat 0%nat 0%nat 1%nat 0%nat 0%nat 0%nat.
  - item_budget_for is_status_check 0%nat 0%nat 0%nat 0%nat 1%nat 0%nat 0%nat.
  - item_budget_for is_embedding_call 0%nat 0%nat 0%nat 0%nat 0%nat 1%nat 0%nat.
  - item_budget_for is_upsert_call 0%nat 0%nat 0%nat 0%nat 0%nat 0%nat 1%nat.
  - item_budget_for is_remote_call 1%nat 1%nat 1%nat 1%nat 1%nat 1%nat 1%nat.
Qed.

(** ** What a computation does to the world *)

Section Steps.

Context (R : world -> world -> Prop).

Hypothesis R_refl : forall w, R w w.
Hypothesis R_trans : forall w1 w2 w3, R w1 w2 -> R w2 w3 -> R w1 w3.
Hypothesis R_tick : forall w, R w {| tick := S (tick w); bucket := bucket w; trace := trace w |}.
Hypothesis R_emit : forall e w, R w (logged [e] w).

(** The paths at which a store is compatible with [R]. *)
Context (allowed : pystr -> Prop).

Hypothesis R_put : forall path b w,
  allowed path ->
  R w {| tick := tick w; bucket := <[path := b]> (bucket w); trace := trace w |}.

Lemma steps_ret {A} (a : A) : steps R (ret a).
Proof. intros w. apply R_refl. Qed.

Lemma steps_raise {A} e : steps R (@raise A e).
Proof. intros w. apply R_refl. Qed.

Lemma steps_next_tick : steps R next_tick.
Proof. intros w. apply R_tick. Qed.

Lemma steps_emit e : steps R (emit e).
Proof. intros w. apply R_emit. Qed.

Lemma steps_get_blob path : steps R (get_blob path).
Proof. intros w. apply R_refl. Qed.

Lemma steps_put_blob path b : allowed path -> steps R (put_blob path b).
Proof. intros H w. now apply R_put. Qed.

Lemma steps_bind {A B} (m : M A) (k : A -> M B) :
  steps R m -> (forall a, steps R (k a)) -> steps R (bind m k).
Proof.
  intros Hm Hk w. unfold bind. specialize (Hm w).
  destruct (m w) as [[a|e] w1]; cbn [snd] in *; [|exact Hm].
  eapply R_trans; [exact Hm | apply Hk].
Qed.

Lemma steps_try {A} (m : M A) : steps R m -> steps R (try_ m).
Proof. intros Hm w. rewrite try_run. apply Hm. Qed.

Lemma steps_retry {A} retryable n k (f : M A) :
  steps R f -> steps R (retry_ retryable n k f).
Proof.
  intros Hf. revert k. induction n as [|n IH]; intros k; cbn [retry_].
  - apply steps_bind; [now apply steps_try|].
    intros [a|e]; [apply steps_ret|]. destruct (retryable e); apply steps_raise.
  - apply steps_bind; [now apply steps_try|].
    intros [a|e]; [apply steps_ret|].
    destruct (retryable e); [|apply steps_raise].
    destruct n; [apply steps_raise|].
    apply steps_bind; [apply steps_emit | intros; apply IH].
Qed.

Lemma steps_faulty fault c : steps R (faulty fault c).
Proof.
  unfold faulty. apply steps_bind; [apply steps_next_tick|]. intros t.
  destruct (fault t); [|apply steps_emit].
  apply steps_bind; [apply steps_emit | intros; apply steps_raise].
Qed.

Lemma steps_remote {A} (oracle : nat -> result A) c : steps R (remote oracle c).
Proof.
  unfold remote. apply steps_bind; [apply steps_next_tick|]. intros t.
  destruct (oracle t); apply steps_bind;
    first [apply steps_emit | intros; apply steps_ret | intros; apply steps_raise].
Qed.

Ltac steps_step :=
  first
    [ apply steps_ret | apply steps_raise | apply steps_next_tick
    | apply steps_get_blob | apply steps_emit
    | apply steps_faulty | apply steps_remote
    | apply steps_try | apply steps_retry
    | apply steps_bind; [|intros]
    | match goal with
      | |- steps _ (match ?x with _ => _ end) => destruct x
      | |- steps _ (if ?b then _ else _) => destruct b
      end ].

Context (E : env).

Lemma steps_fetch_rss url : steps R (fetch_rss E url).
Proof. unfold fetch_rss, raise_for_status. repeat steps_step. Qed.

Lemma steps_fetch_html url : steps R (fetch_html E url).
Proof. unfold fetch_html, raise_for_status. repeat steps_step. Qed.

Lemma steps_parse_rss xml : steps R (parse_rss E xml).
Proof. unfold parse_rss. repeat steps_step. Qed.

Lemma steps_read_json_attempt path : steps R (read_json_attempt E path).
Proof. unfold read_json_attempt. repeat steps_step. Qed.

Lemma steps_read_json path : steps R (read_json E path).
Proof. unfold read_json. apply steps_retry, steps_read_json_attempt. Qed.

Lemma steps_clean_html html meta : steps R (clean_html E html meta).
Proof. unfold clean_html. repeat steps_step. Qed.

Lemma steps_poll_loop operation_url remaining :
  steps R (poll_loop E operation_url remaining).
Proof.
  induction remaining as [|remaining IH]; cbn [poll_loop]; [apply steps_raise|].
  unfold sleep. repeat first [exact IH | steps_step].
Qed.

Lemma steps_ingest_to_rag text meta : steps R (ingest_to_rag E text meta).
Proof.
  unfold ingest_to_rag, ingest_attempt.
  repeat first [apply steps_poll_loop | steps_step].
Qed.

Lemma steps_embed_text text : steps R (embed_text E text).
Proof. unfold embed_text. repeat steps_step. Qed.

Lemma steps_upsert_vector vector doc_id meta :
  steps R (upsert_vector E vector doc_id meta).
Proof. unfold upsert_vector. repeat steps_step. Qed.

Lemma steps_make_item_id it : steps R (make_item_id E it).
Proof. unfold make_item_id, now. repeat steps_step. Qed.

Lemma steps_detect_new_items feed_name feed_config :
  steps R (detect_new_items E feed_name feed_config).
Proof.
  unfold detect_new_items, log_structured.
  repeat first
    [ apply steps_fetch_rss | apply steps_parse_rss | apply steps_read_json
    | steps_step ].
Qed.

Lemma steps_upload_file path content :
  allowed path -> steps R (upload_file E path content).
Proof.
  intros H. unfold upload_file.
  repeat first [now apply steps_put_blob | steps_step].
Qed.

Lemma steps_write_json path data : allowed path -> steps R (write_json E path data).
Proof.
  intros H. unfold write_json.
  repeat first [now apply steps_put_blob | steps_step].
Qed.

Context (dir : pystr).

Hypothesis allowed_artifacts : forall item_id,
  allowed (raw_xml_path dir item_id)
  /\ allowed (raw_html_path dir item_id)
  /\ allowed (clean_text_path dir item_id).

Lemma steps_article_steps feed_name it item_id :
  steps R (article_steps E feed_name dir it item_id).
Proof.
  destruct (allowed_artifacts item_id) as (_ & Hh & Hc).
  unfold article_steps, log_structured, sleep, now.
  repeat first
    [ apply steps_upload_file; assumption
    | apply steps_fetch_html | apply steps_clean_html
    | apply steps_ingest_to_rag | apply steps_embed_text | apply steps_upsert_vector
    | steps_step ].
Qed.

Lemma steps_item_body feed_name it item_id :
  steps R (item_body E feed_name dir it item_id).
Proof.
  destruct (allowed_artifacts item_id) as (Hx & _ & _).
  unfold item_body, log_structured.
  repeat first
    [ apply steps_upload_file; assumption | apply steps_article_steps | steps_step ].
Qed.

Lemma steps_loop_step feed_name ls it : steps R (loop_step E feed_name dir ls it).
Proof.
  unfold loop_step, log_structured.
  repeat first [ apply steps_make_item_id | apply steps_item_body | steps_step ].
Qed.

Lemma steps_for_items feed_name new_items :
  forall ls, steps R (for_items E feed_name dir new_items ls).
Proof.
  induction new_items as [|it rest IH]; intros ls; cbn [for_items].
  - apply steps_ret.
  - apply steps_bind; [apply steps_loop_step | intros; apply IH].
Qed.

Hypothesis allowed_ids : allowed (processed_ids_path dir).

Lemma steps_update_processed_ids processed_ids new_ids :
  steps R (update_processed_ids E dir processed_ids new_ids).
Proof.
  unfold update_processed_ids, log_structured.
  repeat first [ apply steps_write_json; assumption | steps_step ].
Qed.

Lemma steps_process_feed feed_name feed_config :
  folder feed_config = dir ->
  steps R (process_feed E feed_name feed_config).
Proof.
  intros Hf. unfold process_feed, feed_pass, process_new_items, log_structured.
  rewrite Hf.
  repeat first
    [ apply steps_detect_new_items | apply steps_for_items
    | apply steps_update_processed_ids | steps_step ].
Qed.

End Steps.

(** ** Who writes to the bucket, and where *)

Lemma same_bucket_refl w : same_bucket w w.
Proof. reflexivity. Qed.

Lemma same_bucket_trans w1 w2 w3 :
  same_bucket w1 w2 -> same_bucket w2 w3 -> same_bucket w1 w3.
Proof. unfold same_bucket. congruence. Qed.

Lemma same_bucket_tick w :
  same_bucket w {| tick := S (tick w); bucket := bucket w; trace := trace w |}.
Proof. reflexivity. Qed.

Lemma same_bucket_emit e w : same_bucket w (logged [e] w).
Proof. reflexivity. Qed.

(** Fetching, parsing, loading the processed ids, detecting the new items,
    the corpus import, the embedding and the vector upsert leave the bucket
    as it is, whatever they return: only [upload_file] and [write_json]
    write. *)
Theorem read_only_adapters E feed_name feed_config url blob_path text meta
    vector doc_id w :
  bucket (snd (fetch_rss E url w)) = bucket w
  /\ bucket (snd (fetch_html E url w)) = bucket w
  /\ bucket (snd (read_json E blob_path w)) = bucket w
  /\ bucket (snd (detect_new_items E feed_name feed_config w)) = bucket w
  /\ bucket (snd (ingest_to_rag E text meta w)) = bucket w
  /\ bucket (snd (embed_text E text w)) = bucket w
  /\ bucket (snd (upsert_vector E vector doc_id meta w)) = bucket w.
Proof.
  repeat split.
  - apply (steps_fetch_rss same_bucket same_bucket_refl same_bucket_trans
             same_bucket_tick same_bucket_emit).
  - apply (steps_fetch_html same_bucket same_bucket_refl same_bucket_trans
             same_bucket_tick same_bucket_emit).
  - apply (steps_read_json same_bucket same_bucket_refl same_bucket_trans
             same_bucket_tick same_bucket_emit).
  - apply (steps_detect_new_items same_bucket same_bucket_refl same_bucket_trans
             same_bucket_tick same_bucket_emit).
  - apply (steps_ingest_to_rag same_bucket same_bucket_refl same_bucket_trans
             same_bucket_tick same_bucket_emit).
  - apply (steps_embed_text same_bucket same_bucket_refl same_bucket_trans
             same_bucket_tick same_bucket_emit).
  - apply (steps_upsert_vector same_bucket same_bucket_refl same_bucket_trans
             same_bucket_tick same_bucket_emit).
Qed.

Section Frame.

Context (path : pystr).

Lemma same_at_refl w : same_at path w w.
Proof. reflexivity. Qed.

Lemma same_at_trans w1 w2 w3 :
  same_at path w1 w2 -> same_at path w2 w3 -> same_at path w1 w3.
Proof. unfold same_at. congruence. Qed.

Lemma same_at_tick w :
  same_at path w {| tick := S (tick w); bucket := bucket w; trace := trace w |}.
Proof. reflexivity. Qed.

Lemma same_at_emit e w : same_at path w (logged [e] w).
Proof. reflexivity. Qed.

Lemma same_at_put q b w :
  q <> path ->
  same_at path w {| tick := tick w; bucket := <[q := b]> (bucket w); trace := trace w |}.
Proof. intros H. unfold same_at. cbn [bucket]. now apply lookup_insert_ne. Qed.

(** A pass over a feed leaves every path alone that is not one of the
    feed's. *)
Lemma process_feed_frame E feed_name feed_config :
  ~ feed_paths (folder feed_config) path ->
  steps (same_at path) (process_feed E feed_name feed_config).
Proof.
  intros Hp.
  apply (steps_process_feed (same_at path) same_at_refl same_at_trans same_at_tick
           same_at_emit (fun q => q <> path) same_at_put E (folder feed_config)).
  - intros item_id. repeat split; intros H; apply Hp; right; exists item_id; auto.
  - intros H. apply Hp. now left.
  - reflexivity.
Qed.

Lemma for_feeds_frame E feeds :
  (forall feed_name feed_config,
     (feed_name, feed_config) ∈ feeds -> ~ feed_paths (folder feed_config) path) ->
  steps (same_at path) (for_feeds E feeds).
Proof.
  induction feeds as [|[n c] feeds IH]; intros H; cbn [for_feeds].
  - apply (steps_ret _ same_at_refl).
  - apply (steps_bind _ same_at_trans).
    + apply process_feed_frame, (H n c). now left.
    + intros _. apply IH. intros n' c' Hin. apply (H n' c'). now right.
Qed.

Lemma main_frame E :
  (forall feed_name feed_config,
     (feed_name, feed_config) ∈ RSS_FEEDS E -> ~ feed_paths (folder feed_config) path) ->
  steps (same_at path) (main E).
Proof.
  intros H. unfold main, log_structured.
  apply (steps_bind _ same_at_trans); [apply (steps_emit _ same_at_emit)|]. intros _.
  apply (steps_bind _ same_at_trans).
  - apply steps_try.
    apply (steps_bind _ same_at_trans);
      [apply (steps_faulty _ same_at_refl same_at_trans same_at_tick same_at_emit)|].
    intros _.
    apply (steps_bind _ same_at_trans); [now apply for_feeds_frame|]. intros _.
    apply (steps_emit _ same_at_emit).
  - intros [a|e]; [apply (steps_ret _ same_at_refl)|].
    apply (steps_bind _ same_at_trans); [apply (steps_emit _ same_at_emit)|]. intros _.
    apply (steps_ret _ same_at_refl).
Qed.

End Frame.

Lemma feed_paths_under folder path : feed_paths folder path -> under folder path.
Proof.
  intros [-> | (item_id & [-> | [-> | ->]])]; eexists; reflexivity.
Qed.

(** A pass over a feed writes nowhere but at that feed's processed-ids path
    and at the three artifact paths of its items, all of them below the
    feed's folder; a whole job writes nowhere but below the folders of the
    configured feeds.  Every other blob is after the run what it was
    before. *)
Theorem writes_stay_under_feed_folder E path :
  (forall feed_name feed_config w,
     ~ feed_paths (folder feed_config) path ->
     bucket (snd (process_feed E feed_name feed_config w)) !! path = bucket w !! path)
  /\ (forall folder, feed_paths folder path -> under folder path)
  /\ (forall w,
        (forall feed_name feed_config,
           (feed_name, feed_config) ∈ RSS_FEEDS E -> ~ under (folder feed_config) path) ->
        bucket (snd (main E w)) !! path = bucket w !! path).
Proof.
  split; [|split].
  - intros feed_name feed_config w H. now apply process_feed_frame.
  - intros folder. apply feed_paths_under.
  - intros w H. apply main_frame. intros n c Hin Hp.
    apply (H n c Hin). now apply feed_paths_under.
Qed.

(** A blob of another tenant of the bucket survives a whole job of the
    healthy deployment. *)
Lemma writes_stay_under_feed_folder_witness :
  bucket (snd (main healthy
                 {| tick := 0; bucket := {[ str "other/data.bin" := Payload (str "x") ]};
                    trace := [] |}))
    !! str "other/data.bin"
  = Some (Payload (str "x")).
Proof.
  destruct (writes_stay_under_feed_folder healthy (str "other/data.bin")) as (_ & _ & H).
  rewrite H; [reflexivity|].
  intros n c Hin [rest Hrest].
  apply list_elem_of_singleton in Hin. injection Hin as -> ->.
  discriminate Hrest.
Defined.

Lemma artifact_not_processed_ids folder item_id :
  raw_xml_path folder item_id <> processed_ids_path folder
  /\ raw_html_path folder item_id <> processed_ids_path folder
  /\ clean_text_path folder item_id <> processed_ids_path folder.
Proof.
  unfold raw_xml_path, raw_html_path, clean_text_path, processed_ids_path.
  repeat split; intros H; apply app_inv_head in H; discriminate H.
Qed.

(** The item loop never touches the processed-ids object: no artifact path
    is the processed-ids path of the feed, so however many items are
    processed, what is stored there after the loop is what was there
    before. *)
Theorem item_loop_keeps_processed_ids E feed_name folder new_items ls w :
  (forall item_id,
     raw_xml_path folder item_id <> processed_ids_path folder
     /\ raw_html_path folder item_id <> processed_ids_path folder
     /\ clean_text_path folder item_id <> processed_ids_path folder)
  /\ bucket (snd (for_items E feed_name folder new_items ls w))
       !! processed_ids_path folder
     = bucket w !! processed_ids_path folder.
Proof.
  split; [intros; apply artifact_not_processed_ids|].
  apply (steps_for_items (same_at (processed_ids_path folder))
           (same_at_refl _) (same_at_trans _) (same_at_tick _) (same_at_emit _)
           (fun q => q <> processed_ids_path folder) (same_at_put _) E folder).
  intros item_id. apply artifact_not_processed_ids.
Qed.

(** ** Reading and writing JSON objects *)

(** A retried body that returned did so in its last attempt, started in a
    world that the earlier attempts and their backoffs lead to. *)
Lemma retry_ok_inv {A} (R : world -> world -> Prop) retryable (f : M A) :
  (forall w, R w w) ->
  (forall w1 w2 w3, R w1 w2 -> R w2 w3 -> R w1 w3) ->
  (forall e w, R w (logged [e] w)) ->
  steps R f ->
  forall n k w a w',
    retry_ retryable n k f w = (Ok a, w') ->
    exists w1, R w w1 /\ f w1 = (Ok a, w').
Proof.
  intros Hrefl Htrans Hemit Hf.
  induction n as [|n IH]; intros k w a w'; cbn [retry_]; unfold bind at 1;
    rewrite try_run; pose proof (Hf w) as Hw;
    destruct (f w) as [[a0|e] w0] eqn:Hfw; cbn [fst snd] in *.
  - intros H. injection H as <- <-. now exists w.
  - destruct (retryable e); discriminate.
  - intros H. injection H as <- <-. now exists w.
  - destruct (retryable e); [|discriminate].
    destruct n; [discriminate|].
    unfold bind at 1. rewrite emit_run. intros H.
    apply IH in H as (w1 & HR & H1). exists w1. split; [|exact H1].
    eapply Htrans; [exact Hw|]. eapply Htrans; [apply Hemit | exact HR].
Qed.

(** One attempt of [read_json], before its handlers. *)
Lemma read_body_run E blob_path w :
  (faulty (storage_fault E) (BlobExists blob_path) ;;;
   let* b := get_blob blob_path in
   match b with
   | None => ret None
   | Some b =>
       faulty (storage_fault E) (BlobDownload blob_path) ;;;
       match b with
       | Json data => ret (Some data)
       | Payload _ => raise ValueError
       end
   end) w
  = let w1 ok := {| tick := S (tick w); bucket := bucket w;
                    trace := Called (BlobExists blob_path) ok :: trace w |} in
    let w2 ok := {| tick := S (S (tick w)); bucket := bucket w;
                    trace := Called (BlobDownload blob_path) ok
                             :: Called (BlobExists blob_path) true :: trace w |} in
    match storage_fault E (tick w) with
    | Some e => (Raise e, w1 false)
    | None =>
        match bucket w !! blob_path with
        | None => (Ok None, w1 true)
        | Some b =>
            match storage_fault E (S (tick w)) with
            | Some e => (Raise e, w2 false)
            | None =>
                match b with
                | Json data => (Ok (Some data), w2 true)
                | Payload _ => (Raise ValueError, w2 true)
                end
            end
        end
    end.
Proof.
  unfold faulty, bind, next_tick, get_blob. cbn.
  destruct (storage_fault E (tick w)); [reflexivity|]. cbn.
  destruct (bucket w !! blob_path) as [b|]; [|reflexivity]. cbn.
  destruct (storage_fault E (S (tick w))); [reflexivity|]. cbn.
  now destruct b.
Qed.

Lemma read_json_attempt_some E blob_path w data w' :
  read_json_attempt E blob_path w = (Ok (Some data), w') ->
  bucket w !! blob_path = Some (Json data).
Proof.
  unfold read_json_attempt. unfold bind at 1. rewrite try_run, read_body_run. cbn zeta.
  destruct (storage_fault E (tick w)) as [e|]; cbn [fst snd].
  { destruct e; cbn; discriminate. }
  destruct (bucket w !! blob_path) as [b|]; [|discriminate].
  destruct (storage_fault E (S (tick w))) as [e|]; cbn [fst snd].
  { destruct e; cbn; discriminate. }
  destruct b; cbn; [|discriminate]. intros H. now injection H as <- _.
Qed.

Lemma read_json_attempt_missing E blob_path w :
  bucket w !! blob_path = None ->
  storage_fault E (tick w) = None ->
  read_json_attempt E blob_path w
  = (Ok None, {| tick := S (tick w); bucket := bucket w;
                 trace := Called (BlobExists blob_path) true :: trace w |}).
Proof.
  intros Hb Hf. unfold read_json_attempt. unfold bind at 1.
  rewrite try_run, read_body_run. cbn zeta. now rewrite Hf, Hb.
Qed.

Lemma read_json_some E blob_path w data w' :
  read_json E blob_path w = (Ok (Some data), w') ->
  bucket w !! blob_path = Some (Json data).
Proof.
  intros H. unfold read_json in H.
  apply (retry_ok_inv same_bucket) in H as (w1 & HR & H1).
  - apply read_json_attempt_some in H1. now rewrite <- HR.
  - apply same_bucket_refl.
  - apply same_bucket_trans.
  - apply same_bucket_emit.
  - apply (steps_read_json_attempt same_bucket same_bucket_refl same_bucket_trans
             same_bucket_tick same_bucket_emit).
Qed.

(** [read_json] returns an object only if the bucket holds that object at
    the path; a missing blob is not an error: without a storage fault the
    answer is [None] after a single existence check, and with faults it is
    [None] or [RetryError], never an object. *)
Theorem read_json_sound E blob_path w :
  (forall data w',
     read_json E blob_path w = (Ok (Some data), w') ->
     bucket w !! blob_path = Some (Json data))
  /\ (bucket w !! blob_path = None ->
      (storage_fault E (tick w) = None ->
       read_json E blob_path w
       = (Ok None, {| tick := S (tick w); bucket := bucket w;
                      trace := Called (BlobExists blob_path) true :: trace w |}))
      /\ match fst (read_json E blob_path w) with
         | Ok None | Raise (RetryError _) => True
         | _ => False
         end).
Proof.
  split; [intros data w'; apply read_json_some|].
  intros Hb. split.
  - intros Hf. unfold read_json. cbn [retry_]. unfold bind at 1. rewrite try_run.
    now rewrite (read_json_attempt_missing E blob_path w Hb Hf).
  - pose proof (retry_all_result (read_json_attempt E blob_path) 3 1 w) as Hr.
    fold (read_json E blob_path) in Hr.
    destruct (read_json E blob_path w) as [[[d|]|e] w'] eqn:Hrun; cbn [fst] in *;
      try exact I; try exact Hr.
    apply read_json_some in Hrun. congruence.
Qed.

(** The first run of a feed: no processed-ids object yet. *)
Lemma read_json_sound_witness :
  read_json healthy (processed_ids_path (str "dev")) start
  = (Ok None, {| tick := 1; bucket := ∅;
                 trace := [Called (BlobExists (processed_ids_path (str "dev"))) true] |}).
Proof.
  destruct (read_json_sound healthy (processed_ids_path (str "dev")) start) as [_ H].
  destruct (H eq_refl) as [H1 _]. exact (H1 eq_refl).
Defined.

(** What [write_json] has written, [read_json] reads back: any object it
    returns is the written one, and without a storage fault at its two calls
    it returns it. *)
Theorem write_then_read_json E blob_path data w w1 :
  write_json E blob_path data w = (Ok tt, w1) ->
  (forall data' w2,
     read_json E blob_path w1 = (Ok (Some data'), w2) -> data' = data)
  /\ (storage_fault E (tick w1) = None ->
      storage_fault E (S (tick w1)) = None ->
      fst (read_json E blob_path w1) = Ok (Some data)).
Proof.
  intros Hw. apply write_json_ok in Hw as [Hb _]. split.
  - intros data' w2 H. apply read_json_some in H. congruence.
  - intros H1 H2. unfold read_json. cbn [retry_]. unfold bind at 1.
    rewrite try_run. unfold read_json_attempt. unfold bind at 1.
    rewrite try_run, read_body_run. cbn zeta. now rewrite H1, Hb, H2.
Qed.

Lemma write_then_read_json_witness :
  fst (read_json healthy (str "dev/processed_ids.json")
         (snd (write_json healthy (str "dev/processed_ids.json")
                 {| doc_ids := Some [str "post-7"]; doc_rest := [] |} start)))
  = Ok (Some {| doc_ids := Some [str "post-7"]; doc_rest := [] |}).
Proof.
  destruct (write_then_read_json healthy (str "dev/processed_ids.json")
              {| doc_ids := Some [str "post-7"]; doc_rest := [] |} start
              (snd (write_json healthy (str "dev/processed_ids.json")
                      {| doc_ids := Some [str "post-7"]; doc_rest := [] |} start))
              eq_refl) as [_ H].
  exact (H eq_refl eq_refl).
Defined.

(** A store is all or nothing: [upload_file] and [write_json] either return,
    and the bucket is the old one with the blob at the path, or raise
    [RetryError], and the bucket is the old one. *)
Theorem store_all_or_nothing E blob_path content data w :
  (forall r w',
     upload_file E blob_path content w = (r, w') ->
     (r = Ok tt /\ bucket w' = <[blob_path := Payload content]> (bucket w))
     \/ ((exists e, r = Raise (RetryError e)) /\ bucket w' = bucket w))
  /\ (forall r w',
        write_json E blob_path data w = (r, w') ->
        (r = Ok tt /\ bucket w' = <[blob_path := Json data]> (bucket w))
        \/ ((exists e, r = Raise (RetryError e)) /\ bucket w' = bucket w)).
Proof.
  split; intros r w' H;
    apply store_retry_run in H as [(Hr & Hb & _)|(Hr & Hb & _)]; auto.
Qed.

(** The storage of the healthy deployment takes the blob at once. *)
Lemma store_all_or_nothing_witness :
  bucket (snd (upload_file healthy (str "dev/clean/post-7.txt") (str "text") start))
  = <[str "dev/clean/post-7.txt" := Payload (str "text")]> ∅.
Proof.
  destruct (store_all_or_nothing healthy (str "dev/clean/post-7.txt") (str "text")
              empty_doc start) as [H _].
  destruct (H _ _ eq_refl) as [[_ Hb]|[[e He] _]]; [exact Hb | discriminate He].
Defined.

(** ** The corpus import, step by step *)

(** One iteration of the poll loop. *)
Lemma poll_loop_step E operation_url remaining w :
  poll_loop E operation_url (S remaining) w
  = let w1 ok := {| tick := S (tick w); bucket := bucket w;
                    trace := Called (OperationGet operation_url) ok :: trace w |} in
    match requests_get E (tick w) operation_url with
    | Raise e => (Raise e, w1 false)
    | Ok p =>
        if negb (poll_status p =? 200) then
          (Raise (RagException (PollFailed (poll_status p))), w1 true)
        else
          match poll_json p with
          | None => (Raise ValueError, w1 true)
          | Some o =>
              if done o then
                match op_error o with
                | Some _ => (Raise (RagException OperationFailed), w1 true)
                | None => (Ok (imported_rag_files_count o, skipped_rag_files_count o),
                           w1 true)
                end
              else poll_loop E operation_url remaining
                     (logged [Called (Sleep 5) true] (w1 true))
          end
    end.
Proof.
  cbn [poll_loop]. unfold bind at 1. unfold remote, bind at 1, next_tick. cbn.
  destruct (requests_get E (tick w) operation_url) as [p|e]; cbn; [|reflexivity].
  unfold bind at 1. cbn.
  destruct (negb (poll_status p =? 200)); [reflexivity|].
  destruct (poll_json p) as [o|]; [|reflexivity].
  destruct (done o); [now destruct (op_error o) | reflexivity].
Qed.

(** A loop that returns has just seen a terminal success. *)
Lemma poll_loop_ok_inv E operation_url :
  forall remaining w counts w',
    poll_loop E operation_url remaining w = (Ok counts, w') ->
    terminal_success (requests_get E (pred (tick w')) operation_url) = Some counts
    /\ exists tr, trace w' = Called (OperationGet operation_url) true :: tr.
Proof.
  induction remaining as [|remaining IH]; intros w counts w'; [discriminate|].
  rewrite poll_loop_step. cbn zeta. unfold terminal_success.
  destruct (requests_get E (tick w) operation_url) as [p|e] eqn:Hget; [|discriminate].
  destruct (poll_status p =? 200) eqn:Hs; cbn [negb]; [|discriminate].
  destruct (poll_json p) as [o|] eqn:Hj; [|discriminate].
  destruct (done o) eqn:Hd.
  - destruct (op_error o) eqn:He; [discriminate|].
    intros H. injection H as <- <-. cbn [tick pred trace].
    rewrite Hget, Hs, Hj, Hd, He. split; [reflexivity | now eexists].
  - intros H. apply IH in H. exact H.
Qed.

(** Checks that find the operation running, then a check that ends the loop
    with result [final], its event flagged [ok]. *)
Lemma poll_loop_ends E operation_url (final : result (N * N)) (ok : bool) :
  forall j remaining w,
    (j < remaining)%nat ->
    (forall i, (i < j)%nat ->
       in_progress (requests_get E (tick w + i) operation_url) = true) ->
    (forall w1, tick w1 = (tick w + j)%nat ->
       poll_loop E operation_url (remaining - j) w1
       = (final, {| tick := S (tick w1); bucket := bucket w1;
                    trace := Called (OperationGet operation_url) ok :: trace w1 |})) ->
    exists w',
      poll_loop E operation_url remaining w = (final, w')
      /\ count is_status_check (trace w')
         = (count is_status_check (trace w) + S j)%nat.
Proof.
  induction j as [|j IH]; intros remaining w Hlt Hrun Hfinal.
  - rewrite Nat.sub_0_r in Hfinal. rewrite (Hfinal w) by lia.
    eexists. split; [reflexivity|]. cbn [trace tick].
    rewrite count_cons. cbn [is_status_check]. lia.
  - destruct remaining as [|remaining]; [lia|].
    rewrite poll_loop_running
      by (specialize (Hrun 0%nat); rewrite Nat.add_0_r in Hrun; apply Hrun; lia).
    edestruct (IH remaining) as (w' & Hw' & Hc); cycle 3.
    + exists w'. split; [exact Hw'|]. rewrite Hc. cbn [trace tick].
      rewrite !count_cons. cbn [is_status_check]. lia.
    + lia.
    + intros i Hi. simpl. replace (S (tick w + i)) with (tick w + S i)%nat by lia.
      apply Hrun. lia.
    + intros w1 Hw1. simpl in Hw1. apply Hfinal. lia.
Qed.

(** The poll loop gives up at the first status check that cannot be read: if
    the operation is found running on the first [k - 1] checks and check [k]
    raises, answers with a status other than 200 or with a body that is not
    JSON, the loop raises that exception ([PollFailed] with the status code,
    [ValueError] for the body) after exactly [k] status checks. *)
Theorem poll_loop_gives_up E operation_url w k e :
  (1 <= k <= max_poll_attempts)%nat ->
  (forall i, (i < k - 1)%nat ->
     in_progress (requests_get E (tick w + i) operation_url) = true) ->
  failed_check (requests_get E (tick w + (k - 1)) operation_url) = Some e ->
  exists w',
    poll_loop E operation_url max_poll_attempts w = (Raise e, w')
    /\ count is_status_check (trace w') = (count is_status_check (trace w) + k)%nat.
Proof.
  intros Hk Hrun Hfail.
  destruct (requests_get E (tick w + (k - 1)) operation_url) as [p|e0] eqn:Hget.
  - destruct (poll_loop_ends E operation_url (Raise e) true
                (k - 1) max_poll_attempts w) as (w' & Hw' & Hc).
    + lia.
    + exact Hrun.
    + intros w1 Hw1.
      destruct (max_poll_attempts - (k - 1))%nat as [|r] eqn:Hr; [lia|].
      rewrite poll_loop_step. cbn zeta. rewrite Hw1, Hget.
      unfold failed_check in Hfail.
      destruct (negb (poll_status p =? 200)); [now injection Hfail as <-|].
      destruct (poll_json p); [discriminate | now injection Hfail as <-].
    + exists w'. split; [exact Hw'|]. rewrite Hc. lia.
  - injection Hfail as <-.
    destruct (poll_loop_ends E operation_url (Raise e0) false
                (k - 1) max_poll_attempts w) as (w' & Hw' & Hc).
    + lia.
    + exact Hrun.
    + intros w1 Hw1.
      destruct (max_poll_attempts - (k - 1))%nat as [|r] eqn:Hr; [lia|].
      rewrite poll_loop_step. cbn zeta. now rewrite Hw1, Hget.
    + exists w'. split; [exact Hw'|]. rewrite Hc. lia.
Qed.

Lemma poll_loop_gives_up_witness :
  exists w',
    poll_loop status_unavailable (str "operations/1") max_poll_attempts start
    = (Raise (RagException (PollFailed 503)), w')
    /\ count is_status_check (trace w') = 2%nat.
Proof.
  apply (poll_loop_gives_up status_unavailable (str "operations/1") start 2).
  - unfold max_poll_attempts. lia.
  - intros i Hi. destruct i; [reflexivity | lia].
  - reflexivity.
Defined.

(** One attempt of the import, up to the poll loop. *)
Lemma ingest_attempt_run E text meta w :
  ingest_attempt E text meta w
  = let uri := gcs_uri_of E meta in
    let wt ok := {| tick := S (tick w); bucket := bucket w;
                    trace := Called GetAccessToken ok :: trace w |} in
    let wp ok := {| tick := S (S (tick w)); bucket := bucket w;
                    trace := Called (ImportPost uri) ok
                             :: Called GetAccessToken true :: trace w |} in
    match token_fault E (tick w) with
    | Some e => (Raise e, wt false)
    | None =>
        match requests_post E (S (tick w)) uri with
        | Raise e => (Raise e, wp false)
        | Ok r =>
            if (post_status r =? 400) && concurrent_body r then
              (Raise (RagException ConcurrentOperation), wp true)
            else if negb (status_accepted (post_status r)) then
              (Raise (RagException (ImportRejected (post_status r))), wp true)
            else
              match operation_name r with
              | None => (Raise ValueError, wp true)
              | Some name =>
                  if negb (truthy name) then
                    (Raise (RagException NoOperationName), wp true)
                  else
                    (let* _ := poll_loop E (base_url E ++ str "/" ++ name)
                                 max_poll_attempts in
                     ret tt) (wp true)
              end
        end
    end.
Proof.
  unfold ingest_attempt, gcs_uri_of. unfold bind at 1.
  unfold faulty, bind at 1, next_tick. cbn.
  destruct (token_fault E (tick w)); [reflexivity|]. cbn.
  unfold bind at 1. unfold remote, bind at 1, next_tick. cbn.
  destruct (requests_post E (S (tick w)) _) as [r|e]; cbn; [|reflexivity].
  unfold bind at 1. cbn.
  destruct ((post_status r =? 400) && concurrent_body r); [reflexivity|].
  destruct (negb (status_accepted (post_status r))); [reflexivity|].
  destruct (operation_name r) as [name|]; [|reflexivity].
  now destruct (negb (truthy name)).
Qed.

(** An attempt polls only after a submission that was accepted (200 or 201)
    and named its operation; a 400 that carries the concurrent-operation
    message raises [ConcurrentOperation], any other status outside 200 and
    201 raises [ImportRejected] with the status, in both cases without a
    status check. *)
Theorem polls_only_accepted_submission E text meta w :
  let after := snd (ingest_attempt E text meta w) in
  (count is_status_check (trace after) <> count is_status_check (trace w) ->
   exists r name,
     token_fault E (tick w) = None
     /\ requests_post E (S (tick w)) (gcs_uri_of E meta) = Ok r
     /\ status_accepted (post_status r) = true
     /\ operation_name r = Some name /\ name <> [])
  /\ (forall r,
        token_fault E (tick w) = None ->
        requests_post E (S (tick w)) (gcs_uri_of E meta) = Ok r ->
        status_accepted (post_status r) = false ->
        fst (ingest_attempt E text meta w)
        = Raise (RagException
                   (if (post_status r =? 400) && concurrent_body r
                    then ConcurrentOperation
                    else ImportRejected (post_status r)))
        /\ count is_status_check (trace after) = count is_status_check (trace w)).
Proof.
  intros after. subst after. rewrite ingest_attempt_run. cbn zeta. split.
  - destruct (token_fault E (tick w)) as [e|] eqn:Ht; cbn [snd trace];
      [rewrite count_cons; cbn; congruence|].
    destruct (requests_post E (S (tick w)) (gcs_uri_of E meta)) as [r|e] eqn:Hp;
      cbn [snd trace]; [|rewrite !count_cons; cbn; congruence].
    destruct ((post_status r =? 400) && concurrent_body r);
      cbn [snd trace]; [rewrite !count_cons; cbn; congruence|].
    destruct (status_accepted (post_status r)) eqn:Ha; cbn [negb snd trace];
      [|rewrite !count_cons; cbn; congruence].
    destruct (operation_name r) as [name|] eqn:Ho; cbn [snd trace];
      [|rewrite !count_cons; cbn; congruence].
    destruct (truthy name) eqn:Hn; cbn [negb snd trace];
      [|rewrite !count_cons; cbn; congruence].
    intros _. exists r, name.
    do 4 (split; [first [assumption | reflexivity]|]).
    now apply truthy_nonempty.
  - intros r Ht Hp Ha. rewrite Ht, Hp, Ha. cbn [negb].
    destruct ((post_status r =? 400) && concurrent_body r); cbn [fst snd trace];
      rewrite !count_cons; cbn; split; reflexivity.
Qed.

(** Another import is running: the attempt raises [ConcurrentOperation]
    and nothing is polled. *)
Lemma polls_only_accepted_submission_witness :
  fst (ingest_attempt busy_corpus (str "text") sample_metadata start)
  = Raise (RagException ConcurrentOperation)
  /\ count is_status_check
       (trace (snd (ingest_attempt busy_corpus (str "text") sample_metadata start)))
     = count is_status_check (trace start).
Proof.
  destruct (polls_only_accepted_submission busy_corpus (str "text") sample_metadata start)
    as [_ H].
  exact (H _ eq_refl eq_refl eq_refl).
Defined.

Lemma any_world_steps {A} (m : M A) : steps any_world m.
Proof. intros w. exact I. Qed.

(** A call of [ingest_to_rag] that returns has just seen a terminal success:
    its newest event is a status check of a named operation, and the status
    source answered that check with "done" and no error. *)
Theorem ingest_returns_after_success E text meta w w' :
  ingest_to_rag E text meta w = (Ok tt, w') ->
  exists name counts tr,
    name <> []
    /\ trace w' = Called (OperationGet (base_url E ++ str "/" ++ name)) true :: tr
    /\ terminal_success
         (requests_get E (pred (tick w')) (base_url E ++ str "/" ++ name))
       = Some counts.
Proof.
  intros H. unfold ingest_to_rag in H.
  apply (retry_ok_inv any_world) in H as (w1 & _ & H);
    [|intros; exact I|intros; exact I|intros; exact I|apply any_world_steps].
  rewrite ingest_attempt_run in H. cbn zeta in H.
  destruct (token_fault E (tick w1)); [discriminate|].
  destruct (requests_post E (S (tick w1)) (gcs_uri_of E meta)) as [r|]; [|discriminate].
  destruct ((post_status r =? 400) && concurrent_body r); [discriminate|].
  destruct (negb (status_accepted (post_status r))); [discriminate|].
  destruct (operation_name r) as [name|]; [|discriminate].
  destruct (truthy name) eqn:Hn; cbn [negb] in H; [|discriminate].
  apply bind_ok_inv in H as (counts & w2 & Hpoll & Hret).
  apply ok_inj in Hret as [_ <-].
  apply poll_loop_ok_inv in Hpoll as (Hs & tr & Htr).
  exists name, counts, tr. split; [now apply truthy_nonempty|]. now split.
Qed.

Lemma ingest_returns_after_success_witness :
  exists tr,
    trace (snd (ingest_to_rag healthy (str "text") sample_metadata start))
    = Called (OperationGet (base_url healthy ++ str "/operations/1")) true :: tr.
Proof.
  destruct (ingest_returns_after_success healthy (str "text") sample_metadata start
              (snd (ingest_to_rag healthy (str "text") sample_metadata start)) eq_refl)
    as (name & counts & tr & _ & Htr & _).
  exists (tl (trace (snd (ingest_to_rag healthy (str "text") sample_metadata start)))).
  reflexivity.
Defined.

(** ** The log messages of a feed's pass and the exit status *)

Lemma emits_count_ge {A} P p (m : M A) w :
  emits P m -> (count p (trace w) <= count p (trace (snd (m w))))%nat.
Proof.
  intros Hm. destruct (Hm w) as (tr & -> & _). rewrite count_app. lia.
Qed.

Lemma emits_count_eq {A} p (m : M A) w :
  emits (fun e => p e = false) m ->
  count p (trace (snd (m w))) = count p (trace w).
Proof.
  intros Hm. destruct (Hm w) as (tr & -> & Hall).
  rewrite count_app. enough (count p tr = 0%nat) by lia.
  clear -Hall. induction Hall as [|e tr He _ IH]; [reflexivity|].
  now rewrite count_cons, He, IH.
Qed.

Section EmitsItem.

Context (E : env) (P : event -> Prop).

Hypothesis logs_ok : forall s m, feed_level m = false -> P (Log s m).
Hypothesis calls_ok : forall c ok, routed c = false -> P (Called c ok).

Ltac pass_step :=
  first
    [ apply emits_ret | apply emits_raise | apply emits_next_tick
    | apply emits_get_blob | apply emits_put_blob
    | apply emits_emit;
      first [apply calls_ok; reflexivity | apply logs_ok; reflexivity]
    | apply emits_faulty; apply calls_ok; reflexivity
    | apply emits_remote; apply calls_ok; reflexivity
    | apply emits_try
    | apply emits_retry; [intros; apply calls_ok; reflexivity|]
    | apply emits_bind; [|intros]
    | match goal with
      | |- emits _ (match ?x with _ => _ end) => destruct x
      | |- emits _ (if ?b then _ else _) => destruct b
      end ].

Lemma pass_fetch_rss url : emits P (fetch_rss E url).
Proof. unfold fetch_rss, raise_for_status. repeat pass_step. Qed.

Lemma pass_fetch_html url : emits P (fetch_html E url).
Proof. unfold fetch_html, raise_for_status. repeat pass_step. Qed.

Lemma pass_parse_rss xml : emits P (parse_rss E xml).
Proof. unfold parse_rss. repeat pass_step. Qed.

Lemma pass_read_json path : emits P (read_json E path).
Proof. unfold read_json, read_json_attempt. repeat pass_step. Qed.

Lemma pass_write_json path data :
  (forall ok, P (Called (BlobUpload path (Json data)) ok)) ->
  emits P (write_json E path data).
Proof.
  intros H. unfold write_json.
  apply emits_retry; [intros; apply calls_ok; reflexivity|].
  apply emits_bind; [apply emits_faulty; apply H | intros; apply emits_put_blob].
Qed.

Lemma pass_upload_file path content :
  (forall ok, P (Called (BlobUpload path (Payload content)) ok)) ->
  emits P (upload_file E path content).
Proof.
  intros H. unfold upload_file.
  apply emits_retry; [intros; apply calls_ok; reflexivity|].
  apply emits_bind; [apply emits_faulty; apply H | intros; apply emits_put_blob].
Qed.

Lemma pass_clean_html html meta : emits P (clean_html E html meta).
Proof. unfold clean_html. repeat pass_step. Qed.

Lemma pass_poll_loop operation_url remaining :
  emits P (poll_loop E operation_url remaining).
Proof.
  induction remaining as [|remaining IH]; simpl; [apply emits_raise|].
  unfold sleep. repeat pass_step. exact IH.
Qed.

Lemma pass_ingest_to_rag text meta :
  (forall ok, P (Called (ImportPost (gcs_uri_of E meta)) ok)) ->
  emits P (ingest_to_rag E text meta).
Proof.
  intros H. unfold ingest_to_rag, ingest_attempt.
  repeat first
    [ apply pass_poll_loop | apply emits_remote; apply H | pass_step ].
Qed.

Lemma pass_embed_text text : emits P (embed_text E text).
Proof. unfold embed_text. repeat pass_step. Qed.

Lemma pass_upsert_vector vector doc_id meta :
  emits P (upsert_vector E vector doc_id meta).
Proof. unfold upsert_vector. repeat pass_step. Qed.

Lemma pass_make_item_id it : emits P (make_item_id E it).
Proof. unfold make_item_id, now. repeat pass_step. Qed.

Context (feed_name folder item_id : pystr).

Hypothesis html_ok : forall content ok,
  P (Called (BlobUpload (raw_html_path folder item_id) (Payload content)) ok).
Hypothesis text_ok : forall content ok,
  P (Called (BlobUpload (clean_text_path folder item_id) (Payload content)) ok).
Hypothesis import_ok : forall meta ok,
  m_feed meta = feed_name -> m_item_id meta = item_id ->
  P (Called (ImportPost (gcs_uri_of E meta)) ok).

Lemma pass_article_steps it :
  emits P (article_steps E feed_name folder it item_id).
Proof.
  unfold article_steps, log_structured, sleep, now.
  repeat first
    [ apply pass_upload_file; intros; first [apply html_ok | apply text_ok]
    | apply pass_fetch_html | apply pass_clean_html
    | apply pass_ingest_to_rag; intros; apply import_ok; reflexivity
    | apply pass_embed_text | apply pass_upsert_vector
    | pass_step ].
Qed.

Hypothesis xml_ok : forall content ok,
  P (Called (BlobUpload (raw_xml_path folder item_id) (Payload content)) ok).

Lemma pass_item_body it :
  emits P (item_body E feed_name folder it item_id).
Proof.
  unfold item_body, log_structured.
  repeat first
    [ apply pass_upload_file; intros; apply xml_ok
    | apply pass_article_steps | pass_step ].
Qed.

End EmitsItem.

Section EmitsFeedPass.

Context (E : env) (P : event -> Prop).

Hypothesis logs_ok : forall s m, feed_level m = false -> P (Log s m).
Hypothesis calls_all : forall c ok, P (Called c ok).

Ltac pass_step :=
  first
    [ apply emits_ret | apply emits_raise
    | apply emits_emit; first [apply calls_all | apply logs_ok; reflexivity]
    | apply emits_try
    | apply emits_bind; [|intros]
    | match goal with
      | |- emits _ (match ?x with _ => _ end) => destruct x
      | |- emits _ (if ?b then _ else _) => destruct b
      end ].

Ltac known := intros; first [apply logs_ok; assumption | apply calls_all].

Lemma pass_loop_step feed_name folder ls it :
  emits P (loop_step E feed_name folder ls it).
Proof.
  unfold loop_step, log_structured.
  repeat first
    [ apply pass_make_item_id; known | apply pass_item_body; known | pass_step ].
Qed.

Lemma pass_for_items feed_name folder new_items :
  forall ls, emits P (for_items E feed_name folder new_items ls).
Proof.
  induction new_items as [|it rest IH]; intros ls; simpl.
  - apply emits_ret.
  - apply emits_bind; [apply pass_loop_step | intros; apply IH].
Qed.

Lemma pass_detect_new_items feed_name feed_config :
  emits P (detect_new_items E feed_name feed_config).
Proof.
  unfold detect_new_items, log_structured.
  repeat first
    [ apply pass_fetch_rss; known | apply pass_parse_rss; known
    | apply pass_read_json; known | pass_step ].
Qed.

Lemma pass_update_processed_ids folder processed_ids new_ids :
  emits P (update_processed_ids E folder processed_ids new_ids).
Proof.
  unfold update_processed_ids, log_structured.
  repeat first [ apply pass_write_json; known | pass_step ].
Qed.

Lemma pass_feed_pass feed_name feed_config :
  emits P (feed_pass E feed_name feed_config).
Proof.
  unfold feed_pass. apply emits_bind; [apply pass_detect_new_items|].
  intros [processed_ids new_items].
  destruct new_items as [|it rest]; unfold process_new_items, log_structured.
  - repeat pass_step.
  - repeat first
      [ apply pass_for_items | apply pass_update_processed_ids | pass_step ].
Qed.

End EmitsFeedPass.

(** One feed: its start is logged; a feed error is logged exactly when the
    pass raises. *)
Lemma process_feed_logs E feed_name feed_config w :
  let '(r, w') := process_feed E feed_name feed_config w in
  (count (is_feed_start feed_name) (trace w)
   < count (is_feed_start feed_name) (trace w'))%nat
  /\ (forall p, (count p (trace w) <= count p (trace w'))%nat)
  /\ count is_feed_error (trace w')
     = (count is_feed_error (trace w) + if r is Ok _ then 0 else 1)%nat.
Proof.
  rewrite process_feed_run.
  set (w0 := logged [Log INFO (ProcessingFeed feed_name)] w).
  assert (Hstart : (count (is_feed_start feed_name) (trace w)
                    < count (is_feed_start feed_name) (trace w0))%nat).
  { subst w0. rewrite count_logged, count_cons. cbn.
    rewrite bool_decide_eq_true_2 by reflexivity. cbn. lia. }
  assert (Hmono : forall p, (count p (trace w) <= count p (trace w0))%nat).
  { intros p. subst w0. rewrite count_logged. lia. }
  assert (Herr : count is_feed_error (trace w0) = count is_feed_error (trace w)).
  { subst w0. now rewrite count_logged. }
  pose proof (emits_count_eq is_feed_error (feed_pass E feed_name feed_config) w0) as He.
  pose proof (fun p => emits_count_ge (fun _ => True) p
                         (feed_pass E feed_name feed_config) w0) as Hge.
  destruct (feed_pass E feed_name feed_config w0) as [[[]|e] w1]; cbn [snd] in *.
  - split; [|split].
    + specialize (Hge (is_feed_start feed_name)).
      eapply Nat.lt_le_trans; [exact Hstart|]. apply Hge.
      apply pass_feed_pass; intros; exact I.
    + intros p. etransitivity; [apply Hmono|]. apply Hge.
      apply pass_feed_pass; intros; exact I.
    + rewrite He, Herr; [lia|].
      apply pass_feed_pass; [|reflexivity].
      intros s m Hm. destruct s, m; try reflexivity; discriminate.
  - split; [|split].
    + rewrite count_logged.
      specialize (Hge (is_feed_start feed_name)).
      eapply Nat.lt_le_trans; [exact Hstart|].
      etransitivity; [apply Hge; apply pass_feed_pass; intros; exact I|]. lia.
    + intros p. rewrite count_logged.
      etransitivity; [apply Hmono|].
      etransitivity; [apply Hge; apply pass_feed_pass; intros; exact I|]. lia.
    + rewrite count_logged, He, Herr; [cbn; lia|].
      apply pass_feed_pass; [|reflexivity].
      intros s m Hm. destruct s, m; try reflexivity; discriminate.
Qed.

Lemma for_feeds_logs E feeds :
  forall w,
    let '(r, w') := for_feeds E feeds w in
    (forall p, (count p (trace w) <= count p (trace w'))%nat)
    /\ match r with
       | Ok _ =>
           count is_feed_error (trace w') = count is_feed_error (trace w)
           /\ Forall (fun nc => (count (is_feed_start (fst nc)) (trace w)
                                 < count (is_feed_start (fst nc)) (trace w'))%nat) feeds
       | Raise _ =>
           count is_feed_error (trace w') = S (count is_feed_error (trace w))
       end.
Proof.
  induction feeds as [|[n c] rest IH]; intros w; simpl.
  - split; [intros; lia|]. split; [reflexivity | constructor].
  - unfold bind. pose proof (process_feed_logs E n c w) as Hf.
    destruct (process_feed E n c w) as [[[]|e] w1].
    + destruct Hf as (Hs & Hm & He). specialize (IH w1).
      destruct (for_feeds E rest w1) as [[[]|e] w2].
      * destruct IH as (Hm2 & He2 & Hall). split; [|split].
        -- intros p. etransitivity; [apply Hm | apply Hm2].
        -- lia.
        -- constructor.
           ++ cbn [fst]. eapply Nat.lt_le_trans; [exact Hs | apply Hm2].
           ++ eapply Forall_impl; [exact Hall|]. intros [n' c'] H. cbn [fst] in *.
              eapply Nat.le_lt_trans; [apply Hm | exact H].
      * destruct IH as (Hm2 & He2). split.
        -- intros p. etransitivity; [apply Hm | apply Hm2].
        -- lia.
    + destruct Hf as (Hs & Hm & He). split; [exact Hm | lia].
Qed.

Lemma faulty_run fault c w :
  faulty fault c w
  = match fault (tick w) with
    | Some e => (Raise e, {| tick := S (tick w); bucket := bucket w;
                             trace := Called c false :: trace w |})
    | None => (Ok tt, {| tick := S (tick w); bucket := bucket w;
                         trace := Called c true :: trace w |})
    end.
Proof.
  unfold faulty, bind, next_tick. cbn. now destruct (fault (tick w)).
Qed.

Lemma main_run E w :
  main E w
  = match faulty (initialize E) Initialize (logged [Log INFO StartingJob] w) with
    | (Raise e, w1) => (Ok 1%N, logged [Log ERROR (JobFailed e)] w1)
    | (Ok _, w1) =>
        match for_feeds E (RSS_FEEDS E) w1 with
        | (Ok _, w2) => (Ok 0%N, logged [Log INFO JobCompleted] w2)
        | (Raise e, w2) => (Ok 1%N, logged [Log ERROR (JobFailed e)] w2)
        end
    end.
Proof.
  unfold main, log_structured. unfold bind at 1. rewrite emit_run.
  unfold bind at 1. rewrite try_run.
  destruct (faulty (initialize E) Initialize (logged [Log INFO StartingJob] w))
    as [[[]|e] w1] eqn:Hf.
  - rewrite (bind_ok _ _ _ _ _ Hf).
    destruct (for_feeds E (RSS_FEEDS E) w1) as [[[]|e] w2] eqn:Hff.
    + rewrite (bind_ok _ _ _ _ _ Hff). reflexivity.
    + rewrite (bind_raise _ _ _ _ _ Hff). reflexivity.
  - rewrite (bind_raise _ _ _ _ _ Hf). reflexivity.
Qed.

(** [main] always returns an exit status and never raises.  Status 0 means
    that the initialization went through, that every configured feed was
    started, that no feed error was logged and that the last message is
    "job completed"; status 1 comes with the "job failed" message as the
    last one.  In either case a run logs at most one feed error. *)
Theorem main_exit_status E w :
  exists status w',
    main E w = (Ok status, w')
    /\ (count is_feed_error (trace w') <= count is_feed_error (trace w) + 1)%nat
    /\ ((status = 0%N
         /\ initialize E (tick w) = None
         /\ count is_feed_error (trace w') = count is_feed_error (trace w)
         /\ Forall (fun nc => (count (is_feed_start (fst nc)) (trace w)
                               < count (is_feed_start (fst nc)) (trace w'))%nat)
              (RSS_FEEDS E)
         /\ exists tr, trace w' = Log INFO JobCompleted :: tr)
        \/ (status = 1%N
            /\ exists e tr, trace w' = Log ERROR (JobFailed e) :: tr)).
Proof.
  rewrite main_run, faulty_run. cbn [tick logged].
  destruct (initialize E (tick w)) as [e|] eqn:Hi.
  - eexists _, _. split; [reflexivity|]. split.
    + unfold logged. cbn [trace app]. rewrite !count_cons.
      cbn [is_feed_error]. lia.
    + right. split; [reflexivity|]. now eexists _, _.
  - match goal with
    | |- context [for_feeds E (RSS_FEEDS E) ?w1] =>
        pose proof (for_feeds_logs E (RSS_FEEDS E) w1) as Hf;
        destruct (for_feeds E (RSS_FEEDS E) w1) as [[[]|e] w2]
    end.
    + destruct Hf as (Hm & He & Hall).
      unfold logged in *. cbn [trace app] in *.
      rewrite !count_cons in He. cbn [is_feed_error] in He.
      eexists _, _. split; [reflexivity|]. cbn [trace].
      rewrite !count_cons. cbn [is_feed_error].
      split; [lia|].
      left. split; [reflexivity|]. split; [reflexivity|].
      split; [lia|].
      split; [|now eexists].
      eapply Forall_impl; [exact Hall|]. intros [n c] H. cbn [fst] in *.
      rewrite !count_cons in *. cbn [is_feed_start] in *. lia.
    + destruct Hf as (Hm & He).
      unfold logged in *. cbn [trace app] in *.
      rewrite !count_cons in He. cbn [is_feed_error] in He.
      eexists _, _. split; [reflexivity|]. cbn [trace].
      rewrite !count_cons. cbn [is_feed_error].
      split; [lia|].
      right. split; [reflexivity|]. now eexists _, _.
Qed.

(** ** The embedding *)

(** One attempt of [embed_text]. *)
Lemma embed_attempt_run E text w :
  (let* embeddings := remote (fun t => get_embeddings E t text) (GetEmbeddings text) in
   match embeddings with
   | [] => raise ValueError
   | values :: _ => ret values
   end) w
  = let w1 ok := {| tick := S (tick w); bucket := bucket w;
                    trace := Called (GetEmbeddings text) ok :: trace w |} in
    match get_embeddings E (tick w) text with
    | Ok [] => (Raise ValueError, w1 true)
    | Ok (values :: _) => (Ok values, w1 true)
    | Raise e => (Raise e, w1 false)
    end.
Proof.
  unfold remote, bind, next_tick. cbn.
  destruct (get_embeddings E (tick w) text) as [[|values rest]|e]; reflexivity.
Qed.

(** The vector [embed_text] returns is the first embedding the model gave
    for this text at the last call, whatever its dimension.  An empty answer
    of the model counts as a failed attempt: when the model answers three
    times with an empty list, [embed_text] has called it three times and
    raises [RetryError] around the [ValueError]. *)
Theorem embed_text_outcomes E text w :
  (forall values w',
     embed_text E text w = (Ok values, w') ->
     exists rest tr,
       get_embeddings E (pred (tick w')) text = Ok (values :: rest)
       /\ trace w' = Called (GetEmbeddings text) true :: tr)
  /\ ((forall i, (i < 3)%nat -> get_embeddings E (tick w + i) text = Ok []) ->
      exists w',
        embed_text E text w = (Raise (RetryError ValueError), w')
        /\ count is_embedding_call (trace w')
           = (count is_embedding_call (trace w) + 3)%nat).
Proof.
  split.
  - intros values w' H. unfold embed_text in H.
    apply (retry_ok_inv any_world) in H as (w1 & _ & H);
      [|intros; exact I|intros; exact I|intros; exact I|apply any_world_steps].
    rewrite embed_attempt_run in H. cbn zeta in H.
    destruct (get_embeddings E (tick w1) text) as [[|v rest]|e] eqn:Hg;
      try discriminate.
    apply ok_inj in H as [<- <-]. cbn [tick pred trace]. now exists rest, (trace w1).
  - intros Hempty. unfold embed_text.
    pose proof (Hempty 0%nat ltac:(lia)) as H0.
    pose proof (Hempty 1%nat ltac:(lia)) as H1.
    pose proof (Hempty 2%nat ltac:(lia)) as H2.
    rewrite Nat.add_0_r in H0. rewrite Nat.add_1_r in H1.
    replace (tick w + 2)%nat with (S (S (tick w))) in H2 by lia.
    erewrite retry_again;
      [|rewrite embed_attempt_run; cbn zeta; rewrite H0; reflexivity|reflexivity].
    erewrite retry_again;
      [|rewrite embed_attempt_run; cbn zeta; cbn [tick logged]; rewrite H1; reflexivity
       |reflexivity].
    cbn [retry_]. unfold bind at 1. rewrite try_run, embed_attempt_run.
    cbn zeta. cbn [tick logged]. rewrite H2. cbn [fst snd is_exception].
    eexists. split; [reflexivity|].
    unfold logged. cbn [trace app]. rewrite !count_cons. cbn [is_embedding_call]. lia.
Qed.

Lemma embed_text_outcomes_witness :
  exists w',
    embed_text silent_model (str "text") start = (Raise (RetryError ValueError), w')
    /\ count is_embedding_call (trace w') = 3%nat.
Proof.
  destruct (embed_text_outcomes silent_model (str "text") start) as [_ H].
  apply H. intros i _. reflexivity.
Defined.

(** ** A stored object without the "ids" key *)

(** When the object loaded from processed_ids.json is not empty but has no
    "ids" key, it is used as it is and no id counts as processed.  The pass
    then returns only if no item completes; as soon as one does, the items
    are processed first and the update raises [KeyError], and in either
    case nothing is stored at the processed-ids path. *)
Theorem missing_ids_key E feed_name folder processed_ids new_items w :
  doc_ids processed_ids = None -> doc_truthy processed_ids = true ->
  let runs := item_runs E feed_name folder new_items w in
  let out := process_new_items E feed_name folder processed_ids new_items w in
  loaded_or_empty (Some processed_ids) = processed_ids
  /\ ids_of processed_ids = []
  /\ fst out = match marked_ids runs with [] => Ok tt | _ => Raise KeyError end
  /\ bucket (snd out) !! processed_ids_path folder
     = bucket w !! processed_ids_path folder.
Proof.
  intros Hids Htruthy runs out.
  split; [unfold loaded_or_empty; now rewrite Htruthy|].
  split; [unfold ids_of; now rewrite Hids|].
  subst out. unfold process_new_items.
  destruct (for_items_runs E feed_name folder new_items loop_init w)
    as (ls' & w' & Hfor & Hmarked & _).
  fold runs in Hmarked. cbn [new_processed_ids loop_init app] in Hmarked.
  assert (Hkeep : bucket w' !! processed_ids_path folder
                  = bucket w !! processed_ids_path folder).
  { pose proof (steps_for_items (same_at (processed_ids_path folder))
             (same_at_refl _) (same_at_trans _) (same_at_tick _) (same_at_emit _)
             (fun q => q <> processed_ids_path folder) (same_at_put _) E folder
             (fun item_id => artifact_not_processed_ids folder item_id)
             feed_name new_items loop_init w) as Hs.
    rewrite Hfor in Hs. exact Hs. }
  rewrite (bind_ok _ _ _ _ _ Hfor). unfold update_processed_ids.
  rewrite Hmarked, Hids.
  destruct (marked_ids runs) as [|item_id rest].
  - rewrite bool_decide_eq_true_2 by reflexivity.
    unfold bind, ret, log_structured. rewrite emit_run. cbn [fst snd logged bucket].
    now split.
  - rewrite bool_decide_eq_false_2 by discriminate.
    unfold bind, raise. cbn [fst snd]. now split.
Qed.

(** The first item completes, and the pass fails at the update. *)
Lemma missing_ids_key_witness :
  fst (process_new_items healthy (str "dev") (str "dev") keyless_doc
         [item_of_entry post_entry] start)
  = Raise KeyError.
Proof.
  destruct (missing_ids_key healthy (str "dev") (str "dev") keyless_doc
              [item_of_entry post_entry] start eq_refl eq_refl)
    as (_ & _ & H & _).
  rewrite H. vm_compute. reflexivity.
Defined.

(** ** Where an item's data goes *)

(** Whatever happens in the block of one item, its uploads go to the three
    artifact paths of the item in the feed's folder, and every import it
    submits names [gs://BUCKET/<feed name>/clean/<item id>.txt]: the URI is
    built from the feed's name, the upload path from the feed's folder, and
    the two name the same object exactly when the folder is the name. *)
Theorem item_uploads_and_imports E feed_name folder it item_id :
  emits (item_traffic E feed_name folder item_id)
        (item_body E feed_name folder it item_id)
  /\ (clean_text_path feed_name item_id = clean_text_path folder item_id
      <-> feed_name = folder).
Proof.
  split.
  - apply pass_item_body.
    + intros s m _. exact I.
    + intros c ok Hc. destruct c; try exact I; discriminate Hc.
    + intros content ok. right. now left.
    + intros content ok. right. now right.
    + intros meta ok <- <-. reflexivity.
    + intros content ok. now left.
  - unfold clean_text_path. split.
    + intros H. now apply app_inv_tail in H.
    + now intros ->.
Qed.

(** ** Content types *)

Lemma endswith_app s ending : endswith (s ++ ending) ending = true.
Proof. apply bool_decide_eq_true_2. now exists s. Qed.

Ltac other_ending :=
  let k := fresh "k" in
  let Hk := fresh "Hk" in
  apply bool_decide_eq_false_2; intros [k Hk];
  apply (f_equal (@rev N)) in Hk; rewrite !rev_app_distr in Hk;
  cbn in Hk; discriminate Hk.

(** The artifacts of an item are uploaded with the content type of their
    kind, whatever the folder and the item id (an id may itself end in
    ".xml" or ".html"): the raw item is XML, the article HTML, the cleaned
    text plain text. *)
Theorem artifact_content_types folder item_id :
  detect_content_type (raw_xml_path folder item_id) = str "application/xml"
  /\ detect_content_type (raw_html_path folder item_id) = str "text/html"
  /\ detect_content_type (clean_text_path folder item_id) = str "text/plain".
Proof.
  unfold detect_content_type, raw_xml_path, raw_html_path, clean_text_path.
  split; [|split].
  - rewrite !app_assoc. now rewrite endswith_app.
  - assert (H1 : endswith (folder ++ str "/raw_html/" ++ item_id ++ str ".html")
                   (str ".xml") = false) by (unfold endswith; other_ending).
    rewrite H1. rewrite !app_assoc. now rewrite endswith_app.
  - assert (H1 : endswith (folder ++ str "/clean/" ++ item_id ++ str ".txt")
                   (str ".xml") = false) by (unfold endswith; other_ending).
    assert (H2 : endswith (folder ++ str "/clean/" ++ item_id ++ str ".txt")
                   (str ".html") = false) by (unfold endswith; other_ending).
    rewrite H1, H2. rewrite !app_assoc. now rewrite endswith_app.
Qed.

(** ** The corpus name *)

Lemma split_app sep part rest :
  sep ∉ part -> split sep (part ++ sep :: rest) = part :: split sep rest.
Proof.
  induction part as [|c part IH]; intros Hfree; cbn.
  - now rewrite N.eqb_refl.
  - apply not_elem_of_cons in Hfree as [Hc Hfree].
    destruct (N.eqb_spec c sep) as [->|_]; [congruence|].
    now rewrite IH.
Qed.

Lemma split_free sep part : sep ∉ part -> split sep part = [part].
Proof.
  induction part as [|c part IH]; intros Hfree; cbn; [reflexivity|].
  apply not_elem_of_cons in Hfree as [Hc Hfree].
  destruct (N.eqb_spec c sep) as [->|_]; [congruence|].
  now rewrite IH.
Qed.

Lemma join_cons sep part part' parts :
  join sep (part :: part' :: parts) = part ++ sep ++ join sep (part' :: parts).
Proof. reflexivity. Qed.

Lemma split_join parts :
  parts <> [] -> Forall (fun part => 47%N ∉ part) parts ->
  split 47 (join [47%N] parts) = parts.
Proof.
  intros Hne Hfree. induction Hfree as [|part rest Hpart Hrest IH]; [congruence|].
  destruct rest as [|part' rest].
  - now apply split_free.
  - rewrite join_cons. cbn [app]. rewrite split_app by exact Hpart.
    f_equal. now apply IH.
Qed.

Lemma join_split name :
  join [47%N] (split 47 name) = name
  /\ split 47 name <> []
  /\ Forall (fun part => 47%N ∉ part) (split 47 name).
Proof.
  induction name as [|c name (IHj & IHn & IHf)]; cbn [split].
  - split; [reflexivity|]. split; [discriminate|].
    constructor; [apply not_elem_of_nil | constructor].
  - destruct (N.eqb_spec c 47) as [->|Hc].
    + split; [|split; [discriminate|]].
      * destruct (split 47 name) as [|part parts] eqn:Hs; [congruence|].
        rewrite join_cons. cbn [app]. now rewrite IHj.
      * constructor; [apply not_elem_of_nil | exact IHf].
    + destruct (split 47 name) as [|part parts] eqn:Hs; [congruence|].
      split; [|split; [discriminate|]].
      * destruct parts as [|part' parts]; [cbn in *; congruence|].
        rewrite join_cons in *. cbn [app]. now rewrite <- IHj.
      * apply Forall_cons in IHf as [Hp Hf]. constructor; [|exact Hf].
        apply not_elem_of_cons. split; [congruence | exact Hp].
Qed.

(** [RAGIngester.__init__] takes the project id and the corpus id from the
    second and the sixth of the parts between the slashes of the corpus
    name, whatever the other parts are, and fails on a name with fewer than
    six parts; every name is the join of its slash-free parts. *)
Theorem corpus_name_parts :
  (forall parts,
     parts <> [] -> Forall (fun part => 47%N ∉ part) parts ->
     corpus_name_ids (join (str "/") parts)
     = match parts !! 1%nat, parts !! 5%nat with
       | Some project_id, Some corpus_id => Some (project_id, corpus_id)
       | _, _ => None
       end)
  /\ (forall name,
        exists parts,
          name = join (str "/") parts
          /\ parts <> [] /\ Forall (fun part => 47%N ∉ part) parts).
Proof.
  split.
  - intros parts Hne Hfree. unfold corpus_name_ids.
    change (str "/") with [47%N]. rewrite (split_join parts Hne Hfree).
    destruct (parts !! 1%nat); [|reflexivity]. now destruct (parts !! 5%nat).
  - intros name. exists (split 47 name).
    destruct (join_split name) as (Hj & Hn & Hf).
    change (str "/") with [47%N]. now rewrite Hj.
Qed.

(** A name of the documented form. *)
Lemma corpus_name_parts_witness :
  corpus_name_ids (str "projects/p1/locations/europe-west3/ragCorpora/42")
  = Some (str "p1", str "42").
Proof.
  destruct corpus_name_parts as [H _].
  exact (H [str "projects"; str "p1"; str "locations"; str "europe-west3";
            str "ragCorpora"; str "42"]
           ltac:(discriminate)
           ltac:(apply (bool_decide_unpack _); vm_compute; exact I)).
Defined.

(** ** Whitespace *)

Lemma longest_run_ge c text : forall run, (run <= longest_run_from c run text)%nat.
Proof.
  induction text as [|x text IH]; intros run; cbn; [lia|].
  destruct (x =? c); [specialize (IH (S run))|]; lia.
Qed.

Lemma longest_run_mono c text :
  forall a b, (a <= b)%nat ->
    (longest_run_from c a text <= longest_run_from c b text)%nat.
Proof.
  induction text as [|x text IH]; intros a b Hab; cbn; [lia|].
  destruct (x =? c); [apply IH|]; lia.
Qed.

Lemma longest_run_prefix c l1 l2 :
  forall a, (longest_run_from c a l1 <= longest_run_from c a (l1 ++ l2))%nat.
Proof.
  induction l1 as [|x l1 IH]; intros a; cbn; [apply longest_run_ge|].
  destruct (x =? c); [apply IH|]. specialize (IH 0%nat). lia.
Qed.

Lemma longest_run_suffix c l1 l2 :
  forall a, (longest_run_from c 0 l2 <= longest_run_from c a (l1 ++ l2))%nat.
Proof.
  induction l1 as [|x l1 IH]; intros a; cbn.
  - apply longest_run_mono. lia.
  - destruct (x =? c); [apply IH|]. specialize (IH 0%nat). lia.
Qed.

Lemma longest_run_replicate c m l :
  forall a, longest_run_from c a (replicate m c ++ l) = longest_run_from c (a + m) l.
Proof.
  induction m as [|m IH]; intros a; cbn.
  - now rewrite Nat.add_0_r.
  - rewrite N.eqb_refl, IH. f_equal. lia.
Qed.

Lemma longest_run_other c d m l a :
  d <> c ->
  longest_run_from d a (replicate (S m) c ++ l) = Nat.max a (longest_run_from d 0 l).
Proof.
  intros Hd. revert a. induction m as [|m IH]; intros a.
  - cbn. destruct (N.eqb_spec c d) as [->|_]; [congruence | reflexivity].
  - change (replicate (S (S m)) c ++ l) with (c :: (replicate (S m) c ++ l)).
    cbn [longest_run_from].
    destruct (N.eqb_spec c d) as [->|_]; [congruence|]. rewrite IH. lia.
Qed.

Lemma replicate_shift {A} (c : A) m l : replicate (S m) c ++ l = replicate m c ++ c :: l.
Proof. induction m as [|m IH]; [reflexivity|]. cbn in *. now rewrite IH. Qed.

(** After the substitution no run reaches the threshold. *)
Lemma collapse_runs_bound c k r text :
  (r < k)%nat ->
  forall run a,
    (longest_run_from c a (collapse_runs c k r run text) <= a + (k - 1))%nat.
Proof.
  intros Hr. induction text as [|x text IH]; intros run a; cbn [collapse_runs].
  - rewrite <- (app_nil_r (replicate _ c)), longest_run_replicate. cbn.
    destruct (Nat.leb_spec k run); lia.
  - destruct (x =? c) eqn:Hx; [apply IH|].
    rewrite longest_run_replicate. cbn [longest_run_from]. rewrite Hx.
    specialize (IH 0%nat 0%nat). destruct (Nat.leb_spec k run); lia.
Qed.

(** A text without a run at the threshold is left as it is. *)
Lemma collapse_runs_fixed c k r text :
  forall run,
    (longest_run_from c run text < k)%nat ->
    collapse_runs c k r run text = replicate run c ++ text.
Proof.
  induction text as [|x text IH]; intros run H; cbn [collapse_runs longest_run_from] in *.
  - destruct (Nat.leb_spec k run); [lia | now rewrite app_nil_r].
  - destruct (N.eqb_spec x c) as [->|Hx].
    + rewrite IH by exact H. apply replicate_shift.
    + pose proof (longest_run_ge c text 0).
      destruct (Nat.leb_spec k run); [lia|].
      rewrite IH by lia. reflexivity.
Qed.

(** The substitution does not change the runs of another character. *)
Lemma collapse_runs_other c d k r text :
  d <> c -> (0 < r)%nat -> (0 < k)%nat ->
  forall run a,
    longest_run_from d a (collapse_runs c k r run text)
    = longest_run_from d a (replicate run c ++ text).
Proof.
  intros Hd Hr Hk. induction text as [|x text IH]; intros run a; cbn [collapse_runs].
  - destruct run as [|run]; [destruct k; [lia | reflexivity]|].
    destruct (if (k <=? S run)%nat then r else S run) as [|m] eqn:Hm;
      [destruct (k <=? S run)%nat; lia|].
    rewrite <- (app_nil_r (replicate (S m) c)).
    now rewrite !longest_run_other.
  - destruct (N.eqb_spec x c) as [->|Hx].
    + rewrite IH. now rewrite replicate_shift.
    + assert (Hrest : forall b,
                longest_run_from d b (x :: collapse_runs c k r 0 text)
                = longest_run_from d b (x :: text)).
      { intros b. cbn [longest_run_from].
        destruct (x =? d); now rewrite IH. }
      destruct run as [|run].
      * destruct k; [lia|]. cbn [Nat.leb replicate app]. apply Hrest.
      * destruct (if (k <=? S run)%nat then r else S run) as [|m] eqn:Hm;
          [destruct (k <=? S run)%nat; lia|].
        rewrite !longest_run_other by exact Hd. now rewrite Hrest.
Qed.

Lemma collapse_runs_filter p c k r text :
  p c = false ->
  forall run, List.filter p (collapse_runs c k r run text) = List.filter p text.
Proof.
  intros Hp.
  assert (Hrep : forall m, List.filter p (replicate m c) = []).
  { induction m as [|m IH]; cbn; [reflexivity|]. now rewrite Hp. }
  induction text as [|x text IH]; intros run; cbn [collapse_runs]; [apply Hrep|].
  destruct (N.eqb_spec x c) as [->|Hx].
  - rewrite IH. cbn. now rewrite Hp.
  - rewrite List.filter_app, Hrep. cbn. now rewrite IH.
Qed.

Lemma lstrip_split s :
  exists pre, s = pre ++ lstrip s /\ Forall (fun c => py_isspace c = true) pre.
Proof.
  induction s as [|c s (pre & IH & Hpre)]; cbn; [now exists []|].
  destruct (py_isspace c) eqn:Hc; [|now exists []].
  exists (c :: pre). split; [cbn; now rewrite <- IH | now constructor].
Qed.

(** [strip] takes whitespace off both ends and nothing else. *)
Lemma strip_split s :
  exists pre post,
    s = pre ++ strip s ++ post
    /\ Forall (fun c => py_isspace c = true) pre
    /\ Forall (fun c => py_isspace c = true) post.
Proof.
  destruct (lstrip_split s) as (pre & Hs & Hpre).
  destruct (lstrip_split (rev (lstrip s))) as (post & Hr & Hpost).
  exists pre, (rev post). split; [|split; [exact Hpre|]].
  - rewrite Hs at 1. f_equal. unfold strip.
    rewrite <- rev_app_distr, <- Hr. now rewrite rev_involutive.
  - now apply List.Forall_rev.
Qed.

Lemma filter_whitespace l :
  Forall (fun c => py_isspace c = true) l ->
  List.filter (fun c => negb (py_isspace c)) l = [].
Proof.
  induction 1 as [|c l Hc _ IH]; cbn; [reflexivity|]. now rewrite Hc.
Qed.

(** The text [_clean_whitespace] returns has no run of three newlines, no
    two spaces in a row and no whitespace at either end; cleaning it again
    changes nothing; and nothing but whitespace was removed: the other
    characters are those of the input, in the same order. *)
Theorem clean_whitespace_normal_form text :
  let out := _clean_whitespace text in
  (longest_run 10 out <= 2)%nat
  /\ (longest_run 32 out <= 1)%nat
  /\ stripped out
  /\ _clean_whitespace out = out
  /\ List.filter (fun c => negb (py_isspace c)) out
     = List.filter (fun c => negb (py_isspace c)) text.
Proof.
  intros out. subst out. unfold _clean_whitespace. cbn zeta.
  set (t1 := collapse_runs 10 3 2 0 text).
  set (t2 := collapse_runs 32 2 1 0 t1).
  destruct (strip_split t2) as (pre & post & Ht2 & Hpre & Hpost).
  assert (H10 : (longest_run 10 (strip t2) <= 2)%nat).
  { unfold longest_run.
    etransitivity; [apply (longest_run_prefix 10 _ post)|].
    etransitivity; [apply (longest_run_suffix 10 pre _ 0)|].
    rewrite <- Ht2. subst t2.
    rewrite (collapse_runs_other 32 10 2 1 t1) by (discriminate || lia).
    cbn [replicate app]. subst t1.
    apply (collapse_runs_bound 10 3 2 text ltac:(lia) 0 0). }
  assert (H32 : (longest_run 32 (strip t2) <= 1)%nat).
  { unfold longest_run.
    etransitivity; [apply (longest_run_prefix 32 _ post)|].
    etransitivity; [apply (longest_run_suffix 32 pre _ 0)|].
    rewrite <- Ht2. subst t2.
    apply (collapse_runs_bound 32 2 1 t1 ltac:(lia) 0 0). }
  split; [exact H10|]. split; [exact H32|]. split; [apply strip_stripped|]. split.
  - rewrite (collapse_runs_fixed 10 3 2 (strip t2) 0) by (unfold longest_run in H10; lia).
    cbn [replicate app].
    rewrite (collapse_runs_fixed 32 2 1 (strip t2) 0) by (unfold longest_run in H32; lia).
    cbn [replicate app]. apply strip_idempotent.
  - transitivity (List.filter (fun c => negb (py_isspace c)) t2).
    + rewrite Ht2 at 2. rewrite !List.filter_app.
      rewrite (filter_whitespace pre Hpre), (filter_whitespace post Hpost).
      now rewrite app_nil_r.
    + subst t2 t1. now rewrite !collapse_runs_filter by reflexivity.
Qed.

(** ** The metadata header *)

Lemma lstrip_keeps c l2 :
  py_isspace c = false ->
  forall l1, (length l2 + 1 <= length (lstrip (l1 ++ c :: l2)))%nat.
Proof.
  intros Hc. induction l1 as [|y l1 IH]; cbn [app lstrip].
  - rewrite Hc. cbn. lia.
  - destruct (py_isspace y); [exact IH|]. cbn. rewrite length_app. cbn. lia.
Qed.

(** A string that starts with something else than whitespace keeps, under
    [strip], everything up to its last character that is not whitespace. *)
Lemma strip_keeps a c b :
  match a ++ c :: b with [] => True | x :: _ => py_isspace x = false end ->
  py_isspace c = false ->
  (length a + 1 <= length (strip (a ++ c :: b)))%nat.
Proof.
  intros Hhead Hc. unfold strip. rewrite (lstrip_fixed _ Hhead).
  rewrite length_rev, rev_app_distr. cbn [rev]. rewrite <- app_assoc. cbn [app].
  pose proof (lstrip_keeps c (rev a) Hc (rev b)) as H.
  rewrite length_rev in H. exact H.
Qed.

Lemma join_last_length sep front last :
  (length last <= length (join sep (front ++ [last])))%nat.
Proof.
  induction front as [|part front IH]; cbn [app join]; [lia|].
  destruct (front ++ [last]) as [|part' rest] eqn:Hf.
  - now destruct front.
  - rewrite !length_app. lia.
Qed.

Lemma source_line_shape feed_name :
  (8 + length feed_name <= length (source_line feed_name))%nat
  /\ exists rest, source_line feed_name = 83%N :: rest.
Proof.
  unfold source_line, pystr_eqb.
  case_bool_decide as Hd; [subst; split; [cbn; lia | now eexists]|].
  case_bool_decide as Ho; [subst; split; [cbn; lia | now eexists]|].
  split; [rewrite length_app; cbn; lia | now eexists].
Qed.

(** The header is made of the non-empty fields and begins with a letter. *)
Lemma header_parts_shape meta :
  m_feed meta <> [] ->
  exists front first rest,
    header_parts meta = front ++ [source_line (m_feed meta)]
    /\ join nl (header_parts meta) = first :: rest
    /\ py_isspace first = false.
Proof.
  intros Hfeed. unfold header_parts.
  destruct (m_feed meta) as [|f feed] eqn:Hf; [congruence|]. cbn [truthy].
  destruct (source_line_shape (f :: feed)) as (_ & srest & Hs).
  destruct (m_pubDate meta) as [|d date], (m_title meta) as [|t title]; cbn [truthy app].
  - exists [], 83%N, srest. rewrite Hs. now split.
  - eexists [_], 84%N, _. split; [reflexivity|]. split; reflexivity.
  - eexists [_], 80%N, _. split; [reflexivity|]. split; reflexivity.
  - eexists [_; _], 80%N, _. split; [reflexivity|]. split; reflexivity.
Qed.

(** The header goes before the text and leaves it as it is; there is none
    only when the publication date, the title and the feed are all empty.
    With a non-empty feed name the result is not empty and its stripped
    length is at least that of "Source: ", the name and the separator. *)
Lemma prepend_header_length meta text :
  (exists header,
     prepend_header meta text = header ++ text
     /\ (header = [] <->
         m_pubDate meta = [] /\ m_title meta = [] /\ m_feed meta = []))
  /\ (m_feed meta <> [] ->
      (13 + length (m_feed meta) <= length (strip (prepend_header meta text)))%nat
      /\ forall E,
           (MIN_TEXT_LENGTH E <= 13 + length (m_feed meta))%nat ->
           too_short E (prepend_header meta text) = false).
Proof.
  split.
  - unfold prepend_header.
    destruct (header_parts meta) as [|part parts] eqn:Hp.
    + exists []. split; [reflexivity|]. split; [|reflexivity]. intros _.
      unfold header_parts in Hp.
      destruct (m_pubDate meta), (m_title meta), (m_feed meta);
        cbn in Hp; try discriminate. now repeat split.
    + exists (join nl (part :: parts) ++ nl ++ nl ++ str "---" ++ nl ++ nl).
      split; [now rewrite <- !app_assoc|]. split.
      * intros H. apply app_eq_nil in H as [_ H]. discriminate H.
      * intros (Hd & Ht & Hf). unfold header_parts in Hp.
        rewrite Hd, Ht, Hf in Hp. discriminate Hp.
  - intros Hfeed.
    destruct (header_parts_shape meta Hfeed) as (front & first & rest & Hparts & Hjoin & Hfirst).
    assert (Hlen : (13 + length (m_feed meta)
                    <= length (strip (prepend_header meta text)))%nat).
    { unfold prepend_header.
      destruct (header_parts meta) as [|part parts] eqn:Hp;
        [now destruct front|].
      assert (Hlast : (length (source_line (m_feed meta))
                       <= length (join nl (part :: parts)))%nat)
        by (rewrite Hparts; apply join_last_length).
      destruct (source_line_shape (m_feed meta)) as (Hsrc & _).
      assert (Heq : join nl (part :: parts) ++ nl ++ nl ++ str "---" ++ nl ++ nl ++ text
                    = (join nl (part :: parts) ++ nl ++ nl ++ str "--")
                      ++ 45%N :: nl ++ nl ++ text)
        by (rewrite <- !app_assoc; reflexivity).
      rewrite Heq.
      etransitivity; [|apply strip_keeps; [|reflexivity]].
      - rewrite !length_app.
        change (length nl) with 1%nat. change (length (str "--")) with 2%nat. lia.
      - rewrite Hjoin. exact Hfirst. }
    split; [exact Hlen|]. intros E Hmin. unfold too_short.
    destruct (prepend_header meta text) as [|c s] eqn:Hpre.
    + cbn in Hlen. lia.
    + cbn [truthy negb orb]. apply Nat.ltb_ge. lia.
Qed.

(** ** Fetching over HTTP *)

(** One attempt of a fetch; [body] is what the fetch returns of the
    response: its [content] for [fetch_rss], its [text] for [fetch_html]. *)
Lemma fetch_attempt_run E (body : http_response -> pystr) url w :
  (let* response := remote (fun t => session_get E t url) (HttpGet url) in
   raise_for_status response ;;;
   ret (body response)) w
  = let w1 ok := {| tick := S (tick w); bucket := bucket w;
                    trace := Called (HttpGet url) ok :: trace w |} in
    match session_get E (tick w) url with
    | Raise e => (Raise e, w1 false)
    | Ok response =>
        if (400 <=? status_code response) && (status_code response <? 600)
        then (Raise (HTTPError (status_code response)), w1 true)
        else (Ok (body response), w1 true)
    end.
Proof.
  unfold remote, raise_for_status, bind, next_tick. cbn.
  destruct (session_get E (tick w) url) as [response|e]; cbn; [|reflexivity].
  now destruct ((400 <=? status_code response) && (status_code response <? 600)).
Qed.

Lemma fetch_returns E (body : http_response -> pystr) url w got w' :
  retry_ is_request_error 3 1
    (let* response := remote (fun t => session_get E t url) (HttpGet url) in
     raise_for_status response ;;;
     ret (body response)) w = (Ok got, w') ->
  exists response,
    session_get E (pred (tick w')) url = Ok response
    /\ body response = got
    /\ (400 <=? status_code response) && (status_code response <? 600) = false.
Proof.
  intros H.
  apply (retry_ok_inv any_world) in H as (w1 & _ & H);
    [|intros; exact I|intros; exact I|intros; exact I|apply any_world_steps].
  rewrite fetch_attempt_run in H. cbn zeta in H.
  destruct (session_get E (tick w1) url) as [response|e] eqn:Hg; [|discriminate].
  destruct ((400 <=? status_code response) && (status_code response <? 600)) eqn:Hs;
    [discriminate|].
  apply ok_inj in H as [<- <-]. cbn [tick pred]. now exists response.
Qed.

Lemma fetch_not_retried E (body : http_response -> pystr) url w e :
  session_get E (tick w) url = Raise e -> is_request_error e = false ->
  retry_ is_request_error 3 1
    (let* response := remote (fun t => session_get E t url) (HttpGet url) in
     raise_for_status response ;;;
     ret (body response)) w
  = (Raise e, {| tick := S (tick w); bucket := bucket w;
                 trace := Called (HttpGet url) false :: trace w |}).
Proof.
  intros Hg Hne. cbn [retry_]. unfold bind at 1.
  rewrite try_run, fetch_attempt_run. cbn zeta. rewrite Hg. cbn [fst snd].
  now rewrite Hne.
Qed.

Lemma fetch_error_status E (body : http_response -> pystr) url w :
  (forall i, (i < 3)%nat ->
     exists response,
       session_get E (tick w + i) url = Ok response
       /\ (400 <=? status_code response) && (status_code response <? 600) = true) ->
  let w' := {| tick := S (S (S (tick w))); bucket := bucket w;
               trace := Called (HttpGet url) true :: Called (Backoff 2) true
                        :: Called (HttpGet url) true :: Called (Backoff 1) true
                        :: Called (HttpGet url) true :: trace w |} in
  exists response,
    session_get E (tick w + 2) url = Ok response
    /\ retry_ is_request_error 3 1
         (let* response := remote (fun t => session_get E t url) (HttpGet url) in
          raise_for_status response ;;;
          ret (body response)) w
       = (Raise (RetryError (HTTPError (status_code response))), w')
    /\ count is_http_get (trace w') = (count is_http_get (trace w) + 3)%nat.
Proof.
  intros Herr w'.
  destruct (Herr 0%nat ltac:(lia)) as (r0 & Hg0 & Hs0).
  destruct (Herr 1%nat ltac:(lia)) as (r1 & Hg1 & Hs1).
  destruct (Herr 2%nat ltac:(lia)) as (r2 & Hg2 & Hs2).
  rewrite Nat.add_0_r in Hg0. rewrite Nat.add_1_r in Hg1.
  exists r2. split; [exact Hg2|].
  replace (tick w + 2)%nat with (S (S (tick w))) in Hg2 by lia.
  erewrite retry_again;
    [|rewrite fetch_attempt_run; cbn zeta; rewrite Hg0, Hs0; reflexivity|reflexivity].
  erewrite retry_again;
    [|rewrite fetch_attempt_run; cbn zeta; cbn [tick logged]; rewrite Hg1, Hs1;
      reflexivity
     |reflexivity].
  cbn [retry_]. unfold bind at 1. rewrite try_run, fetch_attempt_run.
  cbn zeta. cbn [tick logged].
  rewrite Hg2, Hs2. cbn [fst snd is_request_error].
  split; [reflexivity|].
  subst w'. cbn [trace]. rewrite !count_cons. cbn [is_http_get]. lia.
Qed.

(** [fetch_rss] returns the body of the last response as received and
    [fetch_html] its decoded text, in both cases of a response whose status
    is outside 400..599.  An exception of the transport that is not a
    request error is not retried: it propagates after the first GET.  An
    error status is retried: three such answers in a row make three GETs and
    end in [RetryError] around the [HTTPError] of the last status. *)
Theorem fetch_outcomes E url w :
  (forall xml w',
     fetch_rss E url w = (Ok xml, w') ->
     exists response,
       session_get E (pred (tick w')) url = Ok response
       /\ content response = xml
       /\ (400 <=? status_code response) && (status_code response <? 600) = false)
  /\ (forall html w',
        fetch_html E url w = (Ok html, w') ->
        exists response,
          session_get E (pred (tick w')) url = Ok response
          /\ text response = html
          /\ (400 <=? status_code response) && (status_code response <? 600) = false)
  /\ (forall e,
        session_get E (tick w) url = Raise e -> is_request_error e = false ->
        let w' := {| tick := S (tick w); bucket := bucket w;
                     trace := Called (HttpGet url) false :: trace w |} in
        fetch_rss E url w = (Raise e, w') /\ fetch_html E url w = (Raise e, w'))
  /\ ((forall i, (i < 3)%nat ->
         exists response,
           session_get E (tick w + i) url = Ok response
           /\ (400 <=? status_code response) && (status_code response <? 600) = true) ->
      exists response w',
        session_get E (tick w + 2) url = Ok response
        /\ fetch_rss E url w
           = (Raise (RetryError (HTTPError (status_code response))), w')
        /\ fetch_html E url w
           = (Raise (RetryError (HTTPError (status_code response))), w')
        /\ count is_http_get (trace w') = (count is_http_get (trace w) + 3)%nat).
Proof.
  split; [|split; [|split]].
  - intros xml w'. apply fetch_returns.
  - intros html w'. apply fetch_returns.
  - intros e Hg Hne w'. split; now apply fetch_not_retried.
  - intros Herr.
    destruct (fetch_error_status E content url w Herr) as (r & Hg & Hrun & Hc).
    destruct (fetch_error_status E text url w Herr) as (r' & Hg' & Hrun' & _).
    rewrite Hg in Hg'. injection Hg' as <-.
    eexists r, _. split; [exact Hg|]. split; [exact Hrun|]. split; [exact Hrun'|].
    exact Hc.
Qed.

(** A page that is not there is asked for three times. *)
Lemma fetch_outcomes_witness :
  exists w',
    fetch_html missing_page (str "https://blogs.nvidia.com/cuda-news") start
    = (Raise (RetryError (HTTPError 404)), w')
    /\ count is_http_get (trace w') = 3%nat.
Proof.
  destruct (fetch_outcomes missing_page (str "https://blogs.nvidia.com/cuda-news") start)
    as (_ & _ & _ & H).
  destruct H as (response & w' & Hg & _ & Hrun & Hcount).
  - intros i _. eexists. split; reflexivity.
  - exists w'. split; [|exact Hcount].
    rewrite Hrun. injection Hg as <-. reflexivity.
Defined.

(** ** A feed without new items *)

Lemma detect_budget E p g s feed_name feed_config :
  (forall sv m, p (Log sv m) = false) ->
  (forall i ok, p (Called (Backoff i) ok) = false) ->
  (forall u, (weight p (HttpGet u) <= g)%nat) ->
  (forall path, (weight p (BlobExists path) <= s)%nat) ->
  (forall path, (weight p (BlobDownload path) <= s)%nat) ->
  at_most p (3 * g + 3 * (s + s)) (detect_new_items E feed_name feed_config).
Proof.
  intros Hlog Hback Hg Hx Hd. unfold detect_new_items, log_structured.
  apply (at_most_bind p 0 (3 * g + 3 * (s + s)));
    [apply at_most_quiet, Hlog | intros _ | lia].
  apply (at_most_bind p (3 * g) (3 * (s + s)));
    [apply (fetch_budget E p Hback g), Hg | intros rss_xml | lia].
  apply (at_most_bind p 0 (3 * (s + s))); [| intros items | lia].
  { unfold parse_rss. destruct (feedparser_parse E rss_xml);
      [apply at_most_ret | apply at_most_raise]. }
  apply (at_most_bind p 0 (3 * (s + s)));
    [apply at_most_quiet, Hlog | intros _ | lia].
  apply (at_most_bind p (3 * (s + s)) 0);
    [apply (read_json_budget E p Hback s); [apply Hx | apply Hd] | intros loaded | lia].
  apply (at_most_bind p 0 0); [apply at_most_quiet, Hlog | intros _ | lia].
  apply (at_most_bind p 0 0); [apply at_most_quiet, Hlog | intros _ | lia].
  apply at_most_ret.
Qed.

(** When the detection finds no new item, the feed's pass returns at once:
    it has written nothing, made no upload, import, status check, embedding
    or upsert, and at most nine remote calls in all (the GETs of the feed and
    the reads of the processed ids, with their retries). *)
Theorem nothing_new_nothing_done E feed_name feed_config w processed_ids w1 :
  detect_new_items E feed_name feed_config
    (logged [Log INFO (ProcessingFeed feed_name)] w)
  = (Ok (processed_ids, []), w1) ->
  process_feed E feed_name feed_config w = (Ok tt, logged [Log INFO NoNewItems] w1)
  /\ bucket w1 = bucket w
  /\ count is_downstream_call (trace w1) = count is_downstream_call (trace w)
  /\ (count is_remote_call (trace w1) <= count is_remote_call (trace w) + 9)%nat.
Proof.
  intros Hd. set (w0 := logged [Log INFO (ProcessingFeed feed_name)] w) in *.
  split; [|split; [|split]].
  - rewrite process_feed_run. fold w0. unfold feed_pass.
    rewrite (bind_ok _ _ _ _ _ Hd). reflexivity.
  - pose proof (steps_detect_new_items same_bucket same_bucket_refl same_bucket_trans
                  same_bucket_tick same_bucket_emit E feed_name feed_config w0) as Hs.
    rewrite Hd in Hs. exact Hs.
  - pose proof (detect_budget E is_downstream_call 0 0 feed_name feed_config
                  ltac:(reflexivity) ltac:(reflexivity)
                  ltac:(intros; cbv; lia) ltac:(intros; cbv; lia)
                  ltac:(intros; cbv; lia) w0) as Hb.
    pose proof (emits_count_ge (fun _ => True) is_downstream_call
                  (detect_new_items E feed_name feed_config) w0) as Hge.
    rewrite Hd in Hb, Hge. cbn [snd] in Hb, Hge.
    assert (H0 : count is_downstream_call (trace w0)
                 = count is_downstream_call (trace w))
      by (subst w0; now rewrite count_logged).
    specialize (Hge ltac:(apply pass_detect_new_items; intros; exact I)). lia.
  - pose proof (detect_budget E is_remote_call 1 1 feed_name feed_config
                  ltac:(reflexivity) ltac:(reflexivity)
                  ltac:(intros; cbv; lia) ltac:(intros; cbv; lia)
                  ltac:(intros; cbv; lia) w0) as Hb.
    rewrite Hd in Hb. cbn [snd] in Hb.
    assert (H0 : count is_remote_call (trace w0) = count is_remote_call (trace w))
      by (subst w0; now rewrite count_logged).
    lia.
Qed.

(** The only entry of the feed is in the processed set. *)
Lemma nothing_new_nothing_done_witness :
  exists w1,
    process_feed healthy (str "dev") (snd dev_feed) seen_before
    = (Ok tt, logged [Log INFO NoNewItems] w1)
    /\ bucket w1 = bucket seen_before.
Proof.
  pose (w1 := snd (detect_new_items healthy (str "dev") (snd dev_feed)
                     (logged [Log INFO (ProcessingFeed (str "dev"))] seen_before))).
  assert (Hd : detect_new_items healthy (str "dev") (snd dev_feed)
                 (logged [Log INFO (ProcessingFeed (str "dev"))] seen_before)
               = (Ok (seen_doc, []), w1))
    by (vm_compute; reflexivity).
  destruct (nothing_new_nothing_done healthy (str "dev") (snd dev_feed) seen_before
              seen_doc w1 Hd) as (H1 & H2 & _).
  exists w1. split; [exact H1 | exact H2].
Defined.

(** ** The import under its retries *)

(** After [j] failed attempts the wrapper is where it started, with [j]
    attempts less and in the world the failures and backoffs lead to. *)
Lemma retry_after_failures {A} (f : M A) retryable :
  forall j n k w,
    (forall i, (i < j)%nat ->
       exists e, fst (f (after_failures f i k w)) = Raise e /\ retryable e = true) ->
    retry_ retryable (S (j + n)) k f w
    = retry_ retryable (S n) (k + j) f (after_failures f j k w).
Proof.
  induction j as [|j IH]; intros n k w H.
  - cbn [after_failures Nat.add]. now rewrite Nat.add_0_r.
  - destruct (H 0%nat ltac:(lia)) as (e & He & Hr). cbn [after_failures] in He.
    destruct (f w) as [r w1] eqn:Hf. cbn [fst] in He. subst r.
    change (S (S j + n)) with (S (S (j + n))).
    rewrite (retry_again f retryable (j + n) k w e w1 Hf Hr).
    rewrite IH.
    + cbn [after_failures]. rewrite Hf. cbn [snd].
      now replace (k + S j)%nat with (S k + j)%nat by lia.
    + intros i Hi. specialize (H (S i) ltac:(lia)).
      cbn [after_failures] in H. rewrite Hf in H. exact H.
Qed.

Lemma retry_last {A} (f : M A) retryable k w e w1 :
  f w = (Raise e, w1) -> retryable e = true ->
  retry_ retryable 1 k f w = (Raise (RetryError e), w1).
Proof.
  intros Hf Hr. cbn [retry_]. unfold bind at 1. rewrite try_run, Hf. cbn [fst snd].
  now rewrite Hr.
Qed.

Lemma accepted_not_concurrent r :
  status_accepted (post_status r) = true ->
  (post_status r =? 400) && concurrent_body r = false.
Proof.
  unfold status_accepted. intros H. apply orb_true_iff in H as [H|H];
    apply N.eqb_eq in H; rewrite H; reflexivity.
Qed.

(** An attempt submits the import once, unless it fails to get its token. *)
Lemma ingest_attempt_posts E text meta w :
  count is_import_post (trace (snd (ingest_attempt E text meta w)))
  = (count is_import_post (trace w)
     + match token_fault E (tick w) with Some _ => 0 | None => 1 end)%nat.
Proof.
  rewrite ingest_attempt_run. cbn zeta.
  destruct (token_fault E (tick w)) as [e|]; cbn [snd trace];
    [rewrite count_cons; cbn [is_import_post]; lia|].
  assert (Hpost : forall ok w1,
            trace w1 = Called (ImportPost (gcs_uri_of E meta)) ok
                       :: Called GetAccessToken true :: trace w ->
            count is_import_post (trace w1) = (count is_import_post (trace w) + 1)%nat).
  { intros ok w1 ->. rewrite !count_cons. cbn [is_import_post]. lia. }
  destruct (requests_post E (S (tick w)) (gcs_uri_of E meta)) as [r|e];
    cbn [snd]; [|now apply (Hpost false)].
  destruct ((post_status r =? 400) && concurrent_body r);
    cbn [snd]; [now apply (Hpost true)|].
  destruct (negb (status_accepted (post_status r)));
    cbn [snd]; [now apply (Hpost true)|].
  destruct (operation_name r) as [name|]; cbn [snd]; [|now apply (Hpost true)].
  destruct (negb (truthy name)); cbn [snd]; [now apply (Hpost true)|].
  match goal with
  | |- context [bind (poll_loop E ?url ?n) _ ?w0] =>
      assert (Hsnd : snd (bind (poll_loop E url n) (fun _ => ret tt) w0)
                     = snd (poll_loop E url n w0))
        by (unfold bind; destruct (poll_loop E url n w0) as [[c|e] w2]; reflexivity);
      rewrite Hsnd;
      rewrite (emits_count_eq is_import_post (poll_loop E url n) w0)
  end.
  - now apply (Hpost true).
  - apply pass_poll_loop.
    intros c ok Hc. destruct c; try reflexivity; discriminate Hc.
Qed.

(** C3 (amended): when a status check finds the operation in a terminal error
    state, the poll loop stops at that check and raises the operation
    failure, and so does the attempt that polls.  The retry wrapper of
    [ingest_to_rag] treats it like any other exception: after [j] failed
    attempts, [j] at most 4, it has backed off [j] times and runs the whole
    body again with [5 - j] attempts left; every attempt that gets its
    access token submits the import, once; after a fifth failed attempt the
    caller gets [RetryError] around the exception of that attempt, and in
    all cases the caller sees success or [RetryError], never the operation
    failure itself. *)
Theorem terminal_error_is_retried E text meta w :
  let attempt := ingest_attempt E text meta in
  (forall operation_url w0 k,
     (1 <= k <= max_poll_attempts)%nat ->
     (forall i, (i < k - 1)%nat ->
        in_progress (requests_get E (tick w0 + i) operation_url) = true) ->
     terminal_error (requests_get E (tick w0 + (k - 1)) operation_url) = true ->
     exists w',
       poll_loop E operation_url max_poll_attempts w0
       = (Raise (RagException OperationFailed), w')
       /\ count is_status_check (trace w') = (count is_status_check (trace w0) + k)%nat)
  /\ (forall w0 r name e w',
        token_fault E (tick w0) = None ->
        requests_post E (S (tick w0)) (gcs_uri_of E meta) = Ok r ->
        status_accepted (post_status r) = true ->
        operation_name r = Some name -> name <> [] ->
        poll_loop E (base_url E ++ str "/" ++ name) max_poll_attempts
          {| tick := S (S (tick w0)); bucket := bucket w0;
             trace := Called (ImportPost (gcs_uri_of E meta)) true
                      :: Called GetAccessToken true :: trace w0 |}
        = (Raise e, w') ->
        attempt w0 = (Raise e, w'))
  /\ (forall j,
        (j <= 4)%nat ->
        (forall i, (i < j)%nat ->
           exists e, fst (attempt (after_failures attempt i 1 w)) = Raise e) ->
        ingest_to_rag E text meta w
        = retry_ is_exception (5 - j) (1 + j) attempt (after_failures attempt j 1 w))
  /\ (forall w0,
        count is_import_post (trace (snd (attempt w0)))
        = (count is_import_post (trace w0)
           + match token_fault E (tick w0) with Some _ => 0 | None => 1 end)%nat)
  /\ (forall e,
        (forall i, (i < 4)%nat ->
           exists e', fst (attempt (after_failures attempt i 1 w)) = Raise e') ->
        fst (attempt (after_failures attempt 4 1 w)) = Raise e ->
        fst (ingest_to_rag E text meta w) = Raise (RetryError e))
  /\ match fst (ingest_to_rag E text meta w) with
     | Ok _ | Raise (RetryError _) => True
     | Raise _ => False
     end.
Proof.
  intros attempt.
  assert (Hchain : forall j,
            (j <= 4)%nat ->
            (forall i, (i < j)%nat ->
               exists e, fst (attempt (after_failures attempt i 1 w)) = Raise e) ->
            ingest_to_rag E text meta w
            = retry_ is_exception (5 - j) (1 + j) attempt
                (after_failures attempt j 1 w)).
  { intros j Hj Hfail. unfold ingest_to_rag. fold attempt.
    replace 5%nat with (S (j + (4 - j))) at 1 by lia.
    rewrite retry_after_failures.
    - now replace (S (4 - j)) with (5 - j)%nat by lia.
    - intros i Hi. destruct (Hfail i Hi) as (e & He). now exists e. }
  split; [|split; [|split; [|split; [|split]]]].
  - intros operation_url w0 k Hk Hrun Herr.
    destruct (poll_loop_after_running E operation_url
                (Raise (RagException OperationFailed))
                (k - 1) max_poll_attempts w0) as (w' & Hw' & Hc & _).
    + lia.
    + exact Hrun.
    + intros w1 Hw1.
      destruct (max_poll_attempts - (k - 1))%nat as [|r] eqn:Hr; [lia|].
      apply poll_loop_error. now rewrite Hw1.
    + exists w'. split; [exact Hw'|]. rewrite Hc. lia.
  - intros w0 r name e w' Ht Hp Ha Hn Hne Hpoll. subst attempt.
    rewrite ingest_attempt_run. cbn zeta.
    rewrite Ht, Hp, (accepted_not_concurrent r Ha), Ha, Hn. cbn [negb].
    apply truthy_nonempty in Hne. rewrite Hne. cbn [negb].
    unfold bind. now rewrite Hpoll.
  - exact Hchain.
  - intros w0. apply ingest_attempt_posts.
  - intros e Hfail Hlast. rewrite (Hchain 4%nat (le_n _) Hfail).
    cbn [Nat.sub Nat.add].
    destruct (attempt (after_failures attempt 4 1 w)) as [r w1] eqn:Ha.
    cbn [fst] in Hlast. subst r.
    now rewrite (retry_last attempt is_exception 5 _ e w1 Ha eq_refl).
  - apply (retry_all_result (ingest_attempt E text meta) 5 1 w).
Qed.

(** C3 on the deployment whose operations all fail: the first attempt raises
    the operation failure, the wrapper goes on to a second attempt, and that
    attempt submits the import a second time. *)
Lemma terminal_error_is_retried_witness :
  ingest_to_rag rejecting (str "text") sample_metadata start
  = retry_ is_exception 4 2 (ingest_attempt rejecting (str "text") sample_metadata)
      (after_failures (ingest_attempt rejecting (str "text") sample_metadata) 1 1 start)
  /\ count is_import_post
       (trace (snd (ingest_attempt rejecting (str "text") sample_metadata
                      (after_failures
                         (ingest_attempt rejecting (str "text") sample_metadata)
                         1 1 start))))
     = 2%nat.
Proof.
  destruct (terminal_error_is_retried rejecting (str "text") sample_metadata start)
    as (_ & _ & Hchain & Hposts & _).
  split.
  - apply (Hchain 1%nat); [lia|].
    intros i Hi. exists (RagException OperationFailed).
    destruct i; [reflexivity | lia].
  - rewrite Hposts. reflexivity.
Defined.

(** ** The processed ids and the bucket *)

Lemma read_json_attempt_none E blob_path w w' :
  read_json_attempt E blob_path w = (Ok None, w') -> bucket w !! blob_path = None.
Proof.
  unfold read_json_attempt. unfold bind at 1. rewrite try_run, read_body_run. cbn zeta.
  destruct (storage_fault E (tick w)) as [e|]; cbn [fst snd]; [cbn; discriminate|].
  destruct (bucket w !! blob_path) as [b|]; [|reflexivity].
  destruct (storage_fault E (S (tick w))) as [e|]; cbn [fst snd]; [cbn; discriminate|].
  destruct b; cbn; discriminate.
Qed.

(** What [read_json] returns is what the bucket holds at the path: the
    object that is stored there, or [None] when nothing is. *)
Lemma read_json_loaded E blob_path w loaded w' :
  read_json E blob_path w = (Ok loaded, w') ->
  bucket w' = bucket w
  /\ match loaded with
     | Some data => bucket w !! blob_path = Some (Json data)
     | None => bucket w !! blob_path = None
     end.
Proof.
  intros H. split.
  - pose proof (steps_read_json same_bucket same_bucket_refl same_bucket_trans
                  same_bucket_tick same_bucket_emit E blob_path w) as Hs.
    now rewrite H in Hs.
  - destruct loaded as [data|]; [now apply read_json_some in H|].
    unfold read_json in H.
    apply (retry_ok_inv same_bucket) in H as (w1 & HR & H1).
    + apply read_json_attempt_none in H1. now rewrite <- HR.
    + apply same_bucket_refl.
    + apply same_bucket_trans.
    + apply same_bucket_emit.
    + apply (steps_read_json_attempt same_bucket same_bucket_refl same_bucket_trans
               same_bucket_tick same_bucket_emit).
Qed.

Lemma stored_same w w' path :
  bucket w' !! path = bucket w !! path ->
  stored_ids w' path = stored_ids w path /\ stored_rest w' path = stored_rest w path.
Proof. unfold stored_ids, stored_rest. now intros ->. Qed.

(** The object the pass works on has the ids and the other members of the
    stored one. *)
Lemma loaded_or_empty_stored w path loaded :
  match loaded with
  | Some data => bucket w !! path = Some (Json data)
  | None => bucket w !! path = None
  end ->
  ids_of (loaded_or_empty loaded) = stored_ids w path
  /\ doc_rest (loaded_or_empty loaded) = stored_rest w path.
Proof.
  unfold stored_ids, stored_rest, loaded_or_empty, ids_of.
  destruct loaded as [[ids rest]|]; intros ->; [|now split].
  unfold doc_truthy. cbn. destruct ids as [ids|]; [now split|].
  destruct rest; now split.
Qed.

(** The detection, step by step: the feed is fetched and parsed, the stored
    object is read, and the new items are those of the parsed ones whose
    identity is not among the stored ids. *)
Lemma detect_new_items_inv E feed_name feed_config w0 processed_ids new_items w1 :
  detect_new_items E feed_name feed_config w0 = (Ok (processed_ids, new_items), w1) ->
  let path := processed_ids_path (folder feed_config) in
  exists rss_xml entries wa,
    fetch_rss E (url feed_config) (logged [Log INFO FetchingRssFeed] w0)
    = (Ok rss_xml, wa)
    /\ feedparser_parse E rss_xml = Ok entries
    /\ new_items = get_new_items (map item_of_entry entries)
                     (list_to_set (stored_ids w0 path))
    /\ ids_of processed_ids = stored_ids w0 path
    /\ doc_rest processed_ids = stored_rest w0 path
    /\ bucket w1 = bucket w0.
Proof.
  intros H path. unfold detect_new_items in H.
  bind_inv H. apply bind_ok_inv in H as (rss_xml & wa & Hfetch & H).
  apply bind_ok_inv in H as (items & wb & Hparse & H).
  bind_inv H. apply bind_ok_inv in H as (loaded & wc & Hread & H).
  bind_inv H. bind_inv H. apply ok_inj in H as [H <-]. injection H as <- <-.
  unfold parse_rss in Hparse.
  destruct (feedparser_parse E rss_xml) as [entries|e] eqn:Hentries; [|discriminate].
  apply ok_inj in Hparse as [<- <-].
  apply read_json_loaded in Hread as (Hbc & Hloaded). cbn [logged bucket] in Hbc, Hloaded.
  pose proof (steps_fetch_rss same_bucket same_bucket_refl same_bucket_trans
                same_bucket_tick same_bucket_emit E (url feed_config)
                (logged [Log INFO FetchingRssFeed] w0)) as Hba.
  rewrite Hfetch in Hba. unfold same_bucket in Hba. cbn [snd logged bucket] in Hba.
  assert (Hstored : match loaded with
                    | Some data => bucket w0 !! path = Some (Json data)
                    | None => bucket w0 !! path = None
                    end).
  { subst path. destruct loaded; now rewrite <- Hba. }
  destruct (loaded_or_empty_stored w0 path loaded Hstored) as (Hids & Hrest).
  exists rss_xml, entries, wa. split; [exact Hfetch|]. split; [exact Hentries|].
  split; [now rewrite Hids|]. split; [exact Hids|]. split; [exact Hrest|].
  cbn [logged bucket]. now rewrite Hbc.
Qed.

Lemma for_items_keeps_ids E feed_name folder new_items ls w :
  bucket (snd (for_items E feed_name folder new_items ls w)) !! processed_ids_path folder
  = bucket w !! processed_ids_path folder.
Proof.
  apply (steps_for_items (same_at (processed_ids_path folder))
           (same_at_refl _) (same_at_trans _) (same_at_tick _) (same_at_emit _)
           (fun q => q <> processed_ids_path folder) (same_at_put _) E folder).
  intros item_id. apply artifact_not_processed_ids.
Qed.

(** A pass after its detection: the item loop runs over the new items and
    leaves the stored object alone; then either nothing is written, and a
    pass that returns has marked nothing, or the pass returns after it has
    written, once, the stored ids followed by the marked ones. *)
Lemma feed_pass_stored E feed_name feed_config w0 processed_ids new_items w1 r wf :
  detect_new_items E feed_name feed_config w0 = (Ok (processed_ids, new_items), w1) ->
  feed_pass E feed_name feed_config w0 = (r, wf) ->
  let path := processed_ids_path (folder feed_config) in
  let runs := item_runs E feed_name (folder feed_config) new_items w1 in
  exists ls w2,
    for_items E feed_name (folder feed_config) new_items loop_init w1 = (Ok ls, w2)
    /\ new_processed_ids ls = marked_ids runs
    /\ count is_json_write (trace w2) = count is_json_write (trace w0)
    /\ ((count is_json_write (trace wf) = count is_json_write (trace w0)
         /\ bucket wf !! path = bucket w0 !! path
         /\ (r = Ok tt -> marked_ids runs = []))
        \/ (count is_json_write (trace wf) = S (count is_json_write (trace w0))
            /\ r = Ok tt
            /\ marked_ids runs <> []
            /\ bucket wf !! path
               = Some (Json {| doc_ids := Some (stored_ids w0 path ++ marked_ids runs);
                               doc_rest := stored_rest w0 path |}))).
Proof.
  intros Hd Hp path runs.
  destruct (for_items_commit E feed_name (folder feed_config) new_items loop_init w1)
    as (ls & w2 & Hfor & Hids & _ & Hc2).
  fold runs in Hids. cbn [loop_init new_processed_ids app] in Hids.
  pose proof (json_free_count _
                (emits_detect_new_items E _ (fun _ H => H) feed_name feed_config) w0)
    as Hc1.
  rewrite Hd in Hc1. cbn [snd] in Hc1.
  pose proof (for_items_keeps_ids E feed_name (folder feed_config) new_items
                loop_init w1) as Hkeep.
  rewrite Hfor in Hkeep. cbn [snd] in Hkeep. fold path in Hkeep.
  apply detect_new_items_inv in Hd as Hinv.
  destruct Hinv as (_ & _ & _ & _ & _ & _ & Hstored & Hrest & Hb1).
  fold path in Hstored, Hrest.
  exists ls, w2. split; [exact Hfor|]. split; [exact Hids|].
  split; [now rewrite Hc2|].
  unfold feed_pass in Hp. rewrite (bind_ok _ _ _ _ _ Hd) in Hp.
  destruct new_items as [|it rest].
  { rewrite log_run in Hp. injection Hp as <- <-. left.
    rewrite count_logged. cbn [logged bucket]. rewrite Hb1.
    split; [cbn; lia|]. split; reflexivity. }
  remember (it :: rest) as new_items eqn:Hnew.
  unfold process_new_items in Hp. rewrite (bind_ok _ _ _ _ _ Hfor) in Hp.
  unfold update_processed_ids in Hp. rewrite Hids in Hp.
  case_bool_decide as Hm.
  - unfold bind at 1 in Hp. cbn [ret] in Hp. rewrite log_run in Hp.
    injection Hp as <- <-. left.
    rewrite count_logged. cbn [logged bucket]. rewrite Hkeep, Hb1.
    split; [cbn; lia|]. split; [reflexivity|]. intros _. exact Hm.
  - destruct (doc_ids processed_ids) as [ids|] eqn:Hdoc.
    + assert (Hi : ids = stored_ids w0 path).
      { rewrite <- Hstored. unfold ids_of. now rewrite Hdoc. }
      unfold bind at 1 2 in Hp.
      destruct (write_json E (processed_ids_path (folder feed_config)) _ w2)
        as [[[]|e] w3] eqn:Hw.
      * rewrite log_run in Hp. cbn [bind] in Hp. unfold bind in Hp.
        rewrite log_run in Hp. injection Hp as <- <-.
        apply write_json_ok in Hw as (Hb & Hc). right.
        rewrite !count_logged. cbn [logged bucket].
        split; [cbn; lia|]. split; [reflexivity|]. split; [exact Hm|].
        fold path in Hb. rewrite Hb, Hi, Hrest. reflexivity.
      * injection Hp as <- <-.
        apply write_json_failed in Hw as (_ & Hb & Hc & _). left.
        rewrite Hc, Hb, Hkeep, Hb1. split; [lia|]. split; [reflexivity|].
        discriminate.
    + unfold bind, raise in Hp. injection Hp as <- <-. left.
      rewrite Hkeep, Hb1. split; [lia|]. split; [reflexivity|]. discriminate.
Qed.

Lemma feed_pass_undetected E feed_name feed_config w0 e w1 r wf :
  detect_new_items E feed_name feed_config w0 = (Raise e, w1) ->
  feed_pass E feed_name feed_config w0 = (r, wf) ->
  r = Raise e
  /\ count is_json_write (trace wf) = count is_json_write (trace w0)
  /\ bucket wf = bucket w0.
Proof.
  intros Hd Hp. unfold feed_pass in Hp. rewrite (bind_raise _ _ _ _ _ Hd) in Hp.
  injection Hp as <- <-. split; [reflexivity|].
  pose proof (json_free_count _
                (emits_detect_new_items E _ (fun _ H => H) feed_name feed_config) w0)
    as Hc.
  pose proof (steps_detect_new_items same_bucket same_bucket_refl same_bucket_trans
                same_bucket_tick same_bucket_emit E feed_name feed_config w0) as Hb.
  rewrite Hd in Hc, Hb. now split.
Qed.

(** C6: the item loop only appends to the new processed ids, and what it
    appends are exactly the ids of the items whose block completed, each of
    which went through the corpus import, the embedding and the vector
    upsert; the loop itself writes no JSON object.  Over a pass of
    [process_feed] the ids stored in the bucket only grow: the ids stored
    before are a prefix of those stored after.  The pass writes at most one
    JSON object; if it writes none, the stored object is the one that was
    there; if it writes one, it does so after the item loop has gone through
    the whole list, and what is then stored are the ids stored before
    followed by the ids of the completed items, with the other members of
    the object unchanged. *)
Theorem processed_ids_commit E feed_name feed_config :
  (forall new_items ls w1,
     let runs := item_runs E feed_name (folder feed_config) new_items w1 in
     exists ls' w2,
       for_items E feed_name (folder feed_config) new_items ls w1 = (Ok ls', w2)
       /\ new_processed_ids ls' = new_processed_ids ls ++ marked_ids runs
       /\ Forall (fun r => completed r = true -> downstream_succeeded E r) runs
       /\ count is_json_write (trace w2) = count is_json_write (trace w1))
  /\ (forall w r wf,
        process_feed E feed_name feed_config w = (r, wf) ->
        let path := processed_ids_path (folder feed_config) in
        (count is_json_write (trace wf) <= count is_json_write (trace w) + 1)%nat
        /\ stored_ids w path `prefix_of` stored_ids wf path
        /\ (count is_json_write (trace wf) = count is_json_write (trace w) ->
            bucket wf !! path = bucket w !! path)
        /\ (count is_json_write (trace wf) = (count is_json_write (trace w) + 1)%nat ->
            exists processed_ids new_items w1 ls w2,
              detect_new_items E feed_name feed_config
                (logged [Log INFO (ProcessingFeed feed_name)] w)
              = (Ok (processed_ids, new_items), w1)
              /\ for_items E feed_name (folder feed_config) new_items loop_init w1
                 = (Ok ls, w2)
              /\ count is_json_write (trace w2) = count is_json_write (trace w)
              /\ r = Ok tt
              /\ bucket wf !! path
                 = Some (Json
                      {| doc_ids :=
                           Some (stored_ids w path
                                 ++ marked_ids (item_runs E feed_name (folder feed_config)
                                                  new_items w1));
                         doc_rest := stored_rest w path |}))).
Proof.
  split.
  - intros new_items ls w1. apply for_items_commit.
  - intros w r wf Hrun path. rewrite process_feed_run in Hrun.
    set (w0 := logged [Log INFO (ProcessingFeed feed_name)] w) in *.
    assert (Hw0 : count is_json_write (trace w0) = count is_json_write (trace w)
                  /\ bucket w0 = bucket w).
    { subst w0. rewrite count_logged. now split. }
    destruct Hw0 as (Hc0 & Hb0).
    destruct (feed_pass E feed_name feed_config w0) as [rp wp] eqn:Hp.
    assert (Hwf : count is_json_write (trace wf) = count is_json_write (trace wp)
                  /\ bucket wf = bucket wp /\ (rp = Ok tt -> r = Ok tt)).
    { destruct rp as [[]|e]; injection Hrun as <- <-;
        rewrite ?count_logged; repeat split; congruence. }
    destruct Hwf as (Hcw & Hbw & Hrw).
    destruct (detect_new_items E feed_name feed_config w0)
      as [[[processed_ids new_items]|e] w1] eqn:Hd.
    + destruct (feed_pass_stored E feed_name feed_config w0 processed_ids new_items
                  w1 rp wp Hd Hp)
        as (ls & w2 & Hfor & Hids & Hc2 & [(Hc & Hb & _)|(Hc & Hr & Hm & Hb)]);
        fold path in Hb.
      * rewrite Hcw, Hbw, Hc, Hb, Hc0, Hb0. split; [lia|]. split.
        { destruct (stored_same w wf path) as [-> _]; [|reflexivity].
          now rewrite Hbw, Hb, Hb0. }
        split; [reflexivity|]. intros Heq. lia.
      * assert (Hsw : stored_ids w0 path = stored_ids w path
                      /\ stored_rest w0 path = stored_rest w path)
          by (apply stored_same; now rewrite Hb0).
        destruct Hsw as (Hsi & Hsr). rewrite Hsi, Hsr in Hb.
        rewrite Hcw, Hbw, Hc, Hc0. split; [lia|]. split.
        { unfold stored_ids at 2. rewrite Hbw, Hb. cbn. now apply prefix_app_r. }
        split; [intros Heq; lia|]. intros _.
        exists processed_ids, new_items, w1, ls, w2.
        split; [reflexivity|]. split; [exact Hfor|]. split; [now rewrite Hc2|].
        split; [now apply Hrw|]. exact Hb.
    + destruct (feed_pass_undetected E feed_name feed_config w0 e w1 rp wp Hd Hp)
        as (_ & Hc & Hb).
      rewrite Hcw, Hbw, Hc, Hb, Hc0, Hb0. split; [lia|]. split.
      { destruct (stored_same w wf path) as [-> _]; [|reflexivity].
        now rewrite Hbw, Hb, Hb0. }
      split; [reflexivity|]. intros Heq. lia.
Qed.

(** C6 on the healthy deployment, with one id stored for the feed: the pass
    over the one new item writes the processed ids once, the stored id
    first and the id of that item after it. *)
Lemma processed_ids_commit_witness :
  bucket (snd (process_feed healthy (str "dev") (snd dev_feed) one_stored))
    !! processed_ids_path (str "dev")
  = Some (Json {| doc_ids := Some [str "a"; str "https___blogs.nvidia.com__p_1"];
                  doc_rest := [] |}).
Proof.
  pose (wf := snd (process_feed healthy (str "dev") (snd dev_feed) one_stored)).
  pose (w1 := snd (detect_new_items healthy (str "dev") (snd dev_feed)
                     (logged [Log INFO (ProcessingFeed (str "dev"))] one_stored))).
  assert (Hrun : process_feed healthy (str "dev") (snd dev_feed) one_stored = (Ok tt, wf))
    by (vm_compute; reflexivity).
  assert (Hwrites : count is_json_write (trace wf)
                    = (count is_json_write (trace one_stored) + 1)%nat)
    by (vm_compute; reflexivity).
  assert (Hdet : detect_new_items healthy (str "dev") (snd dev_feed)
                   (logged [Log INFO (ProcessingFeed (str "dev"))] one_stored)
                 = (Ok ({| doc_ids := Some [str "a"]; doc_rest := [] |},
                        [item_of_entry post_entry]), w1))
    by (vm_compute; reflexivity).
  assert (Hmarked : marked_ids (item_runs healthy (str "dev") (folder (snd dev_feed))
                                  [item_of_entry post_entry] w1)
                    = [str "https___blogs.nvidia.com__p_1"])
    by (vm_compute; reflexivity).
  destruct (processed_ids_commit healthy (str "dev") (snd dev_feed)) as [_ H].
  destruct (H one_stored (Ok tt) wf Hrun) as (_ & _ & _ & Hex).
  destruct (Hex Hwrites) as (pids & new_items & w1' & ls & w2 & Hd & _ & _ & _ & Hb).
  rewrite Hdet in Hd. injection Hd as <- <- <-.
  etransitivity; [exact Hb|]. rewrite Hmarked. reflexivity.
Defined.

(** ** Abandoned items *)

Lemma clean_html_run E html meta w :
  clean_html E html meta w
  = (match html with
     | [] => Ok []
     | _ =>
         match extract_text E html with
         | Raise e => Raise e
         | Ok text =>
             Ok (prepend_header meta
                   (remove_footer_header_patterns E (_clean_whitespace text)))
         end
     end, w).
Proof.
  unfold clean_html. destruct html as [|c html]; [reflexivity|]. cbn [truthy].
  now destruct (extract_text E (c :: html)).
Qed.

(** The block ends at the text-length check only after the article has been
    fetched and stored, with a cleaned text that fails the check. *)
Lemma article_steps_short_inv E feed_name folder it item_id w w' :
  article_steps E feed_name folder it item_id w = (Ok SkippedTooShort, w') ->
  exists html w_f w_u now clean_text,
    fetch_html E (link it) (logged [Log INFO (FetchingArticleHtml item_id)] w)
    = (Ok html, w_f)
    /\ upload_file E (raw_html_path folder item_id) html w_f = (Ok tt, w_u)
    /\ fst (clean_html E html (metadata_of feed_name it item_id now) w_u)
       = Ok clean_text
    /\ too_short E clean_text = true
    /\ bucket w' = bucket w_u.
Proof.
  unfold article_steps. destruct (truthy (link it)) eqn:Hl; cbn [negb]; intros H.
  - bind_inv H.
    apply bind_ok_inv in H as (html & w_f & Hfetch & H).
    apply bind_ok_inv in H as ([] & w_u & Hup & H).
    bind_inv H.
    apply bind_ok_inv in H as (t & w_t & Hnow & H).
    apply bind_ok_inv in H as (clean_text & w_c & Hclean & H).
    unfold now, bind, next_tick, ret in Hnow. apply ok_inj in Hnow as [<- <-].
    rewrite clean_html_run in Hclean. injection Hclean as Hclean <-.
    match type of H with
    | (if ?c then _ else _) _ = _ => destruct c eqn:Hc
    end.
    + bind_inv H. apply ok_inj in H as [_ <-].
      exists html, w_f, w_u, (utcnow E (tick w_u)), clean_text.
      split; [exact Hfetch|]. split; [exact Hup|].
      split; [rewrite clean_html_run; exact Hclean|].
      split; [exact Hc | reflexivity].
    + do 11 bind_inv H. apply ok_inj in H as [H _]. discriminate H.
  - bind_inv H. apply ok_inj in H as [H _]. discriminate H.
Qed.

Lemma html_not_xml folder item_id :
  raw_xml_path folder item_id <> raw_html_path folder item_id.
Proof.
  unfold raw_xml_path, raw_html_path. intros H.
  apply app_inv_head in H. discriminate H.
Qed.

(** What a fetch of the feed returns is the body of a response of the
    transport. *)
Lemma fetch_rss_content E url w xml w' :
  fetch_rss E url w = (Ok xml, w') ->
  exists t response, session_get E t url = Ok response /\ content response = xml.
Proof.
  intros H. apply fetch_returns in H as (response & Hg & Hc & _).
  now exists (pred (tick w')), response.
Qed.

(** A block that returns has the raw XML of its item in the bucket; one that
    ends at the text-length check has the article there as well. *)
Lemma item_body_stored E feed_name folder it item_id w ex w' :
  item_body E feed_name folder it item_id w = (Ok ex, w') ->
  ex <> Completed ->
  bucket w' !! raw_xml_path folder item_id = Some (Payload (get_item_xml it))
  /\ (ex = SkippedTooShort ->
      exists html now clean_text,
        bucket w' !! raw_html_path folder item_id = Some (Payload html)
        /\ fst (clean_html E html (metadata_of feed_name it item_id now) w')
           = Ok clean_text
        /\ too_short E clean_text = true).
Proof.
  intros Hbody Hex.
  apply item_body_inv in Hbody as (w_up & Hup & Hsteps).
  apply upload_file_ok in Hup as (Hxml & _).
  destruct ex; [congruence| |].
  - apply article_steps_inv in Hsteps
      as [(_ & _ & ->)|[(_ & H)|(_ & H & _)]]; try discriminate.
    split; [exact Hxml | discriminate].
  - apply article_steps_short_inv in Hsteps
      as (html & w_f & w_u & now & clean_text & Hfetch & Hhtml & Hclean & Hshort & Hb).
    pose proof (steps_fetch_html same_bucket same_bucket_refl same_bucket_trans
                  same_bucket_tick same_bucket_emit E (link it)
                  (logged [Log INFO (FetchingArticleHtml item_id)]
                     (logged [Log INFO (SavedRawXml item_id
                                          (raw_xml_path folder item_id))] w_up)))
      as Hf.
    rewrite Hfetch in Hf. unfold same_bucket in Hf. cbn [snd logged bucket] in Hf.
    apply store_retry_run in Hhtml as [(_ & Hput & _)|((e & He) & _)];
      [|discriminate He].
    rewrite Hb, Hput, Hf. split.
    + rewrite lookup_insert_ne by (apply not_eq_sym, html_not_xml). exact Hxml.
    + intros _. exists html, now, clean_text.
      split; [apply lookup_insert_eq|]. split; [|exact Hshort].
      rewrite clean_html_run in *. exact Hclean.
Qed.

(** C10 (amended): when the [try] block of a new item ends at the missing-link
    check or at the text-length check, the iteration of the item loop leaves
    the loop's locals as they were: nothing is appended to the new processed
    ids and nothing is counted.  The raw XML of the item has been stored
    before and is in the bucket after the iteration, and at the text-length
    check the article is there too; in the missing-link case the upload,
    its log line and the warning are the newest events.  In a later run over
    the unchanged feed that starts from the processed ids this pass has
    left, an item that was new in this pass is new again if its identity is
    not among the ids this pass has marked, and it is not if the pass
    returned and has marked an id equal to its identity. *)
Theorem abandoned_item_leaves_raw_xml E feed_name feed_config :
  let folder := folder feed_config in
  let path := processed_ids_path folder in
  (forall ls it w ex w',
     let item_id := item_id_at E (identity_of it) (utcnow E (tick w)) in
     let xml_path := raw_xml_path folder item_id in
     let upload := Called (BlobUpload xml_path (Payload (get_item_xml it))) true in
     item_body E feed_name folder it item_id (snd (make_item_id E it w)) = (Ok ex, w') ->
     ex <> Completed ->
     loop_step E feed_name folder ls it w = (Ok ls, w')
     /\ bucket w' !! xml_path = Some (Payload (get_item_xml it))
     /\ (ex = SkippedMissingLink ->
         truthy (link it) = false
         /\ exists tr_before,
              trace w' = Log WARNING (ItemMissingLink item_id)
                         :: Log INFO (SavedRawXml item_id xml_path)
                         :: upload :: tr_before ++ trace w)
     /\ (ex = SkippedTooShort ->
         truthy (link it) = true
         /\ exists html now clean_text,
              bucket w' !! raw_html_path folder item_id = Some (Payload html)
              /\ fst (clean_html E html (metadata_of feed_name it item_id now) w')
                 = Ok clean_text
              /\ too_short E clean_text = true))
  /\ (forall w r wf processed_ids new_items w1 it w_l processed_ids' new_items' w1',
        unchanged_feed E (url feed_config) ->
        process_feed E feed_name feed_config w = (r, wf) ->
        detect_new_items E feed_name feed_config
          (logged [Log INFO (ProcessingFeed feed_name)] w)
        = (Ok (processed_ids, new_items), w1) ->
        it ∈ new_items ->
        bucket w_l !! path = bucket wf !! path ->
        detect_new_items E feed_name feed_config w_l
        = (Ok (processed_ids', new_items'), w1') ->
        let marked := marked_ids (item_runs E feed_name folder new_items w1) in
        (identity_of it ∉ marked -> it ∈ new_items')
        /\ (r = Ok tt -> identity_of it ∈ marked -> it ∉ new_items')).
Proof.
  intros folder path. split.
  - intros ls it w ex w' item_id xml_path upload Hbody Hex.
    assert (Htrace : trace (snd (make_item_id E it w)) = trace w).
    { rewrite make_item_id_run. cbn [snd].
      now destruct (degenerate E (identity_of it)). }
    split; [|split; [|split]].
    + rewrite loop_step_run. cbn zeta. fold item_id. rewrite Hbody.
      destruct ex; [congruence| |]; cbn [after_exit exit_log]; now rewrite logged_nil.
    + now destruct (item_body_stored E feed_name folder it item_id _ ex w' Hbody Hex).
    + intros ->. apply item_body_inv in Hbody as (w_up & Hup & Hsteps).
      apply upload_file_ok in Hup as (_ & tr0 & Htr0).
      apply article_steps_inv in Hsteps
        as [(Hl & _ & ->)|[(_ & H)|(_ & H & _)]]; try discriminate.
      split; [exact Hl|].
      exists (tr0 ++ [Log INFO (ProcessingItem item_id)]).
      cbn [logged trace app]. rewrite Htr0. cbn [logged trace]. rewrite Htrace.
      now rewrite <- !app_assoc.
    + intros ->.
      destruct (item_body_stored E feed_name folder it item_id _ _ w' Hbody Hex)
        as (_ & Hshort).
      split; [|now apply Hshort].
      apply item_body_inv in Hbody as (w_up & _ & Hsteps).
      apply article_steps_inv in Hsteps
        as [(_ & H & _)|[(Hl & _)|(_ & H & _)]]; try discriminate.
      exact Hl.
  - intros w r wf processed_ids new_items w1 it w_l processed_ids' new_items' w1'
           Hfeed Hrun Hd Hin Hleft Hd' marked.
    set (w0 := logged [Log INFO (ProcessingFeed feed_name)] w) in *.
    (* the stored ids after the pass *)
    rewrite process_feed_run in Hrun. fold w0 in Hrun.
    destruct (feed_pass E feed_name feed_config w0) as [rp wp] eqn:Hp.
    assert (Hwf : bucket wf = bucket wp /\ (r = Ok tt -> rp = Ok tt)).
    { destruct rp as [[]|e]; injection Hrun as <- <-; split;
        first [reflexivity | discriminate]. }
    destruct Hwf as (Hbw & Hrw).
    destruct (feed_pass_stored E feed_name feed_config w0 processed_ids new_items
                w1 rp wp Hd Hp) as (_ & _ & _ & _ & _ & Hcases).
    fold folder path marked in Hcases.
    (* both runs parse the same items *)
    apply detect_new_items_inv in Hd as (xml & entries & wa & Hf & He & Hnew & _).
    apply detect_new_items_inv in Hd' as (xml' & entries' & wa' & Hf' & He' & Hnew' & _).
    fold folder path in Hnew, Hnew'.
    apply fetch_rss_content in Hf as (t & resp & Hg & Hc).
    apply fetch_rss_content in Hf' as (t' & resp' & Hg' & Hc').
    rewrite (Hfeed t t'), Hg' in Hg. injection Hg as ->.
    rewrite Hc in Hc'. subst xml'. rewrite He in He'. injection He' as <-.
    assert (Hs0 : stored_ids w0 path = stored_ids w path) by reflexivity.
    assert (Hsl : stored_ids w_l path = stored_ids wf path)
      by (apply stored_same; exact Hleft).
    rewrite Hs0 in Hnew. rewrite Hsl in Hnew'.
    assert (Hstored : stored_ids wf path = stored_ids w path
                      \/ stored_ids wf path = stored_ids w path ++ marked).
    { destruct Hcases as [(_ & Hb & _)|(_ & _ & _ & Hb)].
      - left. apply stored_same. now rewrite Hbw, Hb.
      - right. unfold stored_ids at 1. rewrite Hbw, Hb. cbn. now rewrite Hs0. }
    subst new_items new_items'. split.
    + intros Hm. destruct Hstored as [->| ->]; [exact Hin|].
      now apply get_new_items_again.
    + intros Hr Hm. specialize (Hrw Hr). subst rp.
      destruct Hcases as [(_ & _ & Hnone)|(_ & _ & _ & Hb)].
      * rewrite (Hnone eq_refl) in Hm. now apply elem_of_nil in Hm.
      * unfold get_new_items. rewrite list_elem_of_filter.
        intros [[_ Hn] _]. apply Hn. apply elem_of_list_to_set.
        unfold stored_ids at 1. rewrite Hbw, Hb. cbn.
        apply elem_of_app. now right.
Qed.

(** C10 on the entry without a link: its iteration leaves the locals as they
    were and its raw XML in the bucket; the pass marks the other entry, and
    in a run that starts from what the pass has left the entry without a
    link is new again. *)
Lemma abandoned_item_leaves_raw_xml_witness :
  (loop_step teaser_and_post (str "dev") (str "dev") loop_init
     (item_of_entry linkless_entry) start
   = (Ok loop_init,
      snd (item_body teaser_and_post (str "dev") (str "dev")
             (item_of_entry linkless_entry) (str "post-7") start))
   /\ bucket (snd (item_body teaser_and_post (str "dev") (str "dev")
                     (item_of_entry linkless_entry) (str "post-7") start))
        !! raw_xml_path (str "dev") (str "post-7")
      = Some (Payload (get_item_xml (item_of_entry linkless_entry))))
  /\ item_of_entry linkless_entry
     ∈ snd (match fst (detect_new_items teaser_and_post (str "dev") (snd dev_feed)
                         (snd (process_feed teaser_and_post (str "dev") (snd dev_feed)
                                 start))) with
            | Ok found => found
            | Raise _ => (empty_doc, [])
            end).
Proof.
  destruct (abandoned_item_leaves_raw_xml teaser_and_post (str "dev") (snd dev_feed))
    as [Hstep Hlater].
  split.
  - pose (wb := snd (item_body teaser_and_post (str "dev") (str "dev")
                       (item_of_entry linkless_entry) (str "post-7") start)).
    assert (H : item_body teaser_and_post (str "dev") (str "dev")
                  (item_of_entry linkless_entry) (str "post-7") start
                = (Ok SkippedMissingLink, wb)) by (vm_compute; reflexivity).
    destruct (Hstep loop_init (item_of_entry linkless_entry) start
                SkippedMissingLink wb H ltac:(discriminate)) as (Hloop & Hb & _).
    split; [exact Hloop | exact Hb].
  - pose (wf := snd (process_feed teaser_and_post (str "dev") (snd dev_feed) start)).
    pose (w1 := snd (detect_new_items teaser_and_post (str "dev") (snd dev_feed)
                       (logged [Log INFO (ProcessingFeed (str "dev"))] start))).
    pose (w1' := snd (detect_new_items teaser_and_post (str "dev") (snd dev_feed) wf)).
    pose (p' := {| doc_ids := Some [str "https___blogs.nvidia.com__p_1"];
                   doc_rest := [] |}).
    assert (Hrun : process_feed teaser_and_post (str "dev") (snd dev_feed) start
                   = (Ok tt, wf)) by (vm_compute; reflexivity).
    assert (Hd : detect_new_items teaser_and_post (str "dev") (snd dev_feed)
                   (logged [Log INFO (ProcessingFeed (str "dev"))] start)
                 = (Ok (empty_doc, teaser_and_post_items), w1))
      by (vm_compute; reflexivity).
    assert (Hd' : detect_new_items teaser_and_post (str "dev") (snd dev_feed) wf
                  = (Ok (p', teaser_and_post_items), w1'))
      by (vm_compute; reflexivity).
    assert (Hmarked : marked_ids (item_runs teaser_and_post (str "dev")
                                    (folder (snd dev_feed)) teaser_and_post_items w1)
                      = [str "https___blogs.nvidia.com__p_1"])
      by (vm_compute; reflexivity).
    fold wf. rewrite Hd'. cbn [fst snd].
    apply (Hlater start (Ok tt) wf empty_doc teaser_and_post_items w1
             (item_of_entry linkless_entry) wf p' teaser_and_post_items w1').
    + intros t t'. reflexivity.
    + exact Hrun.
    + exact Hd.
    + unfold teaser_and_post_items. cbn [map]. apply list_elem_of_here.
    + reflexivity.
    + exact Hd'.
    + rewrite Hmarked. intros Hin. apply list_elem_of_singleton in Hin.
      discriminate Hin.
Defined.

(** ** The header and the text-length check *)

(** [clean_html] returns the empty string for an empty page, without a
    header.  For any other page whose extraction succeeds it returns the
    header followed by the cleaned text; there is no header only when the
    publication date, the title and the feed are all empty, and with a
    non-empty feed name the stripped result is at least as long as
    "Source: ", the name and the separator.  So when the feed has a name and
    the minimum length is at most 13 plus the length of the name, the block
    of an item ends at the text-length check only for an empty page. *)
Theorem header_counts_toward_length E html meta w :
  (html = [] -> clean_html E html meta w = (Ok [], w))
  /\ (html <> [] ->
      forall text,
        extract_text E html = Ok text ->
        let body := remove_footer_header_patterns E (_clean_whitespace text) in
        exists header,
          clean_html E html meta w = (Ok (header ++ body), w)
          /\ (header = [] <->
              m_pubDate meta = [] /\ m_title meta = [] /\ m_feed meta = [])
          /\ (m_feed meta <> [] ->
              (13 + length (m_feed meta) <= length (strip (header ++ body)))%nat
              /\ ((MIN_TEXT_LENGTH E <= 13 + length (m_feed meta))%nat ->
                  too_short E (header ++ body) = false)))
  /\ (forall feed_name folder it item_id w0 w',
        feed_name <> [] ->
        (MIN_TEXT_LENGTH E <= 13 + length feed_name)%nat ->
        article_steps E feed_name folder it item_id w0 = (Ok SkippedTooShort, w') ->
        bucket w' !! raw_html_path folder item_id = Some (Payload [])).
Proof.
  split; [|split].
  - intros ->. reflexivity.
  - intros Hne text Htext body. rewrite clean_html_run, Htext.
    destruct html as [|c html]; [congruence|]. fold body.
    destruct (prepend_header_length meta body) as ((header & Hh & Hnone) & Hlen).
    exists header. rewrite Hh. split; [reflexivity|]. split; [exact Hnone|].
    intros Hfeed. destruct (Hlen Hfeed) as (Hl & Hshort). rewrite Hh in Hl, Hshort.
    split; [exact Hl|]. intros Hmin. now apply Hshort.
  - intros feed_name folder it item_id w0 w' Hname Hmin Hsteps.
    apply article_steps_short_inv in Hsteps
      as (page & w_f & w_u & now & clean_text & _ & Hup & Hclean & Hshort & Hb).
    apply upload_file_ok in Hup as (Hstored & _). rewrite Hb.
    rewrite clean_html_run in Hclean. cbn [fst] in Hclean.
    destruct page as [|c page]; [exact Hstored|].
    destruct (extract_text E (c :: page)) as [text|e]; [|discriminate].
    injection Hclean as <-.
    destruct (prepend_header_length (metadata_of feed_name it item_id now)
                (remove_footer_header_patterns E (_clean_whitespace text)))
      as (_ & Hlen).
    destruct (Hlen Hname) as (_ & Hok). cbn [m_feed metadata_of] in Hok.
    rewrite (Hok E Hmin) in Hshort. discriminate Hshort.
Qed.

(** The article of the healthy deployment under the metadata of the sample
    item: the header comes first and counts. *)
Lemma header_counts_toward_length_witness :
  exists header,
    clean_html healthy (str "<html><body>article</body></html>") sample_metadata start
    = (Ok (header ++ str "A long enough article body."), start)
    /\ (16 <= length (strip (header ++ str "A long enough article body.")))%nat.
Proof.
  destruct (header_counts_toward_length healthy
              (str "<html><body>article</body></html>") sample_metadata start)
    as (_ & H & _).
  destruct (H ltac:(discriminate) (str "A long enough article body.") eq_refl)
    as (header & Hrun & _ & Hlen).
  exists header. split; [exact Hrun|].
  destruct (Hlen ltac:(discriminate)) as (Hl & _). exact Hl.
Defined.
